(** * Sathi AI: the duplex audio session engine of [src/app.tsx]

    A shallow embedding of the session controller, the capture pipeline and
    the playback scheduler that live inside the [App] component, together
    with the PCM codec it imports from [./services/audioService].

    Conventions of the embedding:
    - JavaScript numbers that carry times (the output clock, buffer
      durations, [nextStartTimeRef]) and audio amplitudes are exact
      rationals [Q];
    - React state and refs are fields of one record; a setter takes effect
      at once, and every handler reads the latest values;
    - every call made on a collaborator (remote channel, audio device,
      key-selection flow, console) is recorded in a log, most recent first;
    - an [await] splits a handler: what follows it is stored as a task and
      resumed by a later event, which carries what the collaborator
      answered;
    - the constructors ([GoogleGenAI], [AudioContext]) and the
      [window.aistudio] object are taken to exist, and creating nodes on an
      audio context does not throw. *)

From Stdlib Require Import ZArith QArith Qabs Qminmax List String Ascii Bool Lia Lqa.
Import ListNotations.

Local Open Scope Z_scope.

Ltac Zify.zify_post_hook ::= Z.to_euclidean_division_equations.

(** ** The PCM codec *)

Module AudioService.

(** A byte is an integer in [0, 255]. *)
Definition byte_ok (b : Z) : Prop := 0 <= b < 256.

(** *** Text-safe wrapping (base64, RFC 4648 alphabet, padded) *)

Definition alphabet : string :=
  "ABCDEFGHIJKLMNOPQRSTUVWXYZabcdefghijklmnopqrstuvwxyz0123456789+/".

Definition pad : ascii := "="%char.

Definition sextet_char (n : Z) : ascii :=
  match String.get (Z.to_nat n) alphabet with
  | Some c => c
  | None => pad
  end.

Fixpoint position (c : ascii) (s : string) (i : Z) : option Z :=
  match s with
  | EmptyString => None
  | String d rest => if Ascii.eqb c d then Some i else position c rest (i + 1)
  end.

Definition char_sextet (c : ascii) : option Z := position c alphabet 0.

Fixpoint btoa (bs : list Z) : string :=
  match bs with
  | [] => EmptyString
  | [a] =>
      String (sextet_char (a / 4))
        (String (sextet_char (a mod 4 * 16))
           (String pad (String pad EmptyString)))
  | [a; b] =>
      String (sextet_char (a / 4))
        (String (sextet_char (a mod 4 * 16 + b / 16))
           (String (sextet_char (b mod 16 * 4))
              (String pad EmptyString)))
  | a :: b :: c :: rest =>
      String (sextet_char (a / 4))
        (String (sextet_char (a mod 4 * 16 + b / 16))
           (String (sextet_char (b mod 16 * 4 + c / 64))
              (String (sextet_char (c mod 64)) (btoa rest))))
  end.

(** One group of four characters; padding is only accepted in the last
    group, and its unused bits must be zero. *)
Definition quad (c1 c2 c3 c4 : ascii) (last : bool) : option (list Z) :=
  match char_sextet c1, char_sextet c2 with
  | Some s1, Some s2 =>
      let a := s1 * 4 + s2 / 16 in
      if Ascii.eqb c3 pad then
        if last && Ascii.eqb c4 pad && (s2 mod 16 =? 0) then Some [a] else None
      else
        match char_sextet c3 with
        | None => None
        | Some s3 =>
            let b := s2 mod 16 * 16 + s3 / 4 in
            if Ascii.eqb c4 pad then
              if last && (s3 mod 4 =? 0) then Some [a; b] else None
            else
              match char_sextet c4 with
              | None => None
              | Some s4 => Some [a; b; s3 mod 4 * 64 + s4]
              end
        end
  | _, _ => None
  end.

Definition is_empty (s : string) : bool :=
  match s with EmptyString => true | _ => false end.

Fixpoint atob (s : string) : option (list Z) :=
  match s with
  | EmptyString => Some []
  | String c1 (String c2 (String c3 (String c4 rest))) =>
      match quad c1 c2 c3 c4 (is_empty rest) with
      | None => None
      | Some bs =>
          match atob rest with
          | None => None
          | Some more => Some (bs ++ more)
          end
      end
  | _ => None
  end.

(** *** Fixed-point sample conversion *)

(** The scale factor shared by both directions: one unit in the last place
    of a signed 16-bit sample is [1/32768]. *)
Definition scale : Z := 32768.

(** Conversion of a number to an integer drops the fractional part. *)
Definition truncate (q : Q) : Z := Z.quot (Qnum q) (Zpos (Qden q)).

Definition clamp16 (v : Z) : Z := Z.max (-32768) (Z.min 32767 v).

Definition sample_to_int16 (x : Q) : Z :=
  clamp16 (truncate (x * inject_Z scale)).

(** Two's-complement little-endian packing of one 16-bit value. *)
Definition int16_bytes (v : Z) : list Z :=
  let u := v mod 65536 in [u mod 256; u / 256].

Fixpoint pack (vs : list Z) : list Z :=
  match vs with
  | [] => []
  | v :: rest => int16_bytes v ++ pack rest
  end.

Definition int16_of_bytes (lo hi : Z) : Z :=
  let u := lo + 256 * hi in if u <? 32768 then u else u - 65536.

Fixpoint unpack (bs : list Z) : option (list Z) :=
  match bs with
  | [] => Some []
  | lo :: hi :: rest =>
      match unpack rest with
      | Some vs => Some (int16_of_bytes lo hi :: vs)
      | None => None
      end
  | [_] => None
  end.

Definition int16_to_sample (v : Z) : Q := inject_Z v / inject_Z scale.

Definition int16_ok (v : Z) : Prop := -32768 <= v <= 32767.

Record Blob : Type := mkBlob { data : string; mimeType : string }.

Inductive CodecError : Type := DecodeError | FormatError.

(** Modelled from the spec: [createBlob] of [services/audioService] (the
    spec's [encode]), which is not among the sources.  It clamps each sample
    to the signed 16-bit range after linear scaling, packs little-endian
    and wraps the bytes as text with the fixed format tag. *)
Definition createBlob (frame : list Q) : Blob :=
  {| data := btoa (pack (map sample_to_int16 frame));
     mimeType := "audio/pcm;rate=16000" |}.

(** Modelled from the spec: [decode] of [services/audioService], the inverse
    of the text-safe wrapping only; it fails with [DecodeError] on a payload
    that is not validly wrapped. *)
Definition decode (payload : string) : CodecError + list Z :=
  match atob payload with
  | Some bs => inr bs
  | None => inl DecodeError
  end.

(** An [AudioBuffer]: its samples and the rate they are played at. *)
Record AudioBuffer : Type :=
  mkBuffer { samples : list Q; sampleRate : Z; numberOfChannels : Z }.

(** Modelled from the spec: [decodeAudioData] of [services/audioService].
    It rebuilds the samples from little-endian signed 16-bit pairs, divides
    by the scale factor of [createBlob], and fails with [FormatError] when
    the byte length is odd or zero.  The output context argument of the
    source only allocates the buffer and is left out. *)
Definition decodeAudioData (bytes : list Z) (targetRate channelCount : Z)
  : CodecError + AudioBuffer :=
  match bytes with
  | [] => inl FormatError
  | _ =>
      match unpack bytes with
      | None => inl FormatError
      | Some vs => inr (mkBuffer (map int16_to_sample vs) targetRate channelCount)
      end
  end.

(** [AudioBuffer.duration]: frame count over sample rate, in seconds. *)
Definition duration (b : AudioBuffer) : Q :=
  inject_Z (Z.of_nat (List.length (samples b))) / inject_Z (sampleRate b).

End AudioService.

(** ** Values exchanged with the collaborators *)

Local Open Scope string_scope.

(** [types.ts]: the subjects a lesson can be started for. *)
Inductive Subject : Type :=
| Nepali | English | Maths | Science | Computer | Social | Pronunciation | Health.

(** The argument object of the [displayTargetWord] tool, which is also the
    value held by the [targetWord] state. *)
Record TargetWord : Type := mkTargetWord { word : string; language : string }.

(** A function call of a tool-call event; each field is optional in the
    SDK's type. *)
Record FunctionCall : Type :=
  mkCall { fc_id : option string; fc_name : option string; fc_args : option TargetWord }.

Record Transcription : Type := mkTranscription { text : option string }.

(** The parts of a [LiveServerMessage] that [onmessage] reads:
    [toolCall.functionCalls], the inline data of the first part of the model
    turn, the two transcriptions and the interrupted flag. *)
Record LiveServerMessage : Type :=
  mkMessage {
    toolCall : option (list FunctionCall);
    audioData : option string;
    inputTranscription : option Transcription;
    outputTranscription : option Transcription;
    interrupted : bool }.

(** The value received by [onerror] and by the [catch] of [startSession]. *)
Record JsError : Type := mkError { message : option string }.

(** How a promise settles. *)
Inductive Settled (A : Type) : Type :=
| Fulfilled (a : A)
| Rejected (reason : JsError).
Arguments Fulfilled {A} a.
Arguments Rejected {A} reason.

Inductive PromiseState : Type := Pending | Resolved | Failed.

(** Calls made on the collaborators.  Audio contexts, media streams,
    channels and buffer sources are named by the identifier they received
    when they were created. *)
Inductive Call : Type :=
| hasSelectedApiKey
| openSelectKey
| console_error (label : string)
| new_AudioContext (x : nat) (rate : Z)
| getUserMedia
| live_connect (c : nat) (subject : Subject)
| capture_connect (x m c : nat)
| sendRealtimeInput_media (c : nat) (blob : AudioService.Blob)
| sendRealtimeInput_text (c : nat) (t : string)
| sendToolResponse (c : nat) (id name : option string) (result : string)
| session_close (c : nat)
| context_close (x : nat)
| track_stop (m : nat)
| source_start (src x : nat) (when dur : Q)
| source_stop (src : nat).

(** The rest of a handler that is suspended at an [await] or registered
    with [then]. *)
Inductive Task : Type :=
| AwaitHasKey (subject : Subject)
| AwaitSelectKey (subject : Subject)
| AwaitUserMedia (subject : Subject)
| AwaitSession (c : nat)
| AwaitDecode (c ctx : nat) (bytes : list Z) (m : LiveServerMessage)
| AwaitReselect.

(** A callback registered with [sessionPromise.then]. *)
Inductive ThenCallback : Type :=
| SendMedia (blob : AudioService.Blob)
| SendToolResponse (id name : option string).

(** What the closure of one [ai.live.connect] call holds: the captured
    microphone stream, the state of [sessionPromise], and whether [onopen]
    has installed the script processor. *)
Record Channel : Type :=
  mkChannel { ch_stream : nat; ch_promise : PromiseState; ch_capture : bool }.

(** ** State *)

(** The [useState] cells of [App]. *)
Record State : Type :=
  mkState {
    selectedSubject : option Subject;
    isActive : bool;
    userTranscription : string;
    modelTranscription : string;
    isConnecting : bool;
    isMuted : bool;
    targetWord : option TargetWord;
    errorMsg : option string;
    inputText : string }.

(** The [useRef] cells of [App].  [sourcesRef] is a JavaScript [Set], kept
    in insertion order. *)
Record Refs : Type :=
  mkRefs {
    inputAudioCtxRef : option nat;
    outputAudioCtxRef : option nat;
    sessionRef : option nat;
    sourcesRef : list nat;
    nextStartTimeRef : Q;
    micStreamRef : option nat;
    isMutedRef : bool }.

(** The component together with its surroundings: the log of collaborator
    calls (most recent first), suspended tasks (most recent first), [then]
    callbacks in registration order, the channels opened so far, the next
    unused identifier, and the channels whose [close] throws. *)
Record Sys : Type :=
  mkSys {
    ui : State;
    refs : Refs;
    calls : list Call;
    tasks : list (nat * Task);
    waiters : list (nat * ThenCallback);
    channels : list (nat * Channel);
    fresh : nat;
    closeThrows : list nat }.

Definition initial_state : State :=
  mkState None false "" "" false false None None "".

Definition initial_refs : Refs :=
  mkRefs None None None [] 0%Q None false.

Definition initial (faulty : list nat) : Sys :=
  mkSys initial_state initial_refs [] [] [] [] 0%nat faulty.

Definition with_ui (f : State -> State) (s : Sys) : Sys :=
  mkSys (f (ui s)) (refs s) (calls s) (tasks s) (waiters s) (channels s)
        (fresh s) (closeThrows s).

Definition with_refs (f : Refs -> Refs) (s : Sys) : Sys :=
  mkSys (ui s) (f (refs s)) (calls s) (tasks s) (waiters s) (channels s)
        (fresh s) (closeThrows s).

Definition with_calls (f : list Call -> list Call) (s : Sys) : Sys :=
  mkSys (ui s) (refs s) (f (calls s)) (tasks s) (waiters s) (channels s)
        (fresh s) (closeThrows s).

Definition with_tasks (f : list (nat * Task) -> list (nat * Task)) (s : Sys) : Sys :=
  mkSys (ui s) (refs s) (calls s) (f (tasks s)) (waiters s) (channels s)
        (fresh s) (closeThrows s).

Definition with_waiters
  (f : list (nat * ThenCallback) -> list (nat * ThenCallback)) (s : Sys) : Sys :=
  mkSys (ui s) (refs s) (calls s) (tasks s) (f (waiters s)) (channels s)
        (fresh s) (closeThrows s).

Definition with_channels
  (f : list (nat * Channel) -> list (nat * Channel)) (s : Sys) : Sys :=
  mkSys (ui s) (refs s) (calls s) (tasks s) (waiters s) (f (channels s))
        (fresh s) (closeThrows s).

Definition with_fresh (n : nat) (s : Sys) : Sys :=
  mkSys (ui s) (refs s) (calls s) (tasks s) (waiters s) (channels s)
        n (closeThrows s).

(** ** Handlers as computations that may throw *)

Inductive Res (A : Type) : Type :=
| Ret (a : A) (s : Sys)
| Throw (e : string) (s : Sys).
Arguments Ret {A} a s.
Arguments Throw {A} e s.

Definition M (A : Type) : Type := Sys -> Res A.

Definition ret {A} (a : A) : M A := fun s => Ret a s.

Definition throw {A} (e : string) : M A := fun s => Throw e s.

Definition bind {A B} (m : M A) (k : A -> M B) : M B :=
  fun s => match m s with
           | Ret a s' => k a s'
           | Throw e s' => Throw e s'
           end.

Definition try_catch {A} (body : M A) (handler : string -> M A) : M A :=
  fun s => match body s with
           | Ret a s' => Ret a s'
           | Throw e s' => handler e s'
           end.

Definition gets {A} (f : Sys -> A) : M A := fun s => Ret (f s) s.

Definition modify (f : Sys -> Sys) : M unit := fun s => Ret tt (f s).

Arguments ret {A} a s /.
Arguments throw {A} e s /.
Arguments bind {A B} m k s /.
Arguments try_catch {A} body handler s /.
Arguments gets {A} f s /.
Arguments modify f s /.
Arguments with_ui f s /.
Arguments with_refs f s /.
Arguments with_calls f s /.
Arguments with_tasks f s /.
Arguments with_waiters f s /.
Arguments with_channels f s /.
Arguments with_fresh n s /.

Declare Scope js_scope.
Delimit Scope js_scope with js.
Notation "x <- m ;; k" := (bind m (fun x => k))
  (at level 61, m at next level, right associativity) : js_scope.
Notation "m ;; k" := (bind m (fun _ => k))
  (at level 61, right associativity) : js_scope.
Local Open Scope js_scope.

(** The state a handler leaves behind, whether it returned or threw. *)
Definition state_of {A} (r : Res A) : Sys :=
  match r with Ret _ s => s | Throw _ s => s end.

Definition returns {A} (r : Res A) : bool :=
  match r with Ret _ _ => true | Throw _ _ => false end.

Fixpoint for_each {A} (l : list A) (f : A -> M unit) : M unit :=
  match l with
  | [] => ret tt
  | a :: rest => f a ;; for_each rest f
  end.

Definition when (b : bool) (m : M unit) : M unit := if b then m else ret tt.

Definition with_some {A} (o : option A) (f : A -> M unit) : M unit :=
  match o with Some a => f a | None => ret tt end.

Arguments when b m s /.
Arguments with_some {A} o f s /.

(** ** JavaScript helpers *)

(** [a || b] on an optional string: the empty string and [undefined] are
    both falsy. *)
Definition or_else (a : option string) (b : string) : string :=
  match a with
  | Some EmptyString | None => b
  | Some s => s
  end.

(** [String.prototype.includes]. *)
Definition includes (s pat : string) : bool :=
  match String.index 0 pat s with Some _ => true | None => false end.

(** A string spliced into a template or concatenated: [undefined] prints
    as the word. *)
Definition to_text (o : option string) : string :=
  match o with Some s => s | None => "undefined" end.

(** Strings are held as the bytes of their UTF-8 encoding.  The white
    space and the line terminators of ECMAScript, which
    [String.prototype.trim] strips, are then sequences of one, two or three
    bytes:
    - U+0009 to U+000D and U+0020, one byte each;
    - U+00A0 (no-break space), bytes 194 160;
    - U+1680, bytes 225 154 128;
    - U+2000 to U+200A, U+2028, U+2029 and U+202F, bytes 226 128 [b] with
      [b] from 128 to 138, 168, 169 or 175;
    - U+205F, bytes 226 129 159;
    - U+3000, bytes 227 128 128;
    - U+FEFF, bytes 239 187 191. *)
Definition is_space (c : ascii) : bool :=
  let n := nat_of_ascii c in
  (Nat.eqb n 32 || (Nat.leb 9 n && Nat.leb n 13))%bool.

Definition is_space2 (c1 c2 : ascii) : bool :=
  (Nat.eqb (nat_of_ascii c1) 194 && Nat.eqb (nat_of_ascii c2) 160)%bool.

Definition is_space3 (c1 c2 c3 : ascii) : bool :=
  let n1 := nat_of_ascii c1 in
  let n2 := nat_of_ascii c2 in
  let n3 := nat_of_ascii c3 in
  ((Nat.eqb n1 225 && Nat.eqb n2 154 && Nat.eqb n3 128)
   || (Nat.eqb n1 226 && Nat.eqb n2 128
       && ((Nat.leb 128 n3 && Nat.leb n3 138)
           || Nat.eqb n3 168 || Nat.eqb n3 169 || Nat.eqb n3 175))
   || (Nat.eqb n1 226 && Nat.eqb n2 129 && Nat.eqb n3 159)
   || (Nat.eqb n1 227 && Nat.eqb n2 128 && Nat.eqb n3 128)
   || (Nat.eqb n1 239 && Nat.eqb n2 187 && Nat.eqb n3 191))%bool.

(** The string without the white space it begins with. *)
Fixpoint trim_start (s : string) : string :=
  match s with
  | String c1 rest1 =>
      if is_space c1 then trim_start rest1
      else
        match rest1 with
        | String c2 rest2 =>
            if is_space2 c1 c2 then trim_start rest2
            else
              match rest2 with
              | String c3 rest3 =>
                  if is_space3 c1 c2 c3 then trim_start rest3 else s
              | EmptyString => s
              end
        | EmptyString => s
        end
  | EmptyString => EmptyString
  end.

(** The string is white space only. *)
Definition blank (s : string) : bool :=
  match trim_start s with EmptyString => true | String _ _ => false end.

(** The string without the white space it ends with: the longest suffix
    that is white space only is cut off. *)
Fixpoint trim_end (s : string) : string :=
  match s with
  | String c rest => if blank s then EmptyString else String c (trim_end rest)
  | EmptyString => EmptyString
  end.

(** [String.prototype.trim]. *)
Definition trim (s : string) : string := trim_end (trim_start s).

Definition mem (n : nat) (l : list nat) : bool := existsb (Nat.eqb n) l.
Arguments mem n l : simpl never.

(** [Set.prototype.add] and [Set.prototype.delete]. *)
Definition set_add (n : nat) (l : list nat) : list nat :=
  if mem n l then l else (l ++ [n])%list.

Definition set_delete (n : nat) (l : list nat) : list nat :=
  filter (fun k => negb (Nat.eqb n k)) l.

(** ** Primitive effects *)

Definition log (c : Call) : M unit := modify (with_calls (cons c)).

(** A new identifier, for an object created by a constructor or handed
    over by a collaborator. *)
Definition alloc : M nat :=
  fun s => Ret (fresh s) (with_fresh (S (fresh s)) s).

Definition suspend (k : Task) : M unit :=
  t <- alloc ;; modify (with_tasks (cons (t, k))).

Fixpoint lookup {A} (n : nat) (l : list (nat * A)) : option A :=
  match l with
  | [] => None
  | (k, a) :: rest => if Nat.eqb n k then Some a else lookup n rest
  end.

Fixpoint remove {A} (n : nat) (l : list (nat * A)) : list (nat * A) :=
  match l with
  | [] => []
  | (k, a) :: rest => if Nat.eqb n k then rest else (k, a) :: remove n rest
  end.

Fixpoint update {A} (n : nat) (f : A -> A) (l : list (nat * A)) : list (nat * A) :=
  match l with
  | [] => []
  | (k, a) :: rest =>
      if Nat.eqb n k then (k, f a) :: rest else (k, a) :: update n f rest
  end.

Definition setSelectedSubject (v : option Subject) : M unit :=
  modify (with_ui (fun u =>
    mkState v (isActive u) (userTranscription u) (modelTranscription u)
      (isConnecting u) (isMuted u) (targetWord u) (errorMsg u) (inputText u))).

Definition setIsActive (v : bool) : M unit :=
  modify (with_ui (fun u =>
    mkState (selectedSubject u) v (userTranscription u) (modelTranscription u)
      (isConnecting u) (isMuted u) (targetWord u) (errorMsg u) (inputText u))).

Definition setUserTranscription (f : string -> string) : M unit :=
  modify (with_ui (fun u =>
    mkState (selectedSubject u) (isActive u) (f (userTranscription u))
      (modelTranscription u) (isConnecting u) (isMuted u) (targetWord u)
      (errorMsg u) (inputText u))).

Definition setModelTranscription (f : string -> string) : M unit :=
  modify (with_ui (fun u =>
    mkState (selectedSubject u) (isActive u) (userTranscription u)
      (f (modelTranscription u)) (isConnecting u) (isMuted u) (targetWord u)
      (errorMsg u) (inputText u))).

Definition setIsConnecting (v : bool) : M unit :=
  modify (with_ui (fun u =>
    mkState (selectedSubject u) (isActive u) (userTranscription u)
      (modelTranscription u) v (isMuted u) (targetWord u) (errorMsg u)
      (inputText u))).

Definition setIsMuted (v : bool) : M unit :=
  modify (with_ui (fun u =>
    mkState (selectedSubject u) (isActive u) (userTranscription u)
      (modelTranscription u) (isConnecting u) v (targetWord u) (errorMsg u)
      (inputText u))).

Definition setTargetWord (v : option TargetWord) : M unit :=
  modify (with_ui (fun u =>
    mkState (selectedSubject u) (isActive u) (userTranscription u)
      (modelTranscription u) (isConnecting u) (isMuted u) v (errorMsg u)
      (inputText u))).

Definition setErrorMsg (v : option string) : M unit :=
  modify (with_ui (fun u =>
    mkState (selectedSubject u) (isActive u) (userTranscription u)
      (modelTranscription u) (isConnecting u) (isMuted u) (targetWord u) v
      (inputText u))).

Definition setInputText (v : string) : M unit :=
  modify (with_ui (fun u =>
    mkState (selectedSubject u) (isActive u) (userTranscription u)
      (modelTranscription u) (isConnecting u) (isMuted u) (targetWord u)
      (errorMsg u) v)).

Definition set_inputAudioCtxRef (v : option nat) : M unit :=
  modify (with_refs (fun r =>
    mkRefs v (outputAudioCtxRef r) (sessionRef r) (sourcesRef r)
      (nextStartTimeRef r) (micStreamRef r) (isMutedRef r))).

Definition set_outputAudioCtxRef (v : option nat) : M unit :=
  modify (with_refs (fun r =>
    mkRefs (inputAudioCtxRef r) v (sessionRef r) (sourcesRef r)
      (nextStartTimeRef r) (micStreamRef r) (isMutedRef r))).

Definition set_sessionRef (v : option nat) : M unit :=
  modify (with_refs (fun r =>
    mkRefs (inputAudioCtxRef r) (outputAudioCtxRef r) v (sourcesRef r)
      (nextStartTimeRef r) (micStreamRef r) (isMutedRef r))).

Definition set_sourcesRef (f : list nat -> list nat) : M unit :=
  modify (with_refs (fun r =>
    mkRefs (inputAudioCtxRef r) (outputAudioCtxRef r) (sessionRef r)
      (f (sourcesRef r)) (nextStartTimeRef r) (micStreamRef r) (isMutedRef r))).

Definition set_nextStartTimeRef (f : Q -> Q) : M unit :=
  modify (with_refs (fun r =>
    mkRefs (inputAudioCtxRef r) (outputAudioCtxRef r) (sessionRef r)
      (sourcesRef r) (f (nextStartTimeRef r)) (micStreamRef r) (isMutedRef r))).

Definition set_micStreamRef (v : option nat) : M unit :=
  modify (with_refs (fun r =>
    mkRefs (inputAudioCtxRef r) (outputAudioCtxRef r) (sessionRef r)
      (sourcesRef r) (nextStartTimeRef r) v (isMutedRef r))).

Definition set_isMutedRef (v : bool) : M unit :=
  modify (with_refs (fun r =>
    mkRefs (inputAudioCtxRef r) (outputAudioCtxRef r) (sessionRef r)
      (sourcesRef r) (nextStartTimeRef r) (micStreamRef r) v)).

Arguments log c s /.
Arguments alloc s /.
Arguments suspend k s /.
Arguments setSelectedSubject v s /.
Arguments setIsActive v s /.
Arguments setUserTranscription f s /.
Arguments setModelTranscription f s /.
Arguments setIsConnecting v s /.
Arguments setIsMuted v s /.
Arguments setTargetWord v s /.
Arguments setErrorMsg v s /.
Arguments setInputText v s /.
Arguments set_inputAudioCtxRef v s /.
Arguments set_outputAudioCtxRef v s /.
Arguments set_sessionRef v s /.
Arguments set_sourcesRef f s /.
Arguments set_nextStartTimeRef f s /.
Arguments set_micStreamRef v s /.
Arguments set_isMutedRef v s /.

(** [session.close()]: the call is made, and throws on a faulty channel. *)
Definition close_session (c : nat) : M unit :=
  log (session_close c) ;;
  faulty <- gets closeThrows ;;
  if mem c faulty then throw "close failed" else ret tt.

Definition run_callback (c : nat) (cb : ThenCallback) : M unit :=
  match cb with
  | SendMedia blob => log (sendRealtimeInput_media c blob)
  | SendToolResponse id name =>
      log (sendToolResponse c id name "Word displayed successfully.")
  end.

(** [sessionPromise.then(cb)] for the promise of channel [c]: the callback
    runs once the promise is fulfilled, and never if it is rejected. *)
Definition promise_then (c : nat) (cb : ThenCallback) : M unit :=
  chans <- gets channels ;;
  match lookup c chans with
  | Some ch =>
      match ch_promise ch with
      | Resolved => run_callback c cb
      | Pending => modify (with_waiters (fun w => (w ++ [(c, cb)])%list))
      | Failed => ret tt
      end
  | None => ret tt
  end.

Definition settle (c : nat) (p : PromiseState) : M unit :=
  modify (with_channels
    (update c (fun ch => mkChannel (ch_stream ch) p (ch_capture ch)))).

Definition waiting_on (c : nat) (w : nat * ThenCallback) : bool :=
  Nat.eqb c (fst w).

(** The callbacks registered on the promise of [c] run in registration
    order when it is fulfilled. *)
Definition run_waiters (c : nat) : M unit :=
  w <- gets waiters ;;
  modify (with_waiters (filter (fun x => negb (waiting_on c x)))) ;;
  for_each (filter (waiting_on c) w) (fun x => run_callback c (snd x)).

Definition drop_waiters (c : nat) : M unit :=
  modify (with_waiters (filter (fun x => negb (waiting_on c x)))).

(** ** The handlers of [App] *)

(** [toggleMute], lines 47-51. *)
Definition toggleMute : M unit :=
  muted <- gets (fun s => isMuted (ui s)) ;;
  let nextMuted := negb muted in
  setIsMuted nextMuted ;;
  set_isMutedRef nextMuted.

(** [stopSession], lines 53-77.  The rejections of the two
    [AudioContext.close()] promises are swallowed by their [catch]. *)
Definition stopSession : M unit :=
  session <- gets (fun s => sessionRef (refs s)) ;;
  with_some session (fun c =>
    try_catch (close_session c) (fun _ => ret tt)) ;;
  setIsActive false ;;
  setIsConnecting false ;;
  setIsMuted false ;;
  set_isMutedRef false ;;
  setTargetWord None ;;
  setInputText "" ;;
  ictx <- gets (fun s => inputAudioCtxRef (refs s)) ;;
  with_some ictx (fun x => log (context_close x)) ;;
  octx <- gets (fun s => outputAudioCtxRef (refs s)) ;;
  with_some octx (fun x => log (context_close x)) ;;
  mic <- gets (fun s => micStreamRef (refs s)) ;;
  with_some mic (fun m => log (track_stop m)) ;;
  set_inputAudioCtxRef None ;;
  set_outputAudioCtxRef None ;;
  set_micStreamRef None ;;
  set_sessionRef None.

(** [handleSendMessage], lines 94-104. *)
Definition handleSendMessage : M unit :=
  typed <- gets (fun s => inputText (ui s)) ;;
  session <- gets (fun s => sessionRef (refs s)) ;;
  match trim typed, session with
  | EmptyString, _ | _, None => ret tt
  | textToSend, Some c =>
      log (sendRealtimeInput_text c textToSend) ;;
      setUserTranscription (fun prev => prev ++ " [Typed: " ++ textToSend ++ "]") ;;
      setInputText ""
  end.

(** The [catch] block of [startSession], lines 237-242. *)
Definition start_failed (err : JsError) : M unit :=
  log (console_error "Failed to start session:") ;;
  setIsConnecting false ;;
  setErrorMsg (Some (or_else (message err) "Could not connect to Sathi AI")) ;;
  stopSession.

(** [startSession] from line 120 up to its second [await]: both audio
    contexts are created and the microphone is requested.  The argument is
    the value [handleApiKeySelection] returned, which line 118 discards. *)
Definition start_acquire (subject : Subject) (keySelected : bool) : M unit :=
  xin <- alloc ;;
  log (new_AudioContext xin 16000) ;;
  set_inputAudioCtxRef (Some xin) ;;
  xout <- alloc ;;
  log (new_AudioContext xout 24000) ;;
  set_outputAudioCtxRef (Some xout) ;;
  log getUserMedia ;;
  suspend (AwaitUserMedia subject).

(** [startSession], lines 106-118, with the synchronous beginning of
    [handleApiKeySelection] (line 82). *)
Definition startSession (subject : Subject) : M unit :=
  connecting <- gets (fun s => isConnecting (ui s)) ;;
  if connecting then ret tt
  else
    setIsConnecting true ;;
    setErrorMsg None ;;
    setSelectedSubject (Some subject) ;;
    setIsMuted false ;;
    set_isMutedRef false ;;
    setTargetWord None ;;
    setUserTranscription (fun _ => "") ;;
    setModelTranscription (fun _ => "") ;;
    log hasSelectedApiKey ;;
    suspend (AwaitHasKey subject).

(** [handleApiKeySelection] after [hasSelectedApiKey] has settled, lines
    83-91, followed by the rest of [startSession]. *)
Definition after_hasKey (subject : Subject) (r : Settled bool) : M unit :=
  match r with
  | Fulfilled true => start_acquire subject true
  | Fulfilled false => log openSelectKey ;; suspend (AwaitSelectKey subject)
  | Rejected _ =>
      log (console_error "API Key selection failed") ;;
      start_acquire subject false
  end.

(** [handleApiKeySelection] after [openSelectKey] has settled. *)
Definition after_selectKey (subject : Subject) (r : Settled unit) : M unit :=
  match r with
  | Fulfilled _ => start_acquire subject true
  | Rejected _ =>
      log (console_error "API Key selection failed") ;;
      start_acquire subject false
  end.

(** [startSession] after [getUserMedia] has settled, lines 126-235: the
    stream is kept, the channel is opened with its callbacks, and the
    handler waits for the session. *)
Definition after_userMedia (subject : Subject) (r : Settled unit) : M unit :=
  match r with
  | Fulfilled _ =>
      stream <- alloc ;;
      set_micStreamRef (Some stream) ;;
      c <- alloc ;;
      log (live_connect c subject) ;;
      modify (with_channels (cons (c, mkChannel stream Pending false))) ;;
      suspend (AwaitSession c)
  | Rejected err => start_failed err
  end.

(** Line 235 once [sessionPromise] has settled; the [then] callbacks
    registered meanwhile follow. *)
Definition after_session (c : nat) (r : Settled unit) : M unit :=
  match r with
  | Fulfilled _ =>
      settle c Resolved ;;
      set_sessionRef (Some c) ;;
      run_waiters c
  | Rejected err =>
      settle c Failed ;;
      drop_waiters c ;;
      start_failed err
  end.

(** [onopen], lines 143-161.  The non-null assertions on
    [inputAudioCtxRef.current] throw when the ref has been cleared. *)
Definition onopen (c : nat) : M unit :=
  chans <- gets channels ;;
  with_some (lookup c chans) (fun ch =>
    setIsActive true ;;
    setIsConnecting false ;;
    ictx <- gets (fun s => inputAudioCtxRef (refs s)) ;;
    match ictx with
    | None => throw "TypeError: inputAudioCtxRef.current is null"
    | Some x =>
        log (capture_connect x (ch_stream ch) c) ;;
        modify (with_channels
          (update c (fun h => mkChannel (ch_stream h) (ch_promise h) true)))
    end).

(** [onaudioprocess], lines 150-157. *)
Definition onaudioprocess (c : nat) (inputData : list Q) : M unit :=
  muted <- gets (fun s => isMutedRef (refs s)) ;;
  if muted then ret tt
  else
    let pcmBlob := AudioService.createBlob inputData in
    promise_then c (SendMedia pcmBlob).

(** The test of line 166. *)
Definition names_prompt_tool (fc : FunctionCall) : bool :=
  match fc_name fc with
  | Some name => String.eqb name "displayTargetWord"
  | None => false
  end.

(** The body of the loop over the function calls, lines 166-179. *)
Definition on_function_call (c : nat) (fc : FunctionCall) : M unit :=
  if names_prompt_tool fc then
    match fc_args fc with
    | None => throw "TypeError: cannot destructure fc.args"
    | Some args =>
        setTargetWord (Some (mkTargetWord (word args) (language args))) ;;
        promise_then c (SendToolResponse (fc_id fc) (fc_name fc))
    end
  else ret tt.

Definition append_fragment (t : Transcription) (prev : string) : string :=
  prev ++ " " ++ to_text (text t).

(** [onmessage] from the transcriptions on, lines 199-211. *)
Definition onmessage_tail (m : LiveServerMessage) : M unit :=
  with_some (inputTranscription m) (fun t =>
    setUserTranscription (append_fragment t)) ;;
  with_some (outputTranscription m) (fun t =>
    setModelTranscription (append_fragment t)) ;;
  when (interrupted m) (
    sources <- gets (fun s => sourcesRef (refs s)) ;;
    for_each sources (fun src => log (source_stop src)) ;;
    set_sourcesRef (fun _ => []) ;;
    set_nextStartTimeRef (fun _ => 0%Q)).

(** [onmessage] up to its [await], lines 162-189.  [now] is the value of
    [ctx.currentTime] read on line 187. *)
Definition onmessage (c : nat) (m : LiveServerMessage) (now : Q) : M unit :=
  with_some (toolCall m) (fun calls => for_each calls (on_function_call c)) ;;
  octx <- gets (fun s => outputAudioCtxRef (refs s)) ;;
  match audioData m, octx with
  | Some (String _ _ as payload), Some ctx =>
      set_nextStartTimeRef (fun t => Qmax t now) ;;
      match AudioService.decode payload with
      | inl _ => throw "DecodeError"
      | inr bytes => suspend (AwaitDecode c ctx bytes m)
      end
  | _, _ => onmessage_tail m
  end.

(** [onmessage] after the [await] of line 189, lines 190-211. *)
Definition after_decode (ctx : nat) (bytes : list Z) (m : LiveServerMessage) : M unit :=
  match AudioService.decodeAudioData bytes 24000 1 with
  | inl _ => throw "FormatError"
  | inr buffer =>
      source <- alloc ;;
      start <- gets (fun s => nextStartTimeRef (refs s)) ;;
      log (source_start source ctx start (AudioService.duration buffer)) ;;
      set_nextStartTimeRef (fun t => (t + AudioService.duration buffer)%Q) ;;
      set_sourcesRef (set_add source) ;;
      onmessage_tail m
  end.

Definition entitlement_message : string :=
  "Sathi AI needs a specific key. Please select a Paid Project key from the dialog.".

(** [onerror], lines 213-228. *)
Definition onerror (e : JsError) : M unit :=
  log (console_error "Session error:") ;;
  let msg := or_else (message e) "Network error" in
  if (includes msg "Operation is not implemented"
      || includes msg "Requested entity was not found")%bool
  then
    setErrorMsg (Some entitlement_message) ;;
    log openSelectKey ;;
    suspend AwaitReselect
  else
    setErrorMsg (Some msg) ;;
    stopSession.

(** The callback of line 221. *)
Definition after_reselect (r : Settled unit) : M unit :=
  match r with
  | Fulfilled _ => stopSession
  | Rejected _ => ret tt
  end.

(** [onclose], lines 229-231. *)
Definition onclose : M unit := stopSession.

(** [source.onended], line 196. *)
Definition onended (source : nat) : M unit :=
  set_sourcesRef (set_delete source).

Arguments promise_then c cb : simpl never.
Arguments run_waiters c : simpl never.
Arguments stopSession : simpl never.
Arguments start_failed err : simpl never.
Arguments onmessage_tail m : simpl never.

(** ** Events *)

(** Everything that makes the component run: what the user does in the
    page, the settling of a promise a handler waits on, the callbacks of a
    channel, of its script processor and of a buffer source. *)
Inductive Event : Type :=
| Click_start (subject : Subject)
| Click_finish
| Click_mute
| Change_input (value : string)
| Submit_input
| Dismiss_error
| HasKey_settled (t : nat) (r : Settled bool)
| SelectKey_settled (t : nat) (r : Settled unit)
| UserMedia_settled (t : nat) (r : Settled unit)
| Session_settled (t : nat) (r : Settled unit)
| Decode_settled (t : nat)
| Channel_open (c : nat)
| Channel_message (c : nat) (m : LiveServerMessage) (now : Q)
| Channel_error (c : nat) (e : JsError)
| Channel_close (c : nat)
| Audio_process (c : nat) (frame : list Q)
| Source_ended (source : nat).

(** Task [t] is taken off the list and continued, when it is of the kind
    the event settles. *)
Definition resume (t : nat) (continue : Task -> option (M unit)) : M unit :=
  pending <- gets tasks ;;
  match lookup t pending with
  | Some k =>
      match continue k with
      | Some m => modify (with_tasks (remove t)) ;; m
      | None => ret tt
      end
  | None => ret tt
  end.

Definition known (c : nat) (s : Sys) : bool :=
  match lookup c (channels s) with Some _ => true | None => false end.

Definition capturing (c : nat) (s : Sys) : bool :=
  match lookup c (channels s) with Some ch => ch_capture ch | None => false end.

Arguments known c s : simpl never.
Arguments capturing c s : simpl never.

Definition dispatch (e : Event) : M unit :=
  match e with
  | Click_start subject => startSession subject
  | Click_finish => stopSession
  | Click_mute => toggleMute
  | Change_input v => setInputText v
  | Submit_input => handleSendMessage
  | Dismiss_error => setErrorMsg None
  | HasKey_settled t r =>
      resume t (fun k =>
        match k with AwaitHasKey subject => Some (after_hasKey subject r) | _ => None end)
  | SelectKey_settled t r =>
      resume t (fun k =>
        match k with
        | AwaitSelectKey subject => Some (after_selectKey subject r)
        | AwaitReselect => Some (after_reselect r)
        | _ => None
        end)
  | UserMedia_settled t r =>
      resume t (fun k =>
        match k with AwaitUserMedia subject => Some (after_userMedia subject r) | _ => None end)
  | Session_settled t r =>
      resume t (fun k =>
        match k with AwaitSession c => Some (after_session c r) | _ => None end)
  | Decode_settled t =>
      resume t (fun k =>
        match k with AwaitDecode _ ctx bytes m => Some (after_decode ctx bytes m) | _ => None end)
  | Channel_open c => onopen c
  | Channel_message c m now =>
      ok <- gets (known c) ;; when ok (onmessage c m now)
  | Channel_error c e =>
      ok <- gets (known c) ;; when ok (onerror e)
  | Channel_close c =>
      ok <- gets (known c) ;; when ok onclose
  | Audio_process c frame =>
      ok <- gets (capturing c) ;; when ok (onaudioprocess c frame)
  | Source_ended source => onended source
  end.

(** An exception that leaves a callback is lost to the component: only the
    state it had reached remains. *)
Definition step (e : Event) (s : Sys) : Sys := state_of (dispatch e s).

Definition run (es : list Event) (s : Sys) : Sys :=
  fold_left (fun acc e => step e acc) es s.

Definition newest_task (s : Sys) : nat :=
  match tasks s with (t, _) :: _ => t | [] => 0%nat end.

Definition newest_channel (s : Sys) : nat :=
  match channels s with (c, _) :: _ => c | [] => 0%nat end.

(** An inbound message handled to its end: [onmessage] and, when it
    suspended on the decoding, the rest of it. *)
Definition deliver (c : nat) (m : LiveServerMessage) (now : Q) (s : Sys) : Sys :=
  let s1 := step (Channel_message c m now) s in
  if Nat.eqb (fresh s1) (fresh s) then s1
  else step (Decode_settled (newest_task s1)) s1.

(** A message that only carries audio. *)
Definition audio_message (payload : string) : LiveServerMessage :=
  mkMessage None (Some payload) None None false.

(** The duration of the buffer a payload decodes to. *)
Definition payload_duration (payload : string) : option Q :=
  match AudioService.decode payload with
  | inr bytes =>
      match AudioService.decodeAudioData bytes 24000 1 with
      | inr buffer => Some (AudioService.duration buffer)
      | inl _ => None
      end
  | inl _ => None
  end.

(** ** The session lifecycle as the page drives it *)

(** How the collaborators answer during one start: the key check, the key
    dialog (asked only when no key is selected), the microphone and the
    channel. *)
Record StartOutcome : Type :=
  mkOutcome {
    key_check : Settled bool;
    key_dialog : Settled unit;
    microphone : Settled unit;
    connection : Settled unit }.

(** [startSession] up to the [await] of line 126: the click, the key
    check, and the key dialog when no key was selected. *)
Definition start_to_microphone
  (subject : Subject) (check : Settled bool) (dialog : Settled unit) (s : Sys) : Sys :=
  let s1 := step (Click_start subject) s in
  let s2 := step (HasKey_settled (newest_task s1) check) s1 in
  match check with
  | Fulfilled false => step (SelectKey_settled (newest_task s2) dialog) s2
  | _ => s2
  end.

(** [startSession] carried through all its [await]s with nothing else
    happening in between.  A channel that opens calls [onopen] and then
    fulfils the session promise. *)
Definition start_to_completion (subject : Subject) (o : StartOutcome) (s : Sys) : Sys :=
  let s3 := start_to_microphone subject (key_check o) (key_dialog o) s in
  let s4 := step (UserMedia_settled (newest_task s3) (microphone o)) s3 in
  match microphone o, connection o with
  | Rejected _, _ => s4
  | Fulfilled _, Fulfilled _ =>
      step (Session_settled (newest_task s4) (Fulfilled tt))
           (step (Channel_open (newest_channel s4)) s4)
  | Fulfilled _, Rejected err =>
      step (Session_settled (newest_task s4) (Rejected err)) s4
  end.

(** The subject buttons are rendered while [isActive] is false and enabled
    while [isConnecting] is false (lines 275 and 293). *)
Definition start_offered (s : Sys) : bool :=
  (negb (isActive (ui s)) && negb (isConnecting (ui s)))%bool.

(** The events that can reach the component between two starts. *)
Definition session_event (e : Event) : bool :=
  match e with
  | Click_start _ | HasKey_settled _ _ | UserMedia_settled _ _
  | Session_settled _ _ | Channel_open _ => false
  | _ => true
  end.

(** The states reached when each start runs to completion and is only
    issued while the page offers it. *)
Inductive lifecycle (faulty : list nat) : Sys -> Prop :=
| life_initial : lifecycle faulty (initial faulty)
| life_event e s :
    lifecycle faulty s -> session_event e = true -> lifecycle faulty (step e s)
| life_start subject o s :
    lifecycle faulty s -> start_offered s = true ->
    lifecycle faulty (start_to_completion subject o s).

Definition closes (c : nat) (call : Call) : bool :=
  match call with session_close c' => Nat.eqb c c' | _ => false end.

Definition stops_track (m : nat) (call : Call) : bool :=
  match call with track_stop m' => Nat.eqb m m' | _ => false end.

(** A channel is open when its session promise was fulfilled and
    [close()] has not been called on it. *)
Definition is_open (s : Sys) (c : nat) : bool :=
  match lookup c (channels s) with
  | Some ch =>
      match ch_promise ch with
      | Resolved => negb (existsb (closes c) (calls s))
      | _ => false
      end
  | None => false
  end.

(** A microphone stream is live when a channel was opened with it and its
    tracks have not been stopped. *)
Definition is_live (s : Sys) (m : nat) : bool :=
  (existsb (fun ch => Nat.eqb m (ch_stream (snd ch))) (channels s)
   && negb (existsb (stops_track m) (calls s)))%bool.

Definition starts_source (call : Call) : bool :=
  match call with source_start _ _ _ _ => true | _ => false end.

Definition is_tool_response (call : Call) : bool :=
  match call with sendToolResponse _ _ _ _ => true | _ => false end.

Definition is_media (call : Call) : bool :=
  match call with sendRealtimeInput_media _ _ => true | _ => false end.

(** The session promise of channel [c] has been fulfilled. *)
Definition ready (s : Sys) (c : nat) : bool :=
  match lookup c (channels s) with
  | Some ch => match ch_promise ch with Resolved => true | _ => false end
  | None => false
  end.

(** The acknowledgment of one function call, lines 171-177. *)
Definition acknowledgment (c : nat) (fc : FunctionCall) : Call :=
  sendToolResponse c (fc_id fc) (fc_name fc) "Word displayed successfully.".


(** The component holds nothing of a session. *)
Definition is_idle (s : Sys) : bool :=
  (negb (isActive (ui s)) && negb (isConnecting (ui s))
   && match sessionRef (refs s), inputAudioCtxRef (refs s),
            outputAudioCtxRef (refs s), micStreamRef (refs s) with
      | None, None, None, None => true
      | _, _, _, _ => false
      end)%bool.

(** The state after one more frame has been handed to the channel. *)
Definition sent (c : nat) (frame : list Q) (s : Sys) : Sys :=
  with_calls (cons (sendRealtimeInput_media c (AudioService.createBlob frame))) s.

(** The state with another practice word on display. *)
Definition shows (w : option TargetWord) (s : Sys) : Sys :=
  state_of (setTargetWord w s).

(** The object line 168 builds from the arguments of a call. *)
Definition prompt_of (fc : FunctionCall) : option TargetWord :=
  match fc_args fc with
  | Some args => Some (mkTargetWord (word args) (language args))
  | None => None
  end.

(** The prompt a list of calls leaves: that of the last one naming the
    tool. *)
Fixpoint last_prompt (fcs : list FunctionCall) (before : option TargetWord)
  : option TargetWord :=
  match fcs with
  | [] => before
  | fc :: rest =>
      last_prompt rest (if names_prompt_tool fc then prompt_of fc else before)
  end.

Definition carries_args (fc : FunctionCall) : bool :=
  match fc_args fc with Some _ => true | None => false end.

(** The test of line 218 on the message line 215 computes. *)
Definition entitlement_class (e : JsError) : bool :=
  let msg := or_else (message e) "Network error" in
  (includes msg "Operation is not implemented"
   || includes msg "Requested entity was not found")%bool.

Definition start_time_of (call : Call) : list Q :=
  match call with source_start _ _ t _ => [t] | _ => [] end.

(** The start times handed to [source.start], oldest first. *)
Definition start_times (s : Sys) : list Q :=
  rev (flat_map start_time_of (calls s)).

(** Two states with the same refs, the same suspended tasks and the same
    buffer sources started. *)
Definition same_playback (s s' : Sys) : Prop :=
  refs s' = refs s /\ tasks s' = tasks s /\ start_times s' = start_times s.

(** The calls [handleApiKeySelection] makes, most recent first. *)
Definition key_selection_calls (check : Settled bool) (dialog : Settled unit)
  : list Call :=
  match check, dialog with
  | Fulfilled true, _ => [hasSelectedApiKey]
  | Fulfilled false, Fulfilled _ => [openSelectKey; hasSelectedApiKey]
  | Fulfilled false, Rejected _ =>
      [console_error "API Key selection failed"; openSelectKey; hasSelectedApiKey]
  | Rejected _, _ => [console_error "API Key selection failed"; hasSelectedApiKey]
  end.

(** A task that belongs to a start still under way. *)
Definition pending_start (k : Task) : bool :=
  match k with
  | AwaitDecode _ _ _ _ | AwaitReselect => false
  | _ => true
  end.

Definition no_start_pending (s : Sys) : bool :=
  forallb (fun t => negb (pending_start (snd t))) (tasks s).

(** What holds between two starts: no start is under way, an inactive
    component holds neither session nor microphone, and whatever channel is
    open or stream is live is the one the component holds. *)
Record settled (s : Sys) : Prop :=
  mkSettled {
    settled_tasks : no_start_pending s = true;
    settled_idle :
      isActive (ui s) = false ->
      sessionRef (refs s) = None /\ micStreamRef (refs s) = None;
    settled_open : forall c, is_open s c = true -> sessionRef (refs s) = Some c;
    settled_live : forall m, is_live s m = true -> micStreamRef (refs s) = Some m }.

(** The log [l] is the log [r] with more calls made since. *)
Definition suffix (r l : list Call) : Prop := exists added, l = (added ++ r)%list.

(** [s'] is [s] after a handler that leaves the session, the microphone and
    the channels alone: it may only add calls and tasks that are not part of
    a start. *)
Record quiet (s s' : Sys) : Prop :=
  mkQuiet {
    quiet_channels : channels s' = channels s;
    quiet_session : sessionRef (refs s') = sessionRef (refs s);
    quiet_mic : micStreamRef (refs s') = micStreamRef (refs s);
    quiet_active : isActive (ui s') = isActive (ui s);
    quiet_calls : suffix (calls s) (calls s');
    quiet_tasks :
      forall t, In t (tasks s') -> In t (tasks s) \/ pending_start (snd t) = false }.

(** What one event between two starts does: a quiet handler, possibly
    followed by [stopSession]. *)
Definition quiet_then_maybe_stop (s s' : Sys) : Prop :=
  exists s0, quiet s s0 /\ (s' = s0 \/ s' = state_of (stopSession s0)).

(** How a start that runs to completion ends: the microphone is refused,
    the channel opens, or the channel is refused. *)
Inductive StartEffect (s s' : Sys) : Prop :=
| microphone_refused s0 :
    quiet s s0 -> s' = state_of (stopSession s0) -> StartEffect s s'
| channel_opened s0 c m :
    channels s0 = (c, mkChannel m Resolved true) :: channels s ->
    suffix (calls s) (calls s0) ->
    tasks s0 = tasks s ->
    sessionRef (refs s0) = Some c -> micStreamRef (refs s0) = Some m ->
    isActive (ui s0) = true ->
    quiet s0 s' -> StartEffect s s'
| channel_refused s0 c m :
    channels s0 = (c, mkChannel m Failed false) :: channels s ->
    suffix (calls s) (calls s0) ->
    tasks s0 = tasks s ->
    sessionRef (refs s0) = sessionRef (refs s) -> micStreamRef (refs s0) = Some m ->
    s' = state_of (stopSession s0) -> StartEffect s s'.

(** Every installed script processor belongs to a channel whose session
    promise is fulfilled. *)
Definition wired (s : Sys) : bool :=
  forallb (fun p => implb (ch_capture (snd p))
                      match ch_promise (snd p) with Resolved => true | _ => false end)
          (channels s).

(** ** Buffer sources in flight *)

Definition starts (src : nat) (call : Call) : bool :=
  match call with source_start src' _ _ _ => Nat.eqb src src' | _ => false end.

Definition stops (src : nat) (call : Call) : bool :=
  match call with source_stop src' => Nat.eqb src src' | _ => false end.

(** A buffer source is scheduled from its [start] until [stop] is called on
    it. *)
Definition scheduled (s : Sys) (src : nat) : bool :=
  (existsb (starts src) (calls s) && negb (existsb (stops src) (calls s)))%bool.

(** The [onended] callback of the source has been delivered. *)
Definition ended_in (es : list Event) (src : nat) : bool :=
  existsb (fun e => match e with Source_ended x => Nat.eqb src x | _ => false end) es.

(** The calls [l] are [r] and later calls that start no buffer source. *)
Inductive calm (r : list Call) : list Call -> Prop :=
| calm_refl : calm r r
| calm_cons x l : starts_source x = false -> calm r l -> calm r (x :: l).

(** A handler that leaves [sourcesRef] alone and starts no buffer source. *)
Record plain (s s' : Sys) : Prop :=
  mkPlain {
    plain_sources : sourcesRef (refs s') = sourcesRef (refs s);
    plain_calls : calm (calls s) (calls s') }.

(** Whatever is scheduled after the handler is in [sourcesRef], or was
    scheduled before and has not left [sourcesRef]. *)
Definition keeps_sources (s s' : Sys) : Prop :=
  forall src,
    scheduled s' src = true ->
    In src (sourcesRef (refs s')) \/
    (scheduled s src = true /\
     (In src (sourcesRef (refs s)) -> In src (sourcesRef (refs s')))).

(** The audio a message carries, if any, decodes to a buffer. *)
Definition playable (m : LiveServerMessage) : bool :=
  match audioData m with
  | Some (String _ _ as payload) =>
      match payload_duration payload with Some _ => true | None => false end
  | _ => true
  end.

(** ** A lesson used in the examples *)

Definition granted : StartOutcome :=
  mkOutcome (Fulfilled true) (Fulfilled tt) (Fulfilled tt) (Fulfilled tt).

(** The state once a first lesson is running: channel 5 is open on
    microphone stream 4, with contexts 1 (input) and 2 (output). *)
Definition lesson : Sys := start_to_completion Maths granted (initial []).

(** Six samples of audio as the service sends them. *)
Definition chirp : string :=
  AudioService.data (AudioService.createBlob [1 # 2; -1 # 4; 1; -1; 0; 3 # 100000]%Q).

Definition is_key_dialog (call : Call) : bool :=
  match call with openSelectKey => true | _ => false end.

(** ** Frames of the handlers *)

(** The flag the page shows and the flag the capture callback reads say the
    same. *)
Definition agreement (s : Sys) : Prop := isMutedRef (refs s) = isMuted (ui s).

(** Nothing was scheduled, and nothing will be, before the origin of the
    output clock. *)
Definition temporal (s : Sys) : Prop :=
  (0 <= nextStartTimeRef (refs s))%Q /\
  Forall (fun t => (0 <= t)%Q) (start_times s).

Definition is_source_call (call : Call) : bool :=
  match call with
  | source_start _ _ _ _ | source_stop _ => true
  | _ => false
  end.

(** The calls [l] are [r] and later calls, none of them on a buffer
    source. *)
Inductive mild (r : list Call) : list Call -> Prop :=
| mild_refl : mild r r
| mild_cons x l : is_source_call x = false -> mild r l -> mild r (x :: l).

(** A handler that leaves the selected subject, the mute flags, both
    transcripts, the playback cursor and [sourcesRef] alone, does not raise
    [isConnecting] and makes no call on a buffer source. *)
Record steady (s s' : Sys) : Prop :=
  mkSteady {
    steady_subject : selectedSubject (ui s') = selectedSubject (ui s);
    steady_connecting :
      isConnecting (ui s') = isConnecting (ui s) \/ isConnecting (ui s') = false;
    steady_muted : isMuted (ui s') = isMuted (ui s);
    steady_mutedRef : isMutedRef (refs s') = isMutedRef (refs s);
    steady_user : userTranscription (ui s') = userTranscription (ui s);
    steady_model : modelTranscription (ui s') = modelTranscription (ui s);
    steady_cursor : nextStartTimeRef (refs s') = nextStartTimeRef (refs s);
    steady_sources : sourcesRef (refs s') = sourcesRef (refs s);
    steady_calls : mild (calls s) (calls s');
    steady_fresh : (fresh s <= fresh s')%nat }.

(** What one event outside the audio path does: steady handlers, possibly
    followed by [stopSession]. *)
Definition steady_then_maybe_stop (s s' : Sys) : Prop :=
  exists s0, steady s s0 /\ (s' = s0 \/ s' = state_of (stopSession s0)).

(** What the handling of an inbound message may do to the page: the
    selected subject and the mute flags stay, the transcripts only grow, the
    schedule stays after the clock origin. *)
Record streams (s s' : Sys) : Prop :=
  mkStreams {
    streams_subject : selectedSubject (ui s') = selectedSubject (ui s);
    streams_connecting :
      isConnecting (ui s') = isConnecting (ui s) \/ isConnecting (ui s') = false;
    streams_muted : isMuted (ui s') = isMuted (ui s);
    streams_mutedRef : isMutedRef (refs s') = isMutedRef (refs s);
    streams_user :
      exists added, userTranscription (ui s') = userTranscription (ui s) ++ added;
    streams_model :
      exists added, modelTranscription (ui s') = modelTranscription (ui s) ++ added;
    streams_schedule : temporal s -> temporal s' }.

(** The events that handle audio: an inbound message, the end of its
    decoding, and the end of a buffer source. *)
Definition audio_event (e : Event) : bool :=
  match e with
  | Channel_message _ _ _ | Decode_settled _ | Source_ended _ => true
  | _ => false
  end.

(** The events whose handlers are steady up to a final [stopSession]. *)
Definition control_event (e : Event) : bool :=
  match e with
  | Click_start _ | Click_mute | Submit_input
  | Channel_message _ _ _ | Decode_settled _ | Source_ended _ => false
  | _ => true
  end.

Definition is_start (e : Event) : bool :=
  match e with Click_start _ => true | _ => false end.

(** Every [stop()] in the log, most recent first, is on a buffer source
    that had been started and had not been stopped: [rest] is what was
    called before. *)
Fixpoint well_stopped (l : list Call) : bool :=
  match l with
  | [] => true
  | source_stop src :: rest =>
      (existsb (starts src) rest && negb (existsb (stops src) rest)
       && well_stopped rest)%bool
  | _ :: rest => well_stopped rest
  end.

(** Every buffer source named in the log was created before now. *)
Definition sources_known (s : Sys) : Prop :=
  forall src,
    existsb (starts src) (calls s) = true \/ existsb (stops src) (calls s) = true ->
    (src < fresh s)%nat.

(** What holds of [sourcesRef] and of the calls on buffer sources over
    every trace. *)
Record tidy (s : Sys) : Prop :=
  mkTidy {
    tidy_nodup : NoDup (sourcesRef (refs s));
    tidy_members : forall src, In src (sourcesRef (refs s)) -> scheduled s src = true;
    tidy_known : sources_known s;
    tidy_stops : well_stopped (calls s) = true }.

(** ** What is released and what is sent *)

Definition held {A} (o : option A) (f : A -> Call) : list Call :=
  match o with Some a => [f a] | None => [] end.

(** The calls [stopSession] makes for what the refs hold, most recent
    first: lines 56, 67, 68 and 69-71. *)
Definition release_calls (r : Refs) : list Call :=
  (held (micStreamRef r) track_stop ++
   held (outputAudioCtxRef r) context_close ++
   held (inputAudioCtxRef r) context_close ++
   held (sessionRef r) session_close)%list.

(** The call a callback registered on the session promise makes when it
    runs: lines 155 and 171-177. *)
Definition callback_call (c : nat) (cb : ThenCallback) : Call :=
  match cb with
  | SendMedia blob => sendRealtimeInput_media c blob
  | SendToolResponse id name =>
      sendToolResponse c id name "Word displayed successfully."
  end.

(** An active component holds a session and a microphone stream. *)
Definition engaged (s : Sys) : Prop :=
  isActive (ui s) = true ->
  (exists c, sessionRef (refs s) = Some c) /\ (exists m, micStreamRef (refs s) = Some m).

(** The session the component holds was opened for the subject the page
    has selected. *)
Definition titled (s : Sys) : Prop :=
  forall c, sessionRef (refs s) = Some c ->
  exists subject,
    selectedSubject (ui s) = Some subject /\ In (live_connect c subject) (calls s).

(** ** The page *)

(** What [App] renders, lines 249-434: the subject picker with its error
    banner while [isActive] is false, the lesson view otherwise. *)
Inductive Screen : Type :=
| Picker (banner : option string) (enabled : bool) (spinner : option Subject)
| LessonView (heading : option Subject) (card : option TargetWord)
    (tutor student typed micLabel : string).

(** [{errorMsg && ...}], line 277: neither [null] nor the empty string
    renders the banner. *)
Definition truthy (o : option string) : option string :=
  match o with
  | Some EmptyString | None => None
  | Some s => Some s
  end.

Definition render (st : State) : Screen :=
  if isActive st then
    LessonView (selectedSubject st) (targetWord st)
      (or_else (Some (modelTranscription st)) "Wait a second, I'm thinking... 😊")
      (if isMuted st then "Mic is OFF. Type your question below!"
       else or_else (Some (userTranscription st))
              "I'm listening to you! Speak clearly or type below... 👂")
      (inputText st)
      (if isMuted st then "MIC OFF - Tap to Speak" else "MIC ON - Speaking...")
  else
    Picker (truthy (errorMsg st)) (negb (isConnecting st))
      (if isConnecting st then selectedSubject st else None).

(** The Finish Lesson button of the header, line 262. *)
Definition finish_offered (st : State) : bool := isActive st.

(** The lesson view right after a start: no practice word, both
    placeholders, the microphone on. *)
Definition fresh_lesson (subject : Subject) (typed : string) : Screen :=
  LessonView (Some subject) None "Wait a second, I'm thinking... 😊"
    "I'm listening to you! Speak clearly or type below... 👂" typed
    "MIC ON - Speaking...".

(** The lesson of the examples stopped and another one started: the first
    channel, 5, is closed and channel 12 is held. *)
Definition second_lesson : Sys :=
  start_to_completion English granted (step Click_finish lesson).

(** ** [constants.ts] and the tool declaration *)

Module Constants.

(** The string each member of [Subject] stands for, [types.ts].  Strings
    are held as their UTF-8 bytes. *)
Definition value (subject : Subject) : string :=
  match subject with
  | Nepali => "Nepali (मेरो नेपाली)"
  | English => "English"
  | Maths => "Maths (गणित)"
  | Science => "Science (विज्ञान)"
  | Computer => "Computer Science"
  | Social => "Social Studies (सामाजिक अध्ययन)"
  | Pronunciation => "Pronunciation Challenge (उच्चारण अभ्यास)"
  | Health => "Health (स्वास्थ्य अध्ययन)"
  end.

(** An entry of [SUBJECT_METADATA]. *)
Record SubjectCard : Type :=
  mkCard { id : Subject; color : string; icon : string; description : string }.

Definition SUBJECT_METADATA : list SubjectCard :=
  [mkCard Pronunciation "bg-pink-400" "🗣️" "Practice tricky words";
   mkCard Nepali "bg-red-400" "📖" "Learn stories & poems";
   mkCard English "bg-blue-400" "🔤" "Practice speaking English";
   mkCard Maths "bg-green-400" "🔢" "Numbers and Shapes";
   mkCard Science "bg-yellow-400" "🌱" "Plants and Animals";
   mkCard Health "bg-teal-400" "🍎" "Healthy habits & food";
   mkCard Computer "bg-purple-400" "💻" "Parts of Computer";
   mkCard Social "bg-orange-400" "🗺️" "Our community"].

Definition quote : string := String (ascii_of_nat 34) EmptyString.

(** [SYSTEM_INSTRUCTIONS], with the double quotes of the template spliced
    in. *)
Definition SYSTEM_INSTRUCTIONS (subject : Subject) : string :=
  String.concat ""
    ["
You are ";
     quote;
     "Sathi AI,";
     quote;
     " a kind, multimodal tutor for Grade 3 students in Nepal. 
You act like a ";
     quote;
     "big brother/sister";
     quote;
     " (Daju/Didy).
Student Age: 8-9 years old.
Current Subject: ";
     value subject;
     ".

Interaction Protocol:
1. Bilingual: Always speak a concept in Nepali first, then repeat it in simple English.
2. Pronunciation Aid: When teaching a new word, say it slowly, then say: ";
     quote;
     "Now you try! Say [Word].";
     quote;
     " 
3. Listen & Correct: Listen to the student. If they mispronounce, gently correct them: ";
     quote;
     "Close! Try saying it like this: [Correct Pronunciation].";
     quote;
     "
4. Interactive Flow: Speak for max 30 seconds, then ask a simple verbal question.
5. Tone: Enthusiastic and slow! Use ";
     quote;
     "Syabash!";
     quote;
     " (शाबास!) for correct answers.
6. Language Switch: If the student sounds confused in English, switch immediately to Nepali.

Word Display Tool:
- When you want the student to practice a specific word, use the 'displayTargetWord' tool. 
- This will show the word clearly on their screen.
- Only use this tool for the MAIN word you want them to repeat right now.

Subject Specific Guidance:
- Pronunciation Challenge: This is a dedicated drill mode. Pick interesting words from Grade 3 textbooks (English and Nepali). Present one word at a time, use the tool, and give feedback.
- Health: Focus on personal hygiene (washing hands, brushing teeth), healthy eating (fruits, dal-bhat), and staying active in the village.
- Nepali: Focus on Grade 3 stories, simple grammar, and poems.
- English: Focus on Daily Life, School, Environment.
- Maths: Numbers to 9999, shapes, local currency (Rupees).
- Science: Living/non-living, plants, animals of Nepal.
- Computer: Keyboard, Mouse, Monitor.
- Social: Community, traditions, local district.
"].

(** [displayTargetWordDeclaration], lines 8-25 of [app.tsx]: the name of
    the tool, the names of its parameters and the required ones. *)
Record FunctionDeclaration : Type :=
  mkDeclaration { name : string; properties : list string; required : list string }.

Definition displayTargetWordDeclaration : FunctionDeclaration :=
  mkDeclaration "displayTargetWord" ["word"; "language"] ["word"; "language"].

(** What [ai.live.connect] is called with, lines 129-142: the model, the
    system instruction, the declared tools and the voice. *)
Record ConnectConfig : Type :=
  mkConfig {
    model : string;
    systemInstruction : string;
    tools : list FunctionDeclaration;
    voiceName : string }.

Definition connect_config (subject : Subject) : ConnectConfig :=
  mkConfig "gemini-2.5-flash-native-audio-preview-12-2025"
    (SYSTEM_INSTRUCTIONS subject) [displayTargetWordDeclaration] "Kore".

(** [selectedSubject === sub.id], line 301: subjects are compared as the
    strings they are. *)
Definition same_subject (a b : Subject) : bool := String.eqb (value a) (value b).

End Constants.

(** * Properties of the codec *)

Module CodecProofs.
Import AudioService.
Local Open Scope Z_scope.

Example btoa_rfc4648 :
  btoa [102; 111; 111] = "Zm9v"%string /\ btoa [102; 111] = "Zm8="%string /\
  btoa [102] = "Zg=="%string /\ btoa [] = ""%string /\
  btoa [251; 255; 0] = "+/8A"%string.
Proof. repeat split. Qed.

Example atob_rejects :
  atob "Zm8="%string = Some [102; 111] /\ atob "Zm8"%string = None /\
  atob "Zg==Zm9v"%string = None /\ atob "Zm9=v"%string = None /\
  atob "Zh=="%string = None /\ atob "Zm9v Zm9v"%string = None.
Proof. repeat split. Qed.

Example sample_to_int16_range :
  sample_to_int16 1 = 32767 /\ sample_to_int16 (-1) = -32768 /\
  sample_to_int16 (1 # 2) = 16384 /\ sample_to_int16 (-3 # 100000) = 0 /\
  int16_bytes (-2) = [254; 255] /\ int16_of_bytes 254 255 = -2.
Proof. repeat split. Qed.

Lemma sextet_round_trip (n : Z) :
  0 <= n < 64 ->
  char_sextet (sextet_char n) = Some n /\ Ascii.eqb (sextet_char n) pad = false.
Proof.
  intros Hn.
  assert (E : exists k, n = Z.of_nat k /\ (k < 64)%nat).
  { exists (Z.to_nat n). lia. }
  destruct E as [k [-> Hk]].
  do 64 (destruct k as [|k]; [split; reflexivity|]).
  lia.
Qed.

Lemma truncate_bounds (q : Q) :
  (q - 1 < inject_Z (truncate q))%Q /\ (inject_Z (truncate q) < q + 1)%Q.
Proof.
  destruct q as [n d]. unfold truncate, Qlt, Qminus, Qplus, Qopp, inject_Z. simpl.
  pose proof (Z.quot_rem' n (Zpos d)) as E.
  pose proof (Z.rem_bound_abs n (Zpos d) ltac:(lia)) as B.
  nia.
Qed.

Lemma quad_full (a b c : Z) (last : bool) :
  byte_ok a -> byte_ok b -> byte_ok c ->
  quad (sextet_char (a / 4)) (sextet_char (a mod 4 * 16 + b / 16))
       (sextet_char (b mod 16 * 4 + c / 64)) (sextet_char (c mod 64)) last
  = Some [a; b; c].
Proof.
  unfold byte_ok, quad. intros Ha Hb Hc.
  destruct (sextet_round_trip (a / 4)) as [-> _]; [lia|].
  destruct (sextet_round_trip (a mod 4 * 16 + b / 16)) as [-> _]; [lia|].
  destruct (sextet_round_trip (b mod 16 * 4 + c / 64)) as [-> ->]; [lia|].
  destruct (sextet_round_trip (c mod 64)) as [-> ->]; [lia|].
  f_equal. f_equal; [lia|]. f_equal; [lia|]. f_equal. lia.
Qed.

Lemma quad_two (a b : Z) :
  byte_ok a -> byte_ok b ->
  quad (sextet_char (a / 4)) (sextet_char (a mod 4 * 16 + b / 16))
       (sextet_char (b mod 16 * 4)) pad true
  = Some [a; b].
Proof.
  unfold byte_ok, quad. intros Ha Hb.
  destruct (sextet_round_trip (a / 4)) as [-> _]; [lia|].
  destruct (sextet_round_trip (a mod 4 * 16 + b / 16)) as [-> _]; [lia|].
  destruct (sextet_round_trip (b mod 16 * 4)) as [-> ->]; [lia|].
  replace (Ascii.eqb pad pad) with true by reflexivity.
  replace (b mod 16 * 4 mod 4 =? 0) with true by (symmetry; apply Z.eqb_eq; lia).
  simpl. f_equal. f_equal; [lia|]. f_equal. lia.
Qed.

Lemma quad_one (a : Z) :
  byte_ok a ->
  quad (sextet_char (a / 4)) (sextet_char (a mod 4 * 16)) pad pad true = Some [a].
Proof.
  unfold byte_ok, quad. intros Ha.
  destruct (sextet_round_trip (a / 4)) as [-> _]; [lia|].
  destruct (sextet_round_trip (a mod 4 * 16)) as [-> _]; [lia|].
  replace (Ascii.eqb pad pad) with true by reflexivity.
  replace (a mod 4 * 16 mod 16 =? 0) with true by (symmetry; apply Z.eqb_eq; lia).
  simpl. f_equal. f_equal. lia.
Qed.

Lemma atob_btoa_bounded (n : nat) :
  forall bs, (List.length bs < n)%nat -> Forall byte_ok bs -> atob (btoa bs) = Some bs.
Proof.
  induction n as [|n IH]; intros bs Hlen Hok; [lia|].
  destruct bs as [|a [|b [|c rest]]].
  - reflexivity.
  - inversion Hok; subst. cbn [btoa atob is_empty]. now rewrite quad_one.
  - inversion Hok as [|? ? ? Hb]; inversion Hb; subst.
    cbn [btoa atob is_empty]. now rewrite quad_two.
  - inversion Hok as [|? ? ? Hb]; inversion Hb as [|? ? ? Hc]; inversion Hc; subst.
    cbn [btoa atob]. rewrite quad_full by assumption.
    rewrite IH; [reflexivity| simpl in Hlen; lia | assumption].
Qed.

Lemma atob_btoa (bs : list Z) : Forall byte_ok bs -> atob (btoa bs) = Some bs.
Proof. apply (atob_btoa_bounded (S (List.length bs))). lia. Qed.

Lemma int16_bytes_ok (v : Z) : Forall byte_ok (int16_bytes v).
Proof. unfold int16_bytes, byte_ok. repeat constructor; lia. Qed.

Lemma pack_ok (vs : list Z) : Forall byte_ok (pack vs).
Proof.
  induction vs as [|v vs IH]; cbn [pack int16_bytes app]; [constructor|].
  constructor; [unfold byte_ok; lia|].
  constructor; [unfold byte_ok; lia|assumption].
Qed.

Lemma int16_of_bytes_inverse (v : Z) :
  int16_ok v ->
  int16_of_bytes ((v mod 65536) mod 256) ((v mod 65536) / 256) = v.
Proof.
  unfold int16_ok, int16_of_bytes. intros Hv. cbv zeta.
  destruct (Z.ltb_spec ((v mod 65536) mod 256 + 256 * ((v mod 65536) / 256)) 32768); lia.
Qed.

Lemma unpack_pack (vs : list Z) : Forall int16_ok vs -> unpack (pack vs) = Some vs.
Proof.
  induction 1 as [|v vs Hv _ IH]; [reflexivity|].
  cbn [pack int16_bytes app unpack]. rewrite IH.
  now rewrite int16_of_bytes_inverse.
Qed.

Lemma clamp16_ok (v : Z) : int16_ok (clamp16 v).
Proof. unfold int16_ok, clamp16. lia. Qed.

Lemma clamp16_cases (t : Z) :
  clamp16 t = t \/ (clamp16 t = 32767 /\ 32767 < t) \/ (clamp16 t = -32768 /\ t < -32768).
Proof. unfold clamp16. lia. Qed.

(** The bound does not depend on how the scaled sample is rounded, as
    long as the integer is less than one away from it. *)
Section AnyRounding.

Variable round : Q -> Z.
Hypothesis round_near :
  forall q, (q - 1 < inject_Z (round q))%Q /\ (inject_Z (round q) < q + 1)%Q.

Lemma rounded_round_trip (x : Q) :
  (-1 <= x)%Q -> (x <= 1)%Q ->
  (Qabs (int16_to_sample (clamp16 (round (x * inject_Z scale))) - x) <= 1 # 32768)%Q.
Proof.
  intros Hlo Hhi.
  unfold int16_to_sample, scale.
  change (inject_Z 32768) with 32768%Q.
  destruct (round_near (x * 32768)) as [T1 T2].
  set (t := round (x * 32768)) in *.
  assert (B : (x * 32768 - 1 <= inject_Z (clamp16 t) <= x * 32768 + 1)%Q).
  { destruct (clamp16_cases t) as [-> | [[-> H] | [-> H]]].
    - lra.
    - rewrite Zlt_Qlt in H. change (inject_Z 32767) with 32767%Q in *. lra.
    - rewrite Zlt_Qlt in H. change (inject_Z (-32768)) with (-32768)%Q in *. lra. }
  set (v := inject_Z (clamp16 t)) in *.
  apply Qabs_Qle_condition.
  setoid_replace (v / 32768 - x)%Q with ((v - x * 32768) / 32768)%Q by field.
  split.
  - apply Qle_shift_div_l; [reflexivity|]. lra.
  - apply Qle_shift_div_r; [reflexivity|]. lra.
Qed.

End AnyRounding.

Lemma sample_round_trip (x : Q) :
  (-1 <= x)%Q -> (x <= 1)%Q ->
  (Qabs (int16_to_sample (sample_to_int16 x) - x) <= 1 # 32768)%Q.
Proof. exact (rounded_round_trip truncate truncate_bounds x). Qed.

(** C8.  For every frame whose samples lie in [[-1, 1]], encoding with
    [createBlob], unwrapping with [decode] and rebuilding with
    [decodeAudioData] succeeds, keeps the number of samples, and gives back
    each sample within [1/32768] of the original. *)
Theorem round_trip (frame : list Q) (rate ch : Z) (i : nat) (x : Q) :
  Forall (fun a => (-1 <= a)%Q /\ (a <= 1)%Q) frame ->
  nth_error frame i = Some x ->
  exists bytes buffer y,
    decode (data (createBlob frame)) = inr bytes /\
    decodeAudioData bytes rate ch = inr buffer /\
    List.length (samples buffer) = List.length frame /\
    nth_error (samples buffer) i = Some y /\
    (Qabs (y - x) <= 1 # 32768)%Q.
Proof.
  intros Hrange Hx.
  set (vs := map sample_to_int16 frame).
  assert (Hvs : Forall int16_ok vs).
  { apply Forall_forall. intros v Hv. apply in_map_iff in Hv.
    destruct Hv as [a [<- _]]. apply clamp16_ok. }
  exists (pack vs), (mkBuffer (map int16_to_sample vs) rate ch),
    (int16_to_sample (sample_to_int16 x)).
  split; [|split; [|split; [|split]]].
  - unfold decode, createBlob. cbn [data]. fold vs. now rewrite atob_btoa by apply pack_ok.
  - unfold decodeAudioData. rewrite unpack_pack by assumption.
    destruct frame as [|a frame]; [destruct i; discriminate|reflexivity].
  - cbn [samples]. unfold vs. now rewrite !length_map.
  - cbn [samples]. unfold vs. rewrite map_map.
    now rewrite nth_error_map, Hx.
  - rewrite Forall_forall in Hrange.
    destruct (Hrange x (nth_error_In _ _ Hx)). now apply sample_round_trip.
Qed.

Lemma round_trip_witness :
  exists bytes buffer y,
    decode (data (createBlob [1 # 2; -1; 3 # 100000]%Q)) = inr bytes /\
    decodeAudioData bytes 24000 1 = inr buffer /\
    List.length (samples buffer) = 3%nat /\
    nth_error (samples buffer) 2 = Some y /\
    (Qabs (y - (3 # 100000)) <= 1 # 32768)%Q.
Proof.
  apply (round_trip [1 # 2; -1; 3 # 100000]%Q 24000 1 2 (3 # 100000)%Q).
  - repeat constructor; unfold Qle; cbn; lia.
  - reflexivity.
Defined.

End CodecProofs.

(** * Properties of the session engine *)

Example helpers_on_text :
  trim "  two words  " = "two words" /\ trim "   " = "" /\
  includes "Requested entity was not found." "Requested entity was not found" = true /\
  includes "not implemented" "Operation is not implemented" = false /\
  or_else (Some "") "Network error" = "Network error" /\
  or_else None "Network error" = "Network error" /\
  or_else (Some "boom") "Network error" = "boom".
Proof. repeat split. Qed.

Example first_lesson :
  isActive (ui lesson) = true /\ isConnecting (ui lesson) = false /\
  sessionRef (refs lesson) = Some 5%nat /\ micStreamRef (refs lesson) = Some 4%nat /\
  inputAudioCtxRef (refs lesson) = Some 1%nat /\
  outputAudioCtxRef (refs lesson) = Some 2%nat /\
  calls lesson =
    [capture_connect 1 4 5; live_connect 5 Maths; getUserMedia;
     new_AudioContext 2 24000; new_AudioContext 1 16000; hasSelectedApiKey] /\
  tasks lesson = [] /\ chirp = "AEAA4P9/AIAAAAAA".
Proof. repeat split. Qed.

(** ** Stopping *)

Ltac open_sys s :=
  destruct s as [[subj act utr mtr conn mu tw em inp]
                 [ictx octx sess srcs nst mic mref] cs ts ws chs fr faulty].

Ltac stop_cases s :=
  let ictx := fresh "ictx" in let octx := fresh "octx" in
  let sess := fresh "sess" in let mic := fresh "mic" in
  let faulty := fresh "faulty" in let c := fresh "c" in
  destruct s as [[? ? ? ? ? ? ? ? ?] [ictx octx sess ? ? mic ?] ? ? ? ? ? faulty];
  unfold stopSession, close_session; cbn;
  destruct sess as [c|]; [destruct (mem c faulty) eqn:?|];
  destruct ictx, octx, mic; cbn;
  repeat match goal with
         | H : mem _ _ = _ |- _ => rewrite H; clear H; cbn
         end.

Lemma stop_returns (s : Sys) : stopSession s = Ret tt (state_of (stopSession s)).
Proof. stop_cases s; reflexivity. Qed.

Lemma stop_is_idle (s : Sys) : is_idle (state_of (stopSession s)) = true.
Proof. stop_cases s; reflexivity. Qed.

Lemma stop_frame (s : Sys) :
  let s1 := state_of (stopSession s) in
  tasks s1 = tasks s /\ waiters s1 = waiters s /\ channels s1 = channels s /\
  fresh s1 = fresh s /\ closeThrows s1 = closeThrows s /\
  errorMsg (ui s1) = errorMsg (ui s) /\
  selectedSubject (ui s1) = selectedSubject (ui s) /\
  sourcesRef (refs s1) = sourcesRef (refs s) /\
  nextStartTimeRef (refs s1) = nextStartTimeRef (refs s).
Proof. stop_cases s; repeat split. Qed.

Lemma stop_closes (s : Sys) (c : nat) :
  sessionRef (refs s) = Some c ->
  existsb (closes c) (calls (state_of (stopSession s))) = true.
Proof.
  intros H. stop_cases s; cbn in H; inversion H; subst;
    rewrite Nat.eqb_refl; cbn; rewrite ?orb_true_r; reflexivity.
Qed.

(** C4.  From any state [stopSession] returns normally, and a second call
    on the state it leaves returns normally with that same state: the
    component is idle (not active, not connecting, no session, audio
    contexts or microphone held), unmuted, and shows no practice word; the
    second call makes no call on a collaborator. *)
Theorem stop_idempotent (s : Sys) :
  exists s1,
    stopSession s = Ret tt s1 /\
    stopSession s1 = Ret tt s1 /\
    is_idle s1 = true /\
    isMuted (ui s1) = false /\ isMutedRef (refs s1) = false /\
    targetWord (ui s1) = None.
Proof.
  exists (state_of (stopSession s)).
  split; [apply stop_returns|].
  stop_cases s; repeat split.
Qed.

(** ** Callbacks on the session promise *)

Lemma promise_then_ready (s : Sys) (c : nat) (cb : ThenCallback) :
  ready s c = true -> promise_then c cb s = run_callback c cb s.
Proof.
  unfold ready, promise_then. cbn.
  destruct (lookup c (channels s)) as [ch|]; [|discriminate].
  destruct (ch_promise ch); (discriminate || reflexivity).
Qed.

(** C5.  With the session promise of the channel fulfilled, a delivered
    frame changes nothing at all while [isMutedRef] is set (no blob, no send,
    no exception); otherwise its blob is handed to [sendRealtimeInput] and
    nothing else changes.  [toggleMute] sets the ref to the opposite of
    [isMuted], so after unmuting the very next frame is sent. *)
Theorem mute_gate (s : Sys) (c : nat) (frame : list Q) :
  ready s c = true ->
  onaudioprocess c frame s =
    Ret tt (if isMutedRef (refs s) then s else sent c frame s) /\
  exists s1,
    toggleMute s = Ret tt s1 /\
    isMutedRef (refs s1) = negb (isMuted (ui s)) /\
    onaudioprocess c frame s1 =
      Ret tt (if isMuted (ui s) then sent c frame s1 else s1).
Proof.
  intros H. split.
  - unfold onaudioprocess. cbn.
    destruct (isMutedRef (refs s)); [reflexivity|].
    now rewrite promise_then_ready.
  - exists (state_of (toggleMute s)). split; [reflexivity|]. split; [reflexivity|].
    unfold onaudioprocess, toggleMute. cbn.
    destruct (isMuted (ui s)); cbn; [|reflexivity].
    rewrite promise_then_ready; [reflexivity|exact H].
Qed.

Lemma mute_gate_witness :
  ready lesson 5 = true /\
  onaudioprocess 5 [1 # 2]%Q lesson = Ret tt (sent 5 [1 # 2]%Q lesson).
Proof.
  split; [reflexivity|].
  exact (proj1 (mute_gate lesson 5 [1 # 2]%Q eq_refl)).
Defined.

(** ** Tool calls *)

Lemma function_call_loop (c : nat) (fcs : list FunctionCall) :
  forall s,
    ready s c = true ->
    forallb (fun fc => implb (names_prompt_tool fc) (carries_args fc)) fcs = true ->
    for_each fcs (on_function_call c) s =
      Ret tt (with_calls
                (app (rev (map (acknowledgment c) (filter names_prompt_tool fcs))))
                (shows (last_prompt fcs (targetWord (ui s))) s)).
Proof.
  induction fcs as [|fc fcs IH]; intros s Hready Hargs.
  - destruct s as [[] ? ? ? ? ? ? ?]. reflexivity.
  - cbn [forallb] in Hargs. apply andb_true_iff in Hargs. destruct Hargs as [Hfc Hrest].
    cbn [for_each filter last_prompt]. unfold bind at 1. unfold on_function_call.
    destruct (names_prompt_tool fc) eqn:Hname.
    + unfold carries_args in Hfc. unfold prompt_of.
      destruct (fc_args fc) as [args|]; [|discriminate].
      cbn [bind setTargetWord modify].
      rewrite promise_then_ready by exact Hready.
      cbn [run_callback log modify].
      rewrite IH; [|exact Hready|exact Hrest].
      unfold shows, acknowledgment. cbn. now rewrite <- app_assoc.
    + cbn [ret]. now rewrite IH.
Qed.



(** ** Channel errors *)

(** C7 (as amended).  [onerror] returns normally.  When the message of the
    error ("Network error" when it has none) contains "Operation is not
    implemented" or "Requested entity was not found", the distinct message
    is shown, [openSelectKey] is called, and the session is left untouched
    until that call is fulfilled, at which point the component stops.  For
    every other error the message is shown and the component stops at
    once.  Stopping closes the channel held in [sessionRef]. *)
Theorem error_routing (s : Sys) (e : JsError) :
  let msg := or_else (message e) "Network error" in
  let s1 := state_of (onerror e s) in
  onerror e s = Ret tt s1 /\
  if entitlement_class e then
    errorMsg (ui s1) = Some entitlement_message /\
    calls s1 = openSelectKey :: console_error "Session error:" :: calls s /\
    refs s1 = refs s /\ isActive (ui s1) = isActive (ui s) /\
    tasks s1 = (fresh s, AwaitReselect) :: tasks s /\
    let s2 := step (SelectKey_settled (fresh s) (Fulfilled tt)) s1 in
    is_idle s2 = true /\
    errorMsg (ui s2) = Some entitlement_message /\
    tasks s2 = tasks s /\
    forall c, sessionRef (refs s) = Some c -> existsb (closes c) (calls s2) = true
  else
    errorMsg (ui s1) = Some msg /\
    is_idle s1 = true /\
    tasks s1 = tasks s /\
    forall c, sessionRef (refs s) = Some c -> existsb (closes c) (calls s1) = true.
Proof.
  intros msg s1. subst s1. unfold onerror, entitlement_class. fold msg. cbn.
  destruct (includes msg "Operation is not implemented"
            || includes msg "Requested entity was not found")%bool; cbn.
  - split; [reflexivity|].
    repeat (split; [reflexivity|]).
    unfold step, dispatch, resume. cbn. rewrite Nat.eqb_refl. cbn. rewrite Nat.eqb_refl.
    match goal with |- context [stopSession ?x] => set (s0 := x) end.
    destruct (stop_frame s0) as [Ht [_ [_ [_ [_ [He _]]]]]].
    split; [apply stop_is_idle|].
    split; [rewrite He; reflexivity|].
    split; [rewrite Ht; reflexivity|].
    intros c Hc. apply stop_closes. exact Hc.
  - match goal with |- context [stopSession ?x] => set (s0 := x) end.
    destruct (stop_frame s0) as [Ht [_ [_ [_ [_ [He _]]]]]].
    split; [apply stop_returns|].
    split; [rewrite He; reflexivity|].
    split; [apply stop_is_idle|].
    split; [rewrite Ht; reflexivity|].
    intros c Hc. apply stop_closes. exact Hc.
Qed.

(** C7, as stated, fails on the spec's own wording of the entitlement
    class: an error whose message is "entity not found" or "not implemented"
    takes the generic path, and the key dialog is not opened; an error
    without a message is reported as "Network error". *)
Lemma unlisted_wording_is_generic :
  let e1 := mkError (Some "entity not found") in
  let e2 := mkError (Some "not implemented") in
  let s1 := state_of (onerror e1 lesson) in
  let s2 := state_of (onerror e2 lesson) in
  includes "entity not found" "entity not found" = true /\
  errorMsg (ui s1) = Some "entity not found" /\
  existsb is_key_dialog (calls s1) = false /\
  is_idle s1 = true /\
  errorMsg (ui s2) = Some "not implemented" /\
  existsb is_key_dialog (calls s2) = false /\
  errorMsg (ui (state_of (onerror (mkError None) lesson))) = Some "Network error".
Proof. vm_compute. repeat split. Qed.

(** The scenario of the spec: "Requested entity was not found" opens the
    key dialog and stops once it is answered. *)
Example entity_not_found_scenario :
  let e := mkError (Some "Requested entity was not found.") in
  let s1 := state_of (onerror e lesson) in
  let s2 := step (SelectKey_settled (newest_task s1) (Fulfilled tt)) s1 in
  errorMsg (ui s1) = Some entitlement_message /\
  existsb is_key_dialog (calls s1) = true /\
  isActive (ui s1) = true /\
  is_idle s2 = true /\ is_open s2 5 = false.
Proof. vm_compute. repeat split. Qed.

(** ** The playback scheduler *)

Lemma stop_all (srcs : list nat) :
  forall s,
    for_each srcs (fun src => log (source_stop src)) s =
      Ret tt (with_calls (app (rev (map source_stop srcs))) s).
Proof.
  induction srcs as [|src srcs IH]; intros s.
  - now destruct s.
  - cbn. rewrite IH. cbn. now rewrite <- app_assoc.
Qed.

Lemma Qmax_left (x y : Q) : (y <= x)%Q -> Qmax x y = x.
Proof.
  intros H. unfold Qmax, GenericMinMax.gmax.
  destruct (x ?= y)%Q eqn:E; try reflexivity.
  apply Qlt_alt in E. exfalso. apply (Qlt_not_le _ _ E H).
Qed.

Lemma Qmax_right (x y : Q) : (x < y)%Q -> Qmax x y = y.
Proof.
  intros H. unfold Qmax, GenericMinMax.gmax.
  destruct (x ?= y)%Q eqn:E; try reflexivity; exfalso.
  - apply Qeq_alt in E. rewrite E in H. exact (Qlt_irrefl _ H).
  - apply Qgt_alt in E. exact (Qlt_irrefl _ (Qlt_trans _ _ _ H E)).
Qed.

Lemma Qmax_zero (now : Q) : (0 <= now)%Q -> (Qmax 0 now == now)%Q.
Proof. intros H. apply Q.max_r. exact H. Qed.

Lemma payload_duration_decodes (payload : string) (d : Q) :
  payload_duration payload = Some d ->
  exists c rest bytes buffer,
    payload = String c rest /\
    AudioService.decode payload = inr bytes /\
    AudioService.decodeAudioData bytes 24000 1 = inr buffer /\
    AudioService.duration buffer = d.
Proof.
  unfold payload_duration. intros H.
  destruct (AudioService.decode payload) as [?|bytes] eqn:E1; [discriminate|].
  destruct (AudioService.decodeAudioData bytes 24000 1) as [?|buffer] eqn:E2;
    [discriminate|].
  injection H as <-.
  destruct payload as [|c rest].
  - cbv in E1. injection E1 as <-. discriminate.
  - now exists c, rest, bytes, buffer.
Qed.

(** One audio message handled to its end while an output context is held. *)
Lemma enqueue_schedules (s : Sys) (c ctx : nat) (payload : string) (d now : Q) :
  known c s = true ->
  outputAudioCtxRef (refs s) = Some ctx ->
  payload_duration payload = Some d ->
  let t := Qmax (nextStartTimeRef (refs s)) now in
  let s1 := deliver c (audio_message payload) now s in
  calls s1 = source_start (S (fresh s)) ctx t d :: calls s /\
  nextStartTimeRef (refs s1) = (t + d)%Q /\
  sourcesRef (refs s1) = set_add (S (fresh s)) (sourcesRef (refs s)) /\
  outputAudioCtxRef (refs s1) = Some ctx /\
  channels s1 = channels s /\ tasks s1 = tasks s /\
  fresh s1 = S (S (fresh s)).
Proof.
  intros Hk Hctx Hd.
  destruct (payload_duration_decodes payload d Hd) as [ch [rest [bytes [buffer [-> [E1 [E2 E3]]]]]]].
  assert (E : step (Channel_message c (audio_message (String ch rest)) now) s =
              with_tasks (cons (fresh s, AwaitDecode c ctx bytes (audio_message (String ch rest))))
                (with_fresh (S (fresh s))
                   (state_of (set_nextStartTimeRef (fun t => Qmax t now) s)))).
  { unfold step, dispatch, onmessage, audio_message. cbn. rewrite Hk. cbn.
    rewrite Hctx. cbn. rewrite E1. cbn. rewrite ?Hctx. reflexivity. }
  unfold deliver. rewrite E. clear E. cbn -[Nat.eqb].
  rewrite (proj2 (Nat.eqb_neq _ _) (Nat.neq_succ_diag_l (fresh s))).
  unfold step, dispatch, resume, newest_task. cbn -[Nat.eqb].
  rewrite Nat.eqb_refl. cbn -[Nat.eqb].
  rewrite ?Nat.eqb_refl. unfold after_decode. rewrite E2. cbn.
  unfold onmessage_tail. cbn. rewrite E3. repeat split. exact Hctx.
Qed.

Lemma duration_positive (payload : string) (d : Q) :
  payload_duration payload = Some d -> (0 < d)%Q.
Proof.
  intros H.
  destruct (payload_duration_decodes payload d H) as [_ [_ [bytes [buffer [_ [_ [E <-]]]]]]].
  unfold AudioService.decodeAudioData in E.
  destruct bytes as [|b0 bytes]; [discriminate|].
  destruct (AudioService.unpack (b0 :: bytes)) as [vs|] eqn:U; [|discriminate].
  injection E as <-. unfold AudioService.duration. cbn [AudioService.samples AudioService.sampleRate].
  rewrite length_map.
  destruct vs as [|v vs].
  - destruct bytes as [|b1 bytes]; cbn in U; [discriminate|].
    destruct (AudioService.unpack bytes); discriminate.
  - cbn [List.length]. unfold Qlt, Qdiv, Qmult, Qinv, inject_Z. cbn. lia.
Qed.

Lemma tail_flushes (m : LiveServerMessage) (s : Sys) :
  interrupted m = true ->
  let s1 := state_of (onmessage_tail m s) in
  onmessage_tail m s = Ret tt s1 /\
  calls s1 = (rev (map source_stop (sourcesRef (refs s))) ++ calls s)%list /\
  sourcesRef (refs s1) = [] /\
  nextStartTimeRef (refs s1) = 0%Q.
Proof.
  intros Hi. unfold onmessage_tail. rewrite Hi.
  destruct (inputTranscription m), (outputTranscription m); cbn;
    rewrite stop_all; cbn; repeat split.
Qed.

Lemma onmessage_plain (c : nat) (m : LiveServerMessage) (now : Q) (s : Sys) :
  audioData m = None -> toolCall m = None ->
  onmessage c m now s = onmessage_tail m s.
Proof.
  intros Ha Ht. unfold onmessage. rewrite Ha, Ht. cbn.
  now destruct (outputAudioCtxRef (refs s)).
Qed.

(** C2 (as amended).  Three audio messages handled in order, while an
    output context is held, start at [t0 = max(nextStartTime, now1)],
    [t1 = max(t0 + d1, now2)] and [t2 = max(t1 + d2, now3)]: start times never
    decrease and no segment starts before the previous one ends.  They
    are exactly [t0], [t0 + d1], [t0 + d1 + d2], with no gap, when each
    later message is handled before the end of the segment scheduled before
    it; a message handled after that end starts its segment at the clock. *)
Theorem back_to_back (s : Sys) (c ctx : nat) (p1 p2 p3 : string)
    (d1 d2 d3 now1 now2 now3 : Q) :
  known c s = true ->
  outputAudioCtxRef (refs s) = Some ctx ->
  payload_duration p1 = Some d1 ->
  payload_duration p2 = Some d2 ->
  payload_duration p3 = Some d3 ->
  let s1 := deliver c (audio_message p1) now1 s in
  let s2 := deliver c (audio_message p2) now2 s1 in
  let s3 := deliver c (audio_message p3) now3 s2 in
  let t0 := Qmax (nextStartTimeRef (refs s)) now1 in
  let t1 := Qmax (t0 + d1) now2 in
  let t2 := Qmax (t1 + d2) now3 in
  start_times s3 = (start_times s ++ [t0; t1; t2])%list /\
  (t0 + d1 <= t1)%Q /\ (t1 + d2 <= t2)%Q /\
  (t0 <= t1)%Q /\ (t1 <= t2)%Q /\
  ((now2 <= t0 + d1)%Q -> t1 = (t0 + d1)%Q) /\
  ((now3 <= t1 + d2)%Q -> t2 = (t1 + d2)%Q) /\
  ((t0 + d1 < now2)%Q -> t1 = now2) /\
  ((t1 + d2 < now3)%Q -> t2 = now3) /\
  ((now2 <= t0 + d1)%Q -> (now3 <= t0 + d1 + d2)%Q ->
   start_times s3 = (start_times s ++ [t0; t0 + d1; t0 + d1 + d2])%list%Q).
Proof.
  intros Hk Hctx H1 H2 H3 s1 s2 s3 t0 t1 t2.
  destruct (enqueue_schedules s c ctx p1 d1 now1 Hk Hctx H1)
    as [C1 [N1 [_ [X1 [K1 _]]]]].
  fold s1 in C1, N1, X1, K1.
  assert (Hk1 : known c s1 = true) by (unfold known in *; now rewrite K1).
  destruct (enqueue_schedules s1 c ctx p2 d2 now2 Hk1 X1 H2)
    as [C2 [N2 [_ [X2 [K2 _]]]]].
  fold s2 in C2, N2, X2, K2.
  assert (Hk2 : known c s2 = true) by (unfold known in *; now rewrite K2).
  destruct (enqueue_schedules s2 c ctx p3 d3 now3 Hk2 X2 H3) as [C3 _].
  fold s3 in C3.
  rewrite N2, N1 in C3. rewrite N1 in C2. fold t0 in C1, C2, C3. fold t1 in C2, C3.
  fold t2 in C3.
  assert (T : start_times s3 = (start_times s ++ [t0; t1; t2])%list).
  { unfold start_times. rewrite C3, C2, C1. cbn. now rewrite <- !app_assoc. }
  pose proof (duration_positive p1 d1 H1) as P1.
  pose proof (duration_positive p2 d2 H2) as P2.
  pose proof (Q.le_max_l (t0 + d1) now2) as L1. fold t1 in L1.
  pose proof (Q.le_max_l (t1 + d2) now3) as L2. fold t2 in L2.
  split; [exact T|].
  split; [exact L1|]. split; [exact L2|].
  split; [lra|]. split; [lra|].
  split; [intros; now apply Qmax_left|].
  split; [intros; now apply Qmax_left|].
  split; [intros; now apply Qmax_right|].
  split; [intros; now apply Qmax_right|].
  intros A B. rewrite T. subst t2 t1.
  rewrite (Qmax_left (t0 + d1) now2 A), (Qmax_left (t0 + d1 + d2) now3 B). reflexivity.
Qed.

Lemma back_to_back_witness :
  let d := (6 # 24000)%Q in
  let s3 := deliver 5 (audio_message chirp) 0
              (deliver 5 (audio_message chirp) 0
                 (deliver 5 (audio_message chirp) 0 lesson)) in
  start_times s3 = [Qmax 0 0; Qmax 0 0 + d; Qmax 0 0 + d + d]%Q.
Proof.
  refine (proj2 (proj2 (proj2 (proj2 (proj2 (proj2 (proj2 (proj2 (proj2
            (back_to_back lesson 5 2 chirp chirp chirp
               (6 # 24000) (6 # 24000) (6 # 24000) 0 0 0
               eq_refl eq_refl eq_refl eq_refl eq_refl))))))))) _ _);
    vm_compute; discriminate.
Defined.

(** C2, as stated, fails: when the output clock has passed the end of the
    previous segment the next one starts at the clock, not at [t0 + d1]. *)
Lemma late_segment_leaves_gap :
  let s3 := deliver 5 (audio_message chirp) 2
              (deliver 5 (audio_message chirp) 1
                 (deliver 5 (audio_message chirp) 0 lesson)) in
  payload_duration chirp = Some (6 # 24000)%Q /\
  nextStartTimeRef (refs lesson) = 0%Q /\
  start_times s3 = [0; 1; 2]%Q /\
  Qeq_bool 1 (0 + (6 # 24000)) = false /\
  Qeq_bool 2 (0 + (6 # 24000) + (6 # 24000)) = false.
Proof. vm_compute. repeat split. Qed.

(** ** After the session has been stopped *)

(** Two states with the same refs, the same suspended tasks and the same
    buffer sources started. *)
Lemma same_playback_refl (s : Sys) : same_playback s s.
Proof. now repeat split. Qed.

Lemma same_playback_trans (a b c : Sys) :
  same_playback a b -> same_playback b c -> same_playback a c.
Proof.
  intros [A1 [A2 A3]] [B1 [B2 B3]]. repeat split; congruence.
Qed.

Lemma function_call_keeps_playback (c : nat) (fc : FunctionCall) (s : Sys) :
  same_playback s (state_of (on_function_call c fc s)).
Proof.
  unfold on_function_call.
  destruct (names_prompt_tool fc); [|apply same_playback_refl].
  destruct (fc_args fc) as [args|]; [|apply same_playback_refl].
  cbn. unfold promise_then. cbn.
  destruct (lookup c (channels s)) as [ch|]; [|now repeat split].
  destruct (ch_promise ch); now repeat split.
Qed.

Lemma for_each_cons {A} (a : A) (l : list A) (f : A -> M unit) (s : Sys) :
  for_each (a :: l) f s =
    match f a s with
    | Ret _ s' => for_each l f s'
    | Throw e s' => Throw e s'
    end.
Proof. reflexivity. Qed.

Lemma function_calls_keep_playback (c : nat) (fcs : list FunctionCall) :
  forall s, same_playback s (state_of (for_each fcs (on_function_call c) s)).
Proof.
  induction fcs as [|fc fcs IH]; intros s; [apply same_playback_refl|].
  rewrite for_each_cons.
  pose proof (function_call_keeps_playback c fc s) as H.
  destruct (on_function_call c fc s) as [[] s'|e s']; cbn [state_of] in *.
  - eapply same_playback_trans; [exact H|apply IH].
  - exact H.
Qed.

Lemma flat_map_stops (srcs : list nat) :
  flat_map start_time_of (rev (map source_stop srcs)) = [].
Proof.
  induction srcs as [|src srcs IH]; [reflexivity|].
  cbn. rewrite flat_map_app, IH. reflexivity.
Qed.

Lemma tail_keeps_schedule (m : LiveServerMessage) (s : Sys) :
  let s1 := state_of (onmessage_tail m s) in
  tasks s1 = tasks s /\ start_times s1 = start_times s /\
  (interrupted m = false -> refs s1 = refs s).
Proof.
  destruct s as [u [] cs ? ? ? ? ?]. unfold onmessage_tail, start_times.
  destruct (inputTranscription m), (outputTranscription m), (interrupted m); cbn;
    rewrite ?stop_all; cbn; rewrite ?flat_map_app, ?flat_map_stops;
    repeat split; discriminate.
Qed.

(** C9 (as amended).  Once [stopSession] has run, a message that arrives
    afterwards starts no decoding and no buffer source, and leaves the refs
    ([nextStartTimeRef] and [sourcesRef] among them) as they were unless it
    carries the interrupted flag; a message that only carries audio changes
    nothing at all. *)
Theorem late_audio_ignored (s : Sys) (c : nat) (m : LiveServerMessage) (now : Q) :
  let s0 := state_of (stopSession s) in
  let s1 := state_of (onmessage c m now s0) in
  is_idle s0 = true /\
  tasks s1 = tasks s0 /\
  start_times s1 = start_times s0 /\
  (interrupted m = false -> refs s1 = refs s0) /\
  (toolCall m = None -> inputTranscription m = None ->
   outputTranscription m = None -> interrupted m = false ->
   onmessage c m now s0 = Ret tt s0).
Proof.
  intros s0 s1. split; [apply stop_is_idle|].
  assert (Hctx : outputAudioCtxRef (refs s0) = None).
  { pose proof (stop_is_idle s) as H. fold s0 in H. unfold is_idle in H.
    destruct (sessionRef (refs s0)), (inputAudioCtxRef (refs s0)),
      (outputAudioCtxRef (refs s0)); try reflexivity;
      rewrite ?andb_false_r in H; discriminate. }
  clearbody s0. subst s1.
  assert (L : tasks (state_of (onmessage c m now s0)) = tasks s0 /\
              start_times (state_of (onmessage c m now s0)) = start_times s0 /\
              (interrupted m = false ->
               refs (state_of (onmessage c m now s0)) = refs s0)).
  { unfold onmessage. cbn.
    assert (P : same_playback s0
                  (state_of (with_some (toolCall m)
                     (fun calls => for_each calls (on_function_call c)) s0))).
    { destruct (toolCall m) as [fcs|]; cbn;
        [apply function_calls_keep_playback|apply same_playback_refl]. }
    destruct (toolCall m) as [fcs|]; cbn in *.
    - destruct (for_each fcs (on_function_call c) s0) as [[] s'|e s'];
        cbn [state_of] in *; destruct P as [P1 [P2 P3]].
      + assert (Hs' : outputAudioCtxRef (refs s') = None) by (rewrite P1; exact Hctx).
        rewrite Hs'.
        destruct (tail_keeps_schedule m s') as [T1 [T2 T3]].
        destruct (audioData m) as [[|]|]; repeat split; try congruence;
          intros Hi; rewrite T3 by exact Hi; exact P1.
      + repeat split; congruence.
    - rewrite Hctx. destruct (tail_keeps_schedule m s0) as [T1 [T2 T3]].
      destruct (audioData m) as [[|]|]; repeat split; assumption. }
  destruct L as [L1 [L2 L3]].
  repeat (split; [assumption|]).
  intros Ht Hit Hot Hi. unfold onmessage. rewrite Ht. cbn. rewrite Hctx.
  unfold onmessage_tail. rewrite Hit, Hot, Hi. cbn.
  destruct (audioData m) as [[|]|]; now destruct s0.
Qed.

(** C9, as stated, fails.  A decoding of the first lesson is in flight when
    the lesson is stopped and a second one is started on channel 13 with
    output context 10.  When it completes it starts a buffer source on the
    closed context 2 of the first lesson, puts it into [sourcesRef] and
    advances [nextStartTimeRef], both of which the second lesson reads.  A
    frame delivered after the stop is still sent on channel 5. *)
Lemma stale_decode_schedules :
  let s1 := step (Channel_message 5 (audio_message chirp) 7) lesson in
  let s2 := step Click_finish s1 in
  let s3 := start_to_completion English granted s2 in
  let s4 := step (Decode_settled 7) s3 in
  tasks s1 = [(7%nat, AwaitDecode 5 2 [0; 64; 0; 224; 255; 127; 0; 128; 0; 0; 0; 0]%Z
                        (audio_message chirp))] /\
  is_idle s2 = true /\
  sessionRef (refs s3) = Some 13%nat /\ outputAudioCtxRef (refs s3) = Some 10%nat /\
  nextStartTimeRef (refs s3) = 7%Q /\ sourcesRef (refs s3) = [] /\
  calls s4 = source_start 15 2 7 (6 # 24000) :: calls s3 /\
  nextStartTimeRef (refs s4) = (168006 # 24000)%Q /\
  sourcesRef (refs s4) = [15%nat] /\
  calls (step (Audio_process 5 [1 # 2]%Q) s2) =
    sendRealtimeInput_media 5 (AudioService.createBlob [1 # 2]%Q) :: calls s2.
Proof. vm_compute. repeat split. Qed.

(** ** Between two starts *)

Lemma suffix_refl (l : list Call) : suffix l l.
Proof. now exists []. Qed.

Lemma suffix_cons (x : Call) (r l : list Call) : suffix r l -> suffix r (x :: l).
Proof. intros [a ->]. now exists (x :: a). Qed.

Lemma suffix_app (a r l : list Call) : suffix r l -> suffix r (a ++ l).
Proof. intros [b ->]. exists (a ++ b)%list. now rewrite app_assoc. Qed.

Lemma suffix_trans (a b c : list Call) : suffix a b -> suffix b c -> suffix a c.
Proof. intros [x ->] [y ->]. exists (y ++ x)%list. now rewrite app_assoc. Qed.

Lemma remove_subset {A} (n : nat) (l : list (nat * A)) (x : nat * A) :
  In x (remove n l) -> In x l.
Proof.
  induction l as [|[k a] l IH]; cbn; [tauto|].
  destruct (Nat.eqb n k); cbn; tauto.
Qed.

Lemma lookup_in {A} (n : nat) (l : list (nat * A)) (a : A) :
  lookup n l = Some a -> In (n, a) l.
Proof.
  induction l as [|[k b] l IH]; cbn; [discriminate|].
  destruct (Nat.eqb_spec n k) as [->|_].
  - intros [= ->]. now left.
  - intros H. right. now apply IH.
Qed.

Lemma quiet_refl (s : Sys) : quiet s s.
Proof. constructor; try reflexivity; [apply suffix_refl|tauto]. Qed.

Lemma quiet_trans (a b c : Sys) : quiet a b -> quiet b c -> quiet a c.
Proof.
  intros [A1 A2 A3 A4 A5 A6] [B1 B2 B3 B4 B5 B6].
  constructor; try congruence.
  - exact (suffix_trans _ _ _ A5 B5).
  - intros t H. destruct (B6 t H) as [H'|H']; [apply A6, H'|now right].
Qed.

Ltac suffix_tac :=
  repeat first [apply suffix_refl | apply suffix_cons | apply suffix_app].

Ltac tasks_tac :=
  let t := fresh "t" in let H := fresh "H" in
  intros t H; cbn in H;
  repeat match goal with
         | H : _ \/ _ |- _ => destruct H as [H|H]
         | H : In _ (remove _ _) |- _ => apply remove_subset in H
         end;
  subst; (now left) || (now right) || tauto.

Ltac quiet_tac :=
  constructor; cbn;
  [reflexivity|reflexivity|reflexivity|reflexivity|suffix_tac|tasks_tac].

Lemma is_open_earlier (s s' : Sys) (c : nat) :
  channels s' = channels s -> suffix (calls s) (calls s') ->
  is_open s' c = true -> is_open s c = true.
Proof.
  intros Hc [a Ha]. unfold is_open. rewrite Hc, Ha.
  destruct (lookup c (channels s)) as [ch|]; [|easy].
  destruct (ch_promise ch); try easy.
  rewrite existsb_app, negb_orb. intros H. now apply andb_true_iff in H.
Qed.

Lemma is_live_earlier (s s' : Sys) (m : nat) :
  channels s' = channels s -> suffix (calls s) (calls s') ->
  is_live s' m = true -> is_live s m = true.
Proof.
  intros Hc [a Ha]. unfold is_live. rewrite Hc, Ha.
  rewrite existsb_app, negb_orb. intros H.
  apply andb_true_iff in H. destruct H as [H1 H2].
  apply andb_true_iff in H2. destruct H2 as [_ H2]. now rewrite H1, H2.
Qed.

Lemma quiet_settled (s s' : Sys) : settled s -> quiet s s' -> settled s'.
Proof.
  intros [S1 S2 S3 S4] [Q1 Q2 Q3 Q4 Q5 Q6]. constructor.
  - unfold no_start_pending in *. apply forallb_forall. intros t Ht.
    destruct (Q6 t Ht) as [H|H].
    + rewrite forallb_forall in S1. now apply S1.
    + now rewrite H.
  - rewrite Q4, Q2, Q3. exact S2.
  - intros c H. rewrite Q2. apply S3. exact (is_open_earlier s s' c Q1 Q5 H).
  - intros m H. rewrite Q3. apply S4. exact (is_live_earlier s s' m Q1 Q5 H).
Qed.

Lemma stop_calls (s : Sys) :
  exists added,
    calls (state_of (stopSession s)) = (added ++ calls s)%list /\
    (forall c, sessionRef (refs s) = Some c -> existsb (closes c) added = true) /\
    (forall m, micStreamRef (refs s) = Some m -> existsb (stops_track m) added = true).
Proof.
  stop_cases s;
    match goal with
    | |- exists a, ?l = (a ++ ?r)%list /\ _ =>
        let rec pre l :=
          lazymatch l with
          | r => constr:(@nil Call)
          | ?x :: ?l' => let p := pre l' in constr:(x :: p)
          end in
        let p := pre l in exists p
    end;
    (split; [reflexivity|]); split; intros ? [= <-]; cbn;
    rewrite Nat.eqb_refl; cbn; rewrite ?orb_true_r; reflexivity.
Qed.

Lemma stop_settles (s : Sys) :
  no_start_pending s = true ->
  (forall c, is_open s c = true -> sessionRef (refs s) = Some c) ->
  (forall m, is_live s m = true -> micStreamRef (refs s) = Some m) ->
  settled (state_of (stopSession s)).
Proof.
  intros S1 S3 S4.
  destruct (stop_frame s) as [Ft [_ [Fc _]]].
  destruct (stop_calls s) as [added [Ec [Hclose Hstop]]].
  pose proof (stop_is_idle s) as Hidle.
  set (s' := state_of (stopSession s)) in *.
  assert (Hrefs : sessionRef (refs s') = None /\ micStreamRef (refs s') = None).
  { unfold is_idle in Hidle.
    destruct (sessionRef (refs s')), (inputAudioCtxRef (refs s')),
      (outputAudioCtxRef (refs s')), (micStreamRef (refs s'));
      rewrite ?andb_false_r in Hidle; try discriminate; now split. }
  constructor.
  - unfold no_start_pending. now rewrite Ft.
  - intros _. exact Hrefs.
  - intros c H. exfalso.
    assert (H0 : is_open s c = true).
    { apply (is_open_earlier s s' c Fc); [now exists added|exact H]. }
    specialize (Hclose c (S3 c H0)).
    unfold is_open in H. rewrite Ec, existsb_app, Hclose in H. cbn in H.
    destruct (lookup c (channels s')) as [ch|]; [|discriminate].
    destruct (ch_promise ch); discriminate.
  - intros m H. exfalso.
    assert (H0 : is_live s m = true).
    { apply (is_live_earlier s s' m Fc); [now exists added|exact H]. }
    specialize (Hstop m (S4 m H0)).
    unfold is_live in H. rewrite Ec, existsb_app, Hstop in H. cbn in H.
    now rewrite andb_false_r in H.
Qed.

Lemma stop_settled (s : Sys) : settled s -> settled (state_of (stopSession s)).
Proof. intros [S1 _ S3 S4]. now apply stop_settles. Qed.

Lemma promise_then_quiet (c : nat) (cb : ThenCallback) (s : Sys) :
  quiet s (state_of (promise_then c cb s)).
Proof.
  unfold promise_then. cbn.
  destruct (lookup c (channels s)) as [ch|]; [|apply quiet_refl].
  destruct (ch_promise ch); [| destruct cb |]; quiet_tac.
Qed.

Lemma function_call_quiet (c : nat) (fc : FunctionCall) (s : Sys) :
  quiet s (state_of (on_function_call c fc s)).
Proof.
  unfold on_function_call.
  destruct (names_prompt_tool fc); [|apply quiet_refl].
  destruct (fc_args fc) as [args|]; [|apply quiet_refl].
  cbn. eapply quiet_trans; [|apply promise_then_quiet]. quiet_tac.
Qed.

Lemma function_calls_quiet (c : nat) (fcs : list FunctionCall) :
  forall s, quiet s (state_of (for_each fcs (on_function_call c) s)).
Proof.
  induction fcs as [|fc fcs IH]; intros s; [apply quiet_refl|].
  rewrite for_each_cons.
  pose proof (function_call_quiet c fc s) as H.
  destruct (on_function_call c fc s) as [[] s'|e s']; cbn [state_of] in *.
  - eapply quiet_trans; [exact H|apply IH].
  - exact H.
Qed.

Lemma tail_quiet (m : LiveServerMessage) (s : Sys) :
  quiet s (state_of (onmessage_tail m s)).
Proof.
  unfold onmessage_tail.
  destruct (inputTranscription m), (outputTranscription m), (interrupted m); cbn;
    rewrite ?stop_all; quiet_tac.
Qed.

Lemma bind_quiet {A} (m : M A) (k : A -> M unit) (s : Sys) :
  quiet s (state_of (m s)) ->
  (forall a s', quiet s' (state_of (k a s'))) ->
  quiet s (state_of (bind m k s)).
Proof.
  intros Hm Hk. cbn. destruct (m s) as [a s'|e s']; cbn [state_of] in *.
  - eapply quiet_trans; [exact Hm|apply Hk].
  - exact Hm.
Qed.

Lemma onmessage_quiet (c : nat) (m : LiveServerMessage) (now : Q) (s : Sys) :
  quiet s (state_of (onmessage c m now s)).
Proof.
  unfold onmessage. apply bind_quiet.
  - destruct (toolCall m) as [fcs|]; cbn;
      [apply function_calls_quiet|apply quiet_refl].
  - intros _ s'. cbn.
    destruct (audioData m) as [[|ch rest]|], (outputAudioCtxRef (refs s'));
      try apply tail_quiet.
    cbn. destruct (AudioService.decode (String ch rest)); quiet_tac.
Qed.

Lemma after_decode_quiet (ctx : nat) (bytes : list Z) (m : LiveServerMessage) (s : Sys) :
  quiet s (state_of (after_decode ctx bytes m s)).
Proof.
  unfold after_decode.
  destruct (AudioService.decodeAudioData bytes 24000 1) as [?|buffer];
    [apply quiet_refl|].
  cbn. eapply quiet_trans; [|apply tail_quiet]. quiet_tac.
Qed.

Lemma settled_task (s : Sys) (t : nat) (k : Task) :
  settled s -> lookup t (tasks s) = Some k -> pending_start k = false.
Proof.
  intros [S1 _ _ _] H. apply lookup_in in H.
  unfold no_start_pending in S1. rewrite forallb_forall in S1.
  specialize (S1 _ H). cbn in S1. now destruct (pending_start k).
Qed.

Lemma without_task_quiet (s : Sys) (t : nat) :
  quiet s (with_tasks (remove t) s).
Proof. quiet_tac. Qed.

Lemma handleSendMessage_quiet (s : Sys) : quiet s (state_of (handleSendMessage s)).
Proof.
  unfold handleSendMessage. cbn -[trim].
  destruct (trim (inputText (ui s))), (sessionRef (refs s)); quiet_tac.
Qed.

Lemma just_quiet (s s' : Sys) : quiet s s' -> quiet_then_maybe_stop s s'.
Proof. intros H. exists s'. split; [exact H|now left]. Qed.

Lemma quiet_then_stop (s s0 : Sys) :
  quiet s s0 -> quiet_then_maybe_stop s (state_of (stopSession s0)).
Proof. intros H. exists s0. split; [exact H|now right]. Qed.

Lemma onerror_effect (e : JsError) (s : Sys) :
  quiet_then_maybe_stop s (state_of (onerror e s)).
Proof.
  unfold onerror. cbn.
  destruct (includes _ _ || includes _ _)%bool; cbn.
  - apply just_quiet. quiet_tac.
  - apply quiet_then_stop. quiet_tac.
Qed.

Lemma event_effect (e : Event) (s : Sys) :
  session_event e = true -> settled s -> quiet_then_maybe_stop s (step e s).
Proof.
  intros He Hs. destruct e; try discriminate He; unfold step, dispatch.
  - (* Click_finish *) apply quiet_then_stop, quiet_refl.
  - (* Click_mute *) apply just_quiet. unfold toggleMute. quiet_tac.
  - (* Change_input *) apply just_quiet. quiet_tac.
  - (* Submit_input *) apply just_quiet, handleSendMessage_quiet.
  - (* Dismiss_error *) apply just_quiet. quiet_tac.
  - (* SelectKey_settled *)
    unfold resume. cbn.
    destruct (lookup t (tasks s)) as [k|] eqn:E; [|apply just_quiet, quiet_refl].
    pose proof (settled_task s t k Hs E) as Hk.
    destruct k; try discriminate Hk; try apply just_quiet, quiet_refl.
    cbn. destruct r; cbn.
    + apply quiet_then_stop, without_task_quiet.
    + apply just_quiet, without_task_quiet.
  - (* Decode_settled *)
    unfold resume. cbn.
    destruct (lookup t (tasks s)) as [k|] eqn:E; [|apply just_quiet, quiet_refl].
    destruct k; try apply just_quiet, quiet_refl. cbn.
    apply just_quiet.
    eapply quiet_trans; [apply (without_task_quiet s t)|apply after_decode_quiet].
  - (* Channel_message *)
    cbn. destruct (known c s); [|apply just_quiet, quiet_refl].
    apply just_quiet, onmessage_quiet.
  - (* Channel_error *)
    cbn. destruct (known c s); [|apply just_quiet, quiet_refl].
    apply onerror_effect.
  - (* Channel_close *)
    cbn. destruct (known c s); [|apply just_quiet, quiet_refl].
    apply quiet_then_stop, quiet_refl.
  - (* Audio_process *)
    cbn. destruct (capturing c s); [|apply just_quiet, quiet_refl].
    apply just_quiet.
    unfold onaudioprocess. cbn. destruct (isMutedRef (refs s)); [apply quiet_refl|].
    apply promise_then_quiet.
  - (* Source_ended *) apply just_quiet. quiet_tac.
Qed.

Lemma effect_settled (s s' : Sys) :
  settled s -> quiet_then_maybe_stop s s' -> settled s'.
Proof.
  intros Hs [s0 [Hq [->| ->]]].
  - exact (quiet_settled s s0 Hs Hq).
  - apply stop_settled. exact (quiet_settled s s0 Hs Hq).
Qed.

Lemma effect_channels (s s' : Sys) :
  quiet_then_maybe_stop s s' -> channels s' = channels s.
Proof.
  intros [s0 [Hq [->| ->]]].
  - exact (quiet_channels s s0 Hq).
  - destruct (stop_frame s0) as [_ [_ [Hc _]]]. rewrite Hc.
    exact (quiet_channels s s0 Hq).
Qed.

Lemma event_settled (e : Event) (s : Sys) :
  session_event e = true -> settled s -> settled (step e s).
Proof.
  intros He Hs. exact (effect_settled s _ Hs (event_effect e s He Hs)).
Qed.

(** ** Starting *)

Lemma start_reaches_microphone
    (s : Sys) (subject : Subject) (check : Settled bool) (dialog : Settled unit) :
  isConnecting (ui s) = false ->
  let s3 := start_to_microphone subject check dialog s in
  exists x,
    calls s3 =
      (getUserMedia :: new_AudioContext (S x) 24000 :: new_AudioContext x 16000
         :: key_selection_calls check dialog ++ calls s)%list /\
    tasks s3 = (S (S x), AwaitUserMedia subject) :: tasks s /\
    fresh s3 = S (S (S x)) /\
    inputAudioCtxRef (refs s3) = Some x /\
    outputAudioCtxRef (refs s3) = Some (S x) /\
    channels s3 = channels s /\ waiters s3 = waiters s /\
    closeThrows s3 = closeThrows s /\
    sessionRef (refs s3) = sessionRef (refs s) /\
    micStreamRef (refs s3) = micStreamRef (refs s) /\
    isActive (ui s3) = isActive (ui s) /\
    isConnecting (ui s3) = true.
Proof.
  intros Hc. unfold start_to_microphone, step, dispatch, startSession, resume, newest_task.
  cbn -[Nat.eqb]. rewrite Hc. cbn -[Nat.eqb]. rewrite Nat.eqb_refl. cbn -[Nat.eqb].
  destruct check as [[|]|err]; cbn -[Nat.eqb]; rewrite ?Nat.eqb_refl; cbn -[Nat.eqb].
  - eexists. repeat split.
  - rewrite ?Nat.eqb_refl. destruct dialog as [[]|err]; cbn -[Nat.eqb];
      rewrite ?Nat.eqb_refl; cbn -[Nat.eqb]; eexists; repeat split.
  - eexists. repeat split.
Qed.

Lemma resume_newest (s : Sys) (t : nat) (k : Task) (rest : list (nat * Task))
    (continue : Task -> option (M unit)) :
  tasks s = (t, k) :: rest ->
  newest_task s = t /\
  resume t continue s =
    match continue k with
    | Some m => m (with_tasks (fun _ => rest) s)
    | None => Ret tt s
    end.
Proof.
  intros H. unfold newest_task, resume. cbn -[Nat.eqb]. rewrite H. cbn -[Nat.eqb].
  rewrite Nat.eqb_refl. split; [reflexivity|].
  destruct (continue k); [|reflexivity]. cbn -[Nat.eqb]. rewrite H. cbn -[Nat.eqb].
  now rewrite Nat.eqb_refl.
Qed.

(** C10.  Whatever the key check and the key dialog answer, fulfilled or
    rejected, a start that passed the [isConnecting] guard goes on to create
    both audio contexts and request the microphone, after exactly the calls
    of [handleApiKeySelection] (a failure is logged with [console.error]);
    and once the microphone is granted it opens the channel for the
    subject. *)
Theorem key_selection_never_blocks
    (s : Sys) (subject : Subject) (check : Settled bool) (dialog : Settled unit) :
  isConnecting (ui s) = false ->
  let s3 := start_to_microphone subject check dialog s in
  let s4 := step (UserMedia_settled (newest_task s3) (Fulfilled tt)) s3 in
  exists x,
    calls s3 =
      (getUserMedia :: new_AudioContext (S x) 24000 :: new_AudioContext x 16000
         :: key_selection_calls check dialog ++ calls s)%list /\
    tasks s3 = (S (S x), AwaitUserMedia subject) :: tasks s /\
    calls s4 = live_connect (4 + x) subject :: calls s3 /\
    tasks s4 = (5 + x, AwaitSession (4 + x))%nat :: tasks s /\
    micStreamRef (refs s4) = Some (3 + x)%nat /\
    channels s4 = (4 + x, mkChannel (3 + x) Pending false)%nat :: channels s.
Proof.
  intros Hc s3 s4.
  destruct (start_reaches_microphone s subject check dialog Hc)
    as [x [C [T [F [_ [_ [K _]]]]]]].
  fold s3 in C, T, F, K. exists x.
  split; [exact C|]. split; [exact T|].
  subst s4. unfold step, dispatch.
  destruct (resume_newest s3 _ _ _
              (fun k => match k with
                        | AwaitUserMedia subject0 =>
                            Some (after_userMedia subject0 (Fulfilled tt))
                        | _ => None
                        end) T) as [-> ->].
  cbn. rewrite F, K. repeat split.
Qed.

Lemma key_selection_never_blocks_witness :
  let s3 := start_to_microphone Maths (Rejected (mkError None)) (Fulfilled tt) (initial []) in
  let s4 := step (UserMedia_settled (newest_task s3) (Fulfilled tt)) s3 in
  exists x,
    calls s3 =
      [getUserMedia; new_AudioContext (S x) 24000; new_AudioContext x 16000;
       console_error "API Key selection failed"; hasSelectedApiKey] /\
    tasks s3 = [(S (S x), AwaitUserMedia Maths)] /\
    calls s4 = live_connect (4 + x) Maths :: calls s3 /\
    tasks s4 = [(5 + x, AwaitSession (4 + x))%nat] /\
    micStreamRef (refs s4) = Some (3 + x)%nat /\
    channels s4 = [(4 + x, mkChannel (3 + x) Pending false)%nat].
Proof.
  exact (key_selection_never_blocks (initial []) Maths (Rejected (mkError None))
           (Fulfilled tt) eq_refl).
Defined.

Lemma run_callbacks_quiet (c : nat) (ws : list (nat * ThenCallback)) :
  forall s,
    quiet s (state_of (for_each ws (fun x => run_callback c (snd x)) s)).
Proof.
  induction ws as [|[k cb] ws IH]; intros s; [apply quiet_refl|].
  rewrite for_each_cons. cbn [snd].
  assert (H : quiet s (state_of (run_callback c cb s))) by (destruct cb; quiet_tac).
  destruct (run_callback c cb s) as [[] s'|e s']; cbn [state_of] in *.
  - eapply quiet_trans; [exact H|apply IH].
  - exact H.
Qed.

Lemma run_waiters_quiet (c : nat) (s : Sys) : quiet s (state_of (run_waiters c s)).
Proof.
  unfold run_waiters. cbn.
  eapply quiet_trans; [|apply run_callbacks_quiet]. quiet_tac.
Qed.

Lemma is_open_other (s s' : Sys) (c c' : nat) (ch : Channel) :
  channels s' = (c, ch) :: channels s -> suffix (calls s) (calls s') ->
  c' <> c -> is_open s' c' = true -> is_open s c' = true.
Proof.
  intros Hc [a Ha] Hne. unfold is_open. rewrite Hc, Ha. cbn.
  rewrite (proj2 (Nat.eqb_neq c' c) Hne).
  destruct (lookup c' (channels s)) as [h|]; [|easy].
  destruct (ch_promise h); try easy.
  rewrite existsb_app, negb_orb. intros H. now apply andb_true_iff in H.
Qed.

Lemma is_live_other (s s' : Sys) (c m m' : nat) (ch : Channel) :
  channels s' = (c, ch) :: channels s -> ch_stream ch = m ->
  suffix (calls s) (calls s') ->
  m' <> m -> is_live s' m' = true -> is_live s m' = true.
Proof.
  intros Hc Hm [a Ha] Hne. unfold is_live. rewrite Hc, Ha. cbn. rewrite Hm.
  rewrite (proj2 (Nat.eqb_neq m' m) Hne). cbn.
  rewrite existsb_app, negb_orb. intros H.
  apply andb_true_iff in H. destruct H as [H1 H2].
  apply andb_true_iff in H2. destruct H2 as [_ H2]. now rewrite H1, H2.
Qed.

Lemma start_effect (s : Sys) (subject : Subject) (o : StartOutcome) :
  isConnecting (ui s) = false ->
  StartEffect s (start_to_completion subject o s).
Proof.
  intros Hc. unfold start_to_completion.
  destruct (start_reaches_microphone s subject (key_check o) (key_dialog o) Hc)
    as [x [C [T [F [I [_ [K [_ [_ [Ss [Sm [Sa _]]]]]]]]]]]].
  set (s3 := start_to_microphone subject (key_check o) (key_dialog o) s) in *.
  assert (Hsuf : suffix (calls s) (calls s3)) by (rewrite C; suffix_tac).
  cbv zeta.
  assert (N3 : newest_task s3 = S (S x)) by (unfold newest_task; now rewrite T).
  rewrite N3.
  assert (R3 : forall r,
             step (UserMedia_settled (S (S x)) r) s3 =
             state_of (after_userMedia subject r (with_tasks (fun _ => tasks s) s3))).
  { intros r. unfold step, dispatch.
    now rewrite (proj2 (resume_newest s3 _ _ _ _ T)). }
  rewrite !R3. clear R3.
  set (s3' := with_tasks (fun _ => tasks s) s3).
  assert (Q3 : quiet s s3').
  { constructor; cbn; try assumption. tauto. }
  destruct (microphone o) as [[]|err]; cbn [after_userMedia].
  2:{ unfold start_failed. cbn.
      eapply microphone_refused; [|reflexivity].
      eapply quiet_trans; [exact Q3|]. quiet_tac. }
  unfold step, dispatch. cbn -[Nat.eqb]. rewrite F, K.
  unfold newest_task, newest_channel, resume, onopen. cbn -[Nat.eqb].
  destruct (connection o) as [[]|err];
    cbn -[Nat.eqb]; rewrite ?Nat.eqb_refl; cbn -[Nat.eqb];
    rewrite ?Nat.eqb_refl; cbn -[Nat.eqb]; rewrite ?I; cbn -[Nat.eqb];
    rewrite ?Nat.eqb_refl; cbn -[Nat.eqb]; rewrite ?Nat.eqb_refl; cbn -[Nat.eqb].
  - match goal with |- StartEffect _ (state_of (run_waiters ?c ?s5)) =>
      apply (channel_opened s _ s5 c (S (S (S x))))
    end; try reflexivity.
    + cbn. repeat apply suffix_cons. exact Hsuf.
    + apply run_waiters_quiet.
  - unfold start_failed. cbn -[Nat.eqb].
    match goal with |- StartEffect _ (state_of (stopSession ?s5)) =>
      apply (channel_refused s _ s5 (S (S (S (S x)))) (S (S (S x))))
    end; try reflexivity.
    + cbn. repeat apply suffix_cons. exact Hsuf.
    + cbn. exact Ss.
Qed.

Lemma start_settled (s : Sys) (subject : Subject) (o : StartOutcome) :
  settled s -> start_offered s = true ->
  settled (start_to_completion subject o s).
Proof.
  intros Hs Hg. unfold start_offered in Hg. apply andb_true_iff in Hg.
  destruct Hg as [Ha Hc]. apply negb_true_iff in Ha, Hc.
  destruct (settled_idle s Hs Ha) as [Hsess Hmic].
  destruct (start_effect s subject o Hc)
    as [s0 Hq ->|s0 c m Hch Hs0 Ht Hse Hm Hact Hq|s0 c m Hch Hs0 Ht Hse Hm ->].
  - apply stop_settled. exact (quiet_settled s s0 Hs Hq).
  - apply (quiet_settled s0); [|exact Hq]. constructor.
    + unfold no_start_pending. rewrite Ht. exact (settled_tasks s Hs).
    + rewrite Hact. discriminate.
    + intros c' H. rewrite Hse. destruct (Nat.eq_dec c' c) as [->|Hne]; [reflexivity|].
      pose proof (is_open_other s s0 c c' _ Hch Hs0 Hne H) as H0.
      rewrite (settled_open s Hs c' H0) in Hsess. discriminate.
    + intros m' H. rewrite Hm. destruct (Nat.eq_dec m' m) as [->|Hne]; [reflexivity|].
      pose proof (is_live_other s s0 c m m' _ Hch eq_refl Hs0 Hne H) as H0.
      rewrite (settled_live s Hs m' H0) in Hmic. discriminate.
  - apply stop_settles.
    + unfold no_start_pending. rewrite Ht. exact (settled_tasks s Hs).
    + intros c' H. exfalso. destruct (Nat.eq_dec c' c) as [->|Hne].
      * unfold is_open in H. rewrite Hch in H. cbn -[Nat.eqb] in H.
        rewrite Nat.eqb_refl in H. discriminate.
      * pose proof (is_open_other s s0 c c' _ Hch Hs0 Hne H) as H0.
        rewrite (settled_open s Hs c' H0) in Hsess. discriminate.
    + intros m' H. rewrite Hm. destruct (Nat.eq_dec m' m) as [->|Hne]; [reflexivity|].
      pose proof (is_live_other s s0 c m m' _ Hch eq_refl Hs0 Hne H) as H0.
      rewrite (settled_live s Hs m' H0) in Hmic. discriminate.
Qed.

Lemma wired_ready (s : Sys) (c : nat) :
  wired s = true -> capturing c s = true -> ready s c = true.
Proof.
  unfold wired, capturing, ready. intros W H.
  destruct (lookup c (channels s)) as [ch|] eqn:E; [|discriminate].
  apply lookup_in in E. rewrite forallb_forall in W.
  specialize (W _ E). cbn in W. rewrite H in W. exact W.
Qed.

(** ** Buffer sources in flight *)

Lemma calm_trans (a b c : list Call) : calm a b -> calm b c -> calm a c.
Proof. intros H1 H2. induction H2; [exact H1|]. now constructor. Qed.

Lemma calm_app (added r : list Call) :
  forallb (fun x => negb (starts_source x)) added = true -> calm r (added ++ r).
Proof.
  induction added as [|x added IH]; cbn; [constructor|].
  intros H. apply andb_true_iff in H. destruct H as [H1 H2].
  constructor; [now apply negb_true_iff|now apply IH].
Qed.

Lemma starts_is_start (src : nat) (x : Call) :
  starts_source x = false -> starts src x = false.
Proof. now destruct x. Qed.

Lemma calm_scheduled (r l : list Call) (src : nat) :
  calm r l ->
  existsb (starts src) l = existsb (starts src) r /\
  (existsb (stops src) r = true -> existsb (stops src) l = true).
Proof.
  induction 1 as [|x l Hx _ [IH1 IH2]]; [now split|].
  cbn. rewrite (starts_is_start src x Hx), IH1. split; [reflexivity|].
  intros H. rewrite (IH2 H). apply orb_true_r.
Qed.

Lemma keeps_refl (s : Sys) : keeps_sources s s.
Proof. intros src H. right. now split. Qed.

Lemma keeps_trans (a b c : Sys) :
  keeps_sources a b -> keeps_sources b c -> keeps_sources a c.
Proof.
  intros Hab Hbc src H. destruct (Hbc src H) as [Hin|[Hb Hk]]; [now left|].
  destruct (Hab src Hb) as [Hin|[Ha Hk']].
  - left. now apply Hk.
  - right. split; [exact Ha|]. intros Hi. now apply Hk, Hk'.
Qed.

Lemma plain_keeps (s s' : Sys) : plain s s' -> keeps_sources s s'.
Proof.
  intros [Hs Hc] src H. right. rewrite Hs. split; [|tauto].
  unfold scheduled in *. destruct (calm_scheduled _ _ src Hc) as [E1 E2].
  rewrite E1 in H. apply andb_true_iff in H. destruct H as [H1 H2].
  rewrite H1. cbn. destruct (existsb (stops src) (calls s)) eqn:E; [|reflexivity].
  rewrite (E2 eq_refl) in H2. discriminate.
Qed.

Lemma plain_refl (s : Sys) : plain s s.
Proof. constructor; [reflexivity|constructor]. Qed.

Lemma plain_trans (a b c : Sys) : plain a b -> plain b c -> plain a c.
Proof.
  intros [A1 A2] [B1 B2]. constructor; [congruence|exact (calm_trans _ _ _ A2 B2)].
Qed.

Ltac plain_tac :=
  constructor; cbn;
  [reflexivity
  |repeat first [apply calm_refl | apply calm_cons; [reflexivity|]]].

Lemma bind_plain {A} (m : M A) (k : A -> M unit) (s : Sys) :
  plain s (state_of (m s)) ->
  (forall a s', plain s' (state_of (k a s'))) ->
  plain s (state_of (bind m k s)).
Proof.
  intros Hm Hk. cbn. destruct (m s) as [a s'|e s']; cbn [state_of] in *.
  - eapply plain_trans; [exact Hm|apply Hk].
  - exact Hm.
Qed.

Lemma bind_keeps {A} (m : M A) (k : A -> M unit) (s : Sys) :
  keeps_sources s (state_of (m s)) ->
  (forall a s', keeps_sources s' (state_of (k a s'))) ->
  keeps_sources s (state_of (bind m k s)).
Proof.
  intros Hm Hk. cbn. destruct (m s) as [a s'|e s']; cbn [state_of] in *.
  - eapply keeps_trans; [exact Hm|apply Hk].
  - exact Hm.
Qed.

Lemma stop_plain (s : Sys) : plain s (state_of (stopSession s)).
Proof. stop_cases s; plain_tac. Qed.

Lemma promise_then_plain (c : nat) (cb : ThenCallback) (s : Sys) :
  plain s (state_of (promise_then c cb s)).
Proof.
  unfold promise_then. cbn.
  destruct (lookup c (channels s)) as [ch|]; [|apply plain_refl].
  destruct (ch_promise ch); [| destruct cb |]; plain_tac.
Qed.

Lemma for_each_plain {A} (f : A -> M unit) (l : list A) :
  (forall a s, plain s (state_of (f a s))) ->
  forall s, plain s (state_of (for_each l f s)).
Proof.
  intros Hf. induction l as [|a l IH]; intros s; [apply plain_refl|].
  rewrite for_each_cons. pose proof (Hf a s) as H.
  destruct (f a s) as [[] s'|e s']; cbn [state_of] in *.
  - eapply plain_trans; [exact H|apply IH].
  - exact H.
Qed.

Lemma function_call_plain (c : nat) (fc : FunctionCall) (s : Sys) :
  plain s (state_of (on_function_call c fc s)).
Proof.
  unfold on_function_call.
  destruct (names_prompt_tool fc); [|apply plain_refl].
  destruct (fc_args fc) as [args|]; [|apply plain_refl].
  cbn. eapply plain_trans; [|apply promise_then_plain]. plain_tac.
Qed.

Lemma run_waiters_plain (c : nat) (s : Sys) : plain s (state_of (run_waiters c s)).
Proof.
  unfold run_waiters. cbn.
  eapply plain_trans; [|apply for_each_plain]; [plain_tac|].
  intros [k cb] s'. destruct cb; plain_tac.
Qed.

Lemma start_failed_plain (err : JsError) (s : Sys) :
  plain s (state_of (start_failed err s)).
Proof.
  unfold start_failed. cbn. eapply plain_trans; [|apply stop_plain]. plain_tac.
Qed.

Lemma scheduled_stopped (s : Sys) (srcs : list nat) (src : nat) (rest : list Call) :
  calls s = (rev (map source_stop srcs) ++ rest)%list ->
  In src srcs -> scheduled s src = false.
Proof.
  intros Hc Hin. unfold scheduled. rewrite Hc, !existsb_app.
  assert (E : existsb (stops src) (rev (map source_stop srcs)) = true).
  { apply existsb_exists. exists (source_stop src). split.
    - apply in_rev. rewrite rev_involutive. now apply in_map.
    - cbn. apply Nat.eqb_refl. }
  rewrite E. cbn. apply andb_false_r.
Qed.

Lemma tail_keeps (m : LiveServerMessage) (s : Sys) :
  keeps_sources s (state_of (onmessage_tail m s)).
Proof.
  destruct (interrupted m) eqn:Hi.
  - intros src H. right.
    destruct (tail_flushes m s Hi) as [_ [Hc _]].
    set (s1 := state_of (onmessage_tail m s)) in *.
    split.
    + unfold scheduled in *. rewrite Hc, !existsb_app in H.
      apply andb_true_iff in H. destruct H as [H1 H2].
      rewrite negb_orb in H2. apply andb_true_iff in H2. destruct H2 as [_ H2].
      rewrite H2, andb_true_r.
      apply orb_true_iff in H1. destruct H1 as [H1|H1]; [|exact H1].
      exfalso. apply existsb_exists in H1. destruct H1 as [x [Hx1 Hx2]].
      apply in_rev in Hx1. 
      apply in_map_iff in Hx1. destruct Hx1 as [y [<- _]]. discriminate.
    + intros Hin. exfalso.
      rewrite (scheduled_stopped s1 _ src _ Hc Hin) in H. discriminate.
  - apply plain_keeps. unfold onmessage_tail. rewrite Hi.
    destruct (inputTranscription m), (outputTranscription m); plain_tac.
Qed.

Lemma after_decode_keeps (ctx : nat) (bytes : list Z) (m : LiveServerMessage) (s : Sys) :
  keeps_sources s (state_of (after_decode ctx bytes m s)).
Proof.
  unfold after_decode.
  destruct (AudioService.decodeAudioData bytes 24000 1) as [?|buffer];
    [apply keeps_refl|].
  cbn. eapply keeps_trans; [|apply tail_keeps].
  intros src H. cbn. unfold scheduled in *. cbn in H.
  destruct (Nat.eqb_spec src (fresh s)) as [Heq|Hne]; [rewrite Heq in *; clear Heq|].
  - left. unfold set_add. destruct (mem (fresh s) (sourcesRef (refs s))) eqn:E.
    + unfold mem in E. apply existsb_exists in E. destruct E as [x [Hx E]].
      apply Nat.eqb_eq in E. now subst.
    + apply in_or_app. right. now left.
  - right. split; [exact H|].
    intros Hin. unfold set_add. destruct (mem (fresh s) (sourcesRef (refs s))); [exact Hin|].
    apply in_or_app. now left.
Qed.

Lemma onmessage_keeps (c : nat) (m : LiveServerMessage) (now : Q) (s : Sys) :
  keeps_sources s (state_of (onmessage c m now s)).
Proof.
  unfold onmessage. apply bind_keeps.
  - apply plain_keeps. destruct (toolCall m) as [fcs|]; cbn;
      [apply for_each_plain, function_call_plain|apply plain_refl].
  - intros _ s'. cbn.
    destruct (audioData m) as [[|ch rest]|], (outputAudioCtxRef (refs s'));
      try apply tail_keeps.
    cbn. apply plain_keeps. destruct (AudioService.decode (String ch rest)); plain_tac.
Qed.

Lemma resume_keeps (t : nat) (continue : Task -> option (M unit)) (s : Sys) :
  (forall k m s', continue k = Some m -> keeps_sources s' (state_of (m s'))) ->
  keeps_sources s (state_of (resume t continue s)).
Proof.
  intros H. unfold resume. cbn.
  destruct (lookup t (tasks s)) as [k|]; [|apply keeps_refl].
  destruct (continue k) as [m|] eqn:E; [|apply keeps_refl].
  cbn. eapply keeps_trans; [|exact (H k m _ E)]. apply plain_keeps. plain_tac.
Qed.

Lemma start_acquire_plain (subject : Subject) (b : bool) (s : Sys) :
  plain s (state_of (start_acquire subject b s)).
Proof. unfold start_acquire. plain_tac. Qed.

Lemma step_keeps (e : Event) (s : Sys) :
  (forall src, e <> Source_ended src) -> keeps_sources s (step e s).
Proof.
  intros He. unfold step. destruct e; cbn [dispatch].
  - (* Click_start *) apply plain_keeps. unfold startSession. cbn.
    destruct (isConnecting (ui s)); plain_tac.
  - apply plain_keeps, stop_plain.
  - apply plain_keeps. unfold toggleMute. plain_tac.
  - apply plain_keeps. plain_tac.
  - apply plain_keeps. unfold handleSendMessage. cbn -[trim].
    destruct (trim (inputText (ui s))), (sessionRef (refs s)); plain_tac.
  - apply plain_keeps. plain_tac.
  - (* HasKey_settled *) apply resume_keeps. intros k m s' E.
    destruct k; try discriminate E. injection E as <-. apply plain_keeps.
    destruct r as [[|]|err]; cbn [after_hasKey];
      [apply start_acquire_plain|plain_tac|].
    eapply (bind_plain (log _)); [plain_tac|intros; apply start_acquire_plain].
  - (* SelectKey_settled *) apply resume_keeps. intros k m s' E.
    destruct k; try discriminate E; injection E as <-; apply plain_keeps.
    + destruct r as [[]|err]; cbn [after_selectKey]; [apply start_acquire_plain|].
      eapply (bind_plain (log _)); [plain_tac|intros; apply start_acquire_plain].
    + destruct r as [[]|err]; cbn [after_reselect]; [apply stop_plain|apply plain_refl].
  - (* UserMedia_settled *) apply resume_keeps. intros k m s' E.
    destruct k; try discriminate E. injection E as <-. apply plain_keeps.
    destruct r as [[]|err]; cbn [after_userMedia]; [plain_tac|apply start_failed_plain].
  - (* Session_settled *) apply resume_keeps. intros k m s' E.
    destruct k; try discriminate E. injection E as <-. apply plain_keeps.
    destruct r as [[]|err]; cbn [after_session].
    + cbn. eapply plain_trans; [|apply run_waiters_plain]. plain_tac.
    + cbn. eapply plain_trans; [|apply start_failed_plain]. plain_tac.
  - (* Decode_settled *) apply resume_keeps. intros k m s' E.
    destruct k; try discriminate E. injection E as <-. apply after_decode_keeps.
  - (* Channel_open *) apply plain_keeps. unfold onopen. cbn.
    destruct (lookup c (channels s)) as [ch|]; [|apply plain_refl]. cbn.
    destruct (inputAudioCtxRef (refs s)); plain_tac.
  - cbn. destruct (known c s); [apply onmessage_keeps|apply keeps_refl].
  - cbn. destruct (known c s); [|apply keeps_refl]. apply plain_keeps.
    unfold onerror. cbn. destruct (includes _ _ || includes _ _)%bool; cbn.
    + plain_tac.
    + eapply plain_trans; [|apply stop_plain]. plain_tac.
  - cbn. destruct (known c s); [apply plain_keeps, stop_plain|apply keeps_refl].
  - cbn. destruct (capturing c s); [|apply keeps_refl]. apply plain_keeps.
    unfold onaudioprocess. cbn. destruct (isMutedRef (refs s)); [apply plain_refl|].
    apply promise_then_plain.
  - exfalso. now apply (He source).
Qed.

Lemma run_snoc (es : list Event) (e : Event) (s : Sys) :
  run (es ++ [e]) s = step e (run es s).
Proof. unfold run. now rewrite fold_left_app. Qed.

Lemma set_delete_keeps (x src : nat) (l : list nat) :
  src <> x -> In src l -> In src (set_delete x l).
Proof.
  intros Hne Hin. unfold set_delete. apply filter_In. split; [exact Hin|].
  apply negb_true_iff. apply Nat.eqb_neq. congruence.
Qed.

Lemma scheduled_sources_tracked (faulty : list nat) (es : list Event) (src : nat) :
  let s := run es (initial faulty) in
  scheduled s src = true -> ended_in es src = false ->
  In src (sourcesRef (refs s)).
Proof.
  cbv zeta. induction es as [|e es IH] using rev_ind; [discriminate|].
  rewrite run_snoc. intros Hs He.
  unfold ended_in in He. rewrite existsb_app in He.
  apply orb_false_iff in He. destruct He as [He1 He2].
  cbn [existsb] in He2. rewrite orb_false_r in He2.
  set (s := run es (initial faulty)) in *.
  assert (K : (forall x, e <> Source_ended x) -> In src (sourcesRef (refs (step e s)))).
  { intros Hne. destruct (step_keeps e s Hne src Hs) as [H|[H1 H2]];
      [exact H|exact (H2 (IH H1 He1))]. }
  destruct e as [| | | | | | | | | | | | | | | |x]; try (apply K; discriminate).
  clear K. unfold step, dispatch, onended in *. cbn in *.
  apply set_delete_keeps; [now apply Nat.eqb_neq|].
  apply IH; [exact Hs|exact He1].
Qed.

Lemma tail_fresh (m : LiveServerMessage) (s : Sys) :
  fresh (state_of (onmessage_tail m s)) = fresh s.
Proof.
  unfold onmessage_tail.
  destruct (inputTranscription m), (outputTranscription m), (interrupted m); cbn;
    rewrite ?stop_all; reflexivity.
Qed.

(** A message without tool calls handled to its end: the segment it carries
    is scheduled, if it carries one and an output context is held, and then
    lines 199-211 run. *)
Lemma deliver_reaches_tail (s : Sys) (c : nat) (m : LiveServerMessage) (now : Q) :
  known c s = true -> toolCall m = None -> playable m = true ->
  exists s',
    deliver c m now s = state_of (onmessage_tail m s') /\
    suffix (calls s) (calls s') /\
    (forall src, In src (sourcesRef (refs s)) -> In src (sourcesRef (refs s'))) /\
    outputAudioCtxRef (refs s') = outputAudioCtxRef (refs s) /\
    channels s' = channels s /\
    (audioData m = None -> s' = s).
Proof.
  intros Hk Ht Hp. unfold playable in Hp.
  assert (Plain : forall s0, s0 = s ->
            step (Channel_message c m now) s = state_of (onmessage_tail m s0) ->
            exists s',
              deliver c m now s = state_of (onmessage_tail m s') /\
              suffix (calls s) (calls s') /\
              (forall src, In src (sourcesRef (refs s)) -> In src (sourcesRef (refs s'))) /\
              outputAudioCtxRef (refs s') = outputAudioCtxRef (refs s) /\
              channels s' = channels s /\
              (audioData m = None -> s' = s)).
  { intros s0 -> E. exists s. unfold deliver. rewrite E, tail_fresh, Nat.eqb_refl.
    repeat split; auto. apply suffix_refl. }
  assert (E0 : step (Channel_message c m now) s = state_of (onmessage c m now s)).
  { unfold step, dispatch. cbn. now rewrite Hk. }
  destruct (audioData m) as [[|ch rest]|] eqn:Ea.
  - apply (Plain s eq_refl). rewrite E0. unfold onmessage. rewrite Ht, Ea. cbn.
    now destruct (outputAudioCtxRef (refs s)).
  - destruct (outputAudioCtxRef (refs s)) as [ctx|] eqn:Hctx.
    2:{ apply (Plain s eq_refl). rewrite E0. unfold onmessage.
        rewrite Ht, Ea. cbn. now rewrite Hctx. }
    destruct (payload_duration (String ch rest)) as [d|] eqn:Hd; [|discriminate].
    destruct (payload_duration_decodes _ d Hd) as [_ [_ [bytes [buffer [_ [E1 [E2 E3]]]]]]].
    assert (E : step (Channel_message c m now) s =
                with_tasks (cons (fresh s, AwaitDecode c ctx bytes m))
                  (with_fresh (S (fresh s))
                     (state_of (set_nextStartTimeRef (fun t => Qmax t now) s)))).
    { rewrite E0. unfold onmessage. rewrite Ht, Ea. cbn. rewrite Hctx. cbn.
      rewrite E1. cbn. rewrite ?Hctx. reflexivity. }
    unfold deliver. rewrite E. clear E. cbn -[Nat.eqb].
    rewrite (proj2 (Nat.eqb_neq _ _) (Nat.neq_succ_diag_l (fresh s))).
    unfold step, dispatch, resume, newest_task. cbn -[Nat.eqb].
    rewrite Nat.eqb_refl. cbn -[Nat.eqb].
    rewrite ?Nat.eqb_refl. unfold after_decode. rewrite E2. cbn.
    eexists. split; [reflexivity|]. cbn.
    split; [apply suffix_cons, suffix_refl|].
    split; [|split; [exact Hctx|split; [reflexivity|discriminate]]].
    intros src Hin. unfold set_add.
    destruct (mem (S (fresh s)) (sourcesRef (refs s))); [exact Hin|].
    apply in_or_app. now left.
  - apply (Plain s eq_refl). rewrite E0. unfold onmessage. rewrite Ht, Ea. cbn.
    now destruct (outputAudioCtxRef (refs s)).
Qed.

Lemma deliver_is_run (s : Sys) (c : nat) (m : LiveServerMessage) (now : Q) :
  exists evs,
    deliver c m now s = run evs s /\ forall src, ended_in evs src = false.
Proof.
  unfold deliver. destruct (Nat.eqb _ _).
  - now exists [Channel_message c m now].
  - now exists [Channel_message c m now;
                Decode_settled (newest_task (step (Channel_message c m now) s))].
Qed.

(** C3.  A message with the interrupted flag (and no tool calls), handled to
    its end: [stop] is called on every source of [sourcesRef], whether it
    has begun to play or not, the set is left empty and [nextStartTimeRef]
    is 0; when the message carries no audio these calls, in insertion order,
    are all it adds to the log.  In a state reached from the initial one,
    every source that is still scheduled afterwards has already ended.  The
    next enqueue starts at the current output clock, which is never
    negative. *)
Theorem interrupt_flushes (s : Sys) (c : nat) (m : LiveServerMessage) (now : Q) :
  known c s = true -> interrupted m = true ->
  toolCall m = None -> playable m = true ->
  let s1 := deliver c m now s in
  (forall src, In src (sourcesRef (refs s)) -> existsb (stops src) (calls s1) = true) /\
  sourcesRef (refs s1) = [] /\
  nextStartTimeRef (refs s1) = 0%Q /\
  (audioData m = None ->
   calls s1 = (rev (map source_stop (sourcesRef (refs s))) ++ calls s)%list) /\
  (forall faulty es src,
     s = run es (initial faulty) ->
     scheduled s1 src = true -> ended_in es src = true) /\
  forall c' ctx payload d now',
    known c' s1 = true ->
    outputAudioCtxRef (refs s1) = Some ctx ->
    payload_duration payload = Some d ->
    (0 <= now')%Q ->
    exists t,
      calls (deliver c' (audio_message payload) now' s1) =
        source_start (S (fresh s1)) ctx t d :: calls s1 /\
      (t == now')%Q.
Proof.
  intros Hk Hi Ht Hp.
  destruct (deliver_reaches_tail s c m now Hk Ht Hp)
    as [s' [E [Hsuf [Hsrc [_ [_ Hsame]]]]]].
  destruct (deliver_is_run s c m now) as [evs [Erun Hevs]].
  cbv zeta. rewrite E in Erun |- *.
  destruct (tail_flushes m s' Hi) as [_ [Hc [Hs Hn]]].
  set (s1 := state_of (onmessage_tail m s')) in *.
  split.
  { intros src Hin. apply Hsrc in Hin. rewrite Hc, existsb_app.
    apply orb_true_iff. left. apply existsb_exists. exists (source_stop src). split.
    - apply in_rev. rewrite rev_involutive. now apply in_map.
    - cbn. apply Nat.eqb_refl. }
  split; [exact Hs|]. split; [exact Hn|]. split; [|split].
  - intros Ha. rewrite Hc. now rewrite (Hsame Ha).
  - intros faulty es src -> Hsched.
    destruct (ended_in es src) eqn:He; [reflexivity|exfalso].
    assert (R : s1 = run (es ++ evs) (initial faulty)).
    { rewrite Erun. unfold run. now rewrite fold_left_app. }
    assert (He' : ended_in (es ++ evs) src = false).
    { unfold ended_in in *. rewrite existsb_app, He. apply Hevs. }
    pose proof (scheduled_sources_tracked faulty (es ++ evs) src) as T.
    cbv zeta in T. rewrite <- R in T. specialize (T Hsched He').
    rewrite Hs in T. exact T.
  - intros c' ctx payload d now' Hk' Hctx Hd Hnow.
    destruct (enqueue_schedules s1 c' ctx payload d now' Hk' Hctx Hd) as [Hc' _].
    exists (Qmax (nextStartTimeRef (refs s1)) now'). split; [exact Hc'|].
    rewrite Hn. now apply Qmax_zero.
Qed.

Lemma interrupt_flushes_witness :
  let playing := deliver 5 (audio_message chirp) 3 (deliver 5 (audio_message chirp) 3 lesson) in
  let s1 := deliver 5 (mkMessage None None None None true) 4 playing in
  sourcesRef (refs playing) = [8; 10]%nat /\
  calls s1 = (source_stop 10 :: source_stop 8 :: calls playing) /\
  sourcesRef (refs s1) = [] /\
  nextStartTimeRef (refs s1) = 0%Q.
Proof.
  split; [reflexivity|].
  pose proof (interrupt_flushes
                (deliver 5 (audio_message chirp) 3 (deliver 5 (audio_message chirp) 3 lesson))
                5 (mkMessage None None None None true) 4
                eq_refl eq_refl eq_refl eq_refl)
    as [_ [H2 [H3 [H4 _]]]].
  split; [exact (H4 eq_refl)|]. split; [exact H2|exact H3].
Defined.

(** The same on a message that carries audio as well: the segment it
    brought is stopped with the others. *)
Example interrupt_with_audio :
  let playing := deliver 5 (audio_message chirp) 3 lesson in
  let s1 := deliver 5 (mkMessage None (Some chirp) None None true) 3 playing in
  sourcesRef (refs playing) = [8%nat] /\
  calls s1 =
    source_stop 10 :: source_stop 8
      :: source_start 10 2 (3 + (6 # 24000)) (6 # 24000) :: calls playing /\
  sourcesRef (refs s1) = [] /\ nextStartTimeRef (refs s1) = 0%Q.
Proof. vm_compute. repeat split. Qed.

(** ** The lifecycle *)

Lemma initial_settled (faulty : list nat) : settled (initial faulty).
Proof. constructor; cbn; try discriminate; auto. Qed.

Lemma lifecycle_settled (faulty : list nat) (s : Sys) :
  lifecycle faulty s -> settled s.
Proof.
  induction 1 as [|e s _ IH He|subject o s _ IH Hg].
  - apply initial_settled.
  - now apply event_settled.
  - now apply start_settled.
Qed.

Lemma lifecycle_wired (faulty : list nat) (s : Sys) :
  lifecycle faulty s -> wired s = true.
Proof.
  induction 1 as [|e s Hl IH He|subject o s Hl IH Hg].
  - reflexivity.
  - unfold wired.
    rewrite (effect_channels s _ (event_effect e s He (lifecycle_settled faulty s Hl))).
    exact IH.
  - unfold start_offered in Hg. apply andb_true_iff in Hg.
    destruct Hg as [_ Hc]. apply negb_true_iff in Hc.
    destruct (start_effect s subject o Hc)
      as [s0 Hq ->|s0 c m Hch _ _ _ _ _ Hq|s0 c m Hch _ _ _ _ ->]; unfold wired in *.
    + destruct (stop_frame s0) as [_ [_ [Hch _]]].
      now rewrite Hch, (quiet_channels s s0 Hq).
    + rewrite (quiet_channels _ _ Hq), Hch. cbn. exact IH.
    + destruct (stop_frame s0) as [_ [_ [Hc0 _]]]. rewrite Hc0, Hch. cbn. exact IH.
Qed.




(** ** The mute flags, the transcripts and the schedule over every trace *)

Lemma append_empty (a : string) : a ++ "" = a.
Proof. induction a as [|c a IH]; cbn; [reflexivity|now rewrite IH]. Qed.

Lemma append_append (a b c : string) : (a ++ b) ++ c = a ++ (b ++ c).
Proof. induction a as [|x a IH]; cbn; [reflexivity|now rewrite IH]. Qed.

Lemma grows_refl (a b : string) : a = b -> exists added, a = b ++ added.
Proof. intros ->. exists "". now rewrite append_empty. Qed.

Lemma calm_start_times (r l : list Call) :
  calm r l -> flat_map start_time_of l = flat_map start_time_of r.
Proof.
  induction 1 as [|x l Hx _ IH]; [reflexivity|].
  cbn. rewrite IH. now destruct x.
Qed.

Lemma mild_trans (a b c : list Call) : mild a b -> mild b c -> mild a c.
Proof. intros H1 H2. induction H2; [exact H1|]. now apply mild_cons. Qed.

Lemma mild_calm (r l : list Call) : mild r l -> calm r l.
Proof.
  induction 1 as [|x l Hx _ IH]; [apply calm_refl|].
  apply calm_cons; [now destruct x|exact IH].
Qed.

Lemma steady_refl (s : Sys) : steady s s.
Proof.
  constructor; try reflexivity; [now left|apply mild_refl].
Qed.

Lemma steady_trans (a b c : Sys) : steady a b -> steady b c -> steady a c.
Proof.
  intros [A0 Ac A1 A2 A3 A4 A5 A6 A7 A8] [B0 Bc B1 B2 B3 B4 B5 B6 B7 B8].
  constructor; try congruence.
  - destruct Bc as [Bc|Bc]; [rewrite Bc; exact Ac|now right].
  - exact (mild_trans _ _ _ A7 B7).
  - exact (Nat.le_trans _ _ _ A8 B8).
Qed.

Ltac steady_tac :=
  constructor; cbn;
  [reflexivity
  |first [left; reflexivity | right; reflexivity]
  |reflexivity|reflexivity|reflexivity|reflexivity|reflexivity|reflexivity
  |repeat first [apply mild_refl | apply mild_cons; [reflexivity|]]
  |lia].

Lemma steady_start_times (s s' : Sys) : steady s s' -> start_times s' = start_times s.
Proof.
  intros H. unfold start_times.
  now rewrite (calm_start_times _ _ (mild_calm _ _ (steady_calls _ _ H))).
Qed.

Lemma bind_steady {A} (m : M A) (k : A -> M unit) (s : Sys) :
  steady s (state_of (m s)) ->
  (forall a s', steady s' (state_of (k a s'))) ->
  steady s (state_of (bind m k s)).
Proof.
  intros Hm Hk. cbn. destruct (m s) as [a s'|e s']; cbn [state_of] in *.
  - eapply steady_trans; [exact Hm|apply Hk].
  - exact Hm.
Qed.

Lemma for_each_steady {A} (f : A -> M unit) (l : list A) :
  (forall a s, steady s (state_of (f a s))) ->
  forall s, steady s (state_of (for_each l f s)).
Proof.
  intros Hf. induction l as [|a l IH]; intros s; [apply steady_refl|].
  rewrite for_each_cons. pose proof (Hf a s) as H.
  destruct (f a s) as [[] s'|e s']; cbn [state_of] in *.
  - eapply steady_trans; [exact H|apply IH].
  - exact H.
Qed.

Lemma promise_then_steady (c : nat) (cb : ThenCallback) (s : Sys) :
  steady s (state_of (promise_then c cb s)).
Proof.
  unfold promise_then. cbn.
  destruct (lookup c (channels s)) as [ch|]; [|apply steady_refl].
  destruct (ch_promise ch); [| destruct cb |]; steady_tac.
Qed.

Lemma function_call_steady (c : nat) (fc : FunctionCall) (s : Sys) :
  steady s (state_of (on_function_call c fc s)).
Proof.
  unfold on_function_call.
  destruct (names_prompt_tool fc); [|apply steady_refl].
  destruct (fc_args fc) as [args|]; [|apply steady_refl].
  cbn. eapply steady_trans; [|apply promise_then_steady]. steady_tac.
Qed.

Lemma run_waiters_steady (c : nat) (s : Sys) : steady s (state_of (run_waiters c s)).
Proof.
  unfold run_waiters. cbn.
  eapply steady_trans; [|apply for_each_steady]; [steady_tac|].
  intros [c' cb] s'. destruct cb; steady_tac.
Qed.

Lemma start_acquire_steady (subject : Subject) (b : bool) (s : Sys) :
  steady s (state_of (start_acquire subject b s)).
Proof. unfold start_acquire. steady_tac. Qed.

(** What [stopSession] does to the fields a steady handler leaves alone. *)
Lemma stop_footprint (s : Sys) :
  let s1 := state_of (stopSession s) in
  selectedSubject (ui s1) = selectedSubject (ui s) /\ isConnecting (ui s1) = false /\
  isMuted (ui s1) = false /\ isMutedRef (refs s1) = false /\
  userTranscription (ui s1) = userTranscription (ui s) /\
  modelTranscription (ui s1) = modelTranscription (ui s) /\
  nextStartTimeRef (refs s1) = nextStartTimeRef (refs s) /\
  sourcesRef (refs s1) = sourcesRef (refs s) /\
  start_times s1 = start_times s.
Proof. cbv zeta. repeat split; stop_cases s; reflexivity. Qed.

Lemma just_steady (s s' : Sys) : steady s s' -> steady_then_maybe_stop s s'.
Proof. intros H. exists s'. split; [exact H|now left]. Qed.

Lemma steady_then_stop (s s0 : Sys) :
  steady s s0 -> steady_then_maybe_stop s (state_of (stopSession s0)).
Proof. intros H. exists s0. split; [exact H|now right]. Qed.

Lemma resume_steady (t : nat) (continue : Task -> option (M unit)) (s : Sys) :
  (forall k m s', continue k = Some m -> steady_then_maybe_stop s' (state_of (m s'))) ->
  steady_then_maybe_stop s (state_of (resume t continue s)).
Proof.
  intros H. unfold resume. cbn.
  destruct (lookup t (tasks s)) as [k|]; [|apply just_steady, steady_refl].
  destruct (continue k) as [m|] eqn:E; [|apply just_steady, steady_refl].
  cbn. destruct (H k m (with_tasks (remove t) s) E) as [s0 [H0 H1]].
  exists s0. split; [|exact H1].
  eapply steady_trans; [|exact H0]. steady_tac.
Qed.

Lemma start_failed_steady (err : JsError) (s : Sys) :
  steady_then_maybe_stop s (state_of (start_failed err s)).
Proof. unfold start_failed. cbn. apply steady_then_stop. steady_tac. Qed.

Lemma control_effect (e : Event) (s : Sys) :
  control_event e = true -> steady_then_maybe_stop s (step e s).
Proof.
  intros He. destruct e; try discriminate He; clear He; unfold step; cbn [dispatch].
  - (* Click_finish *) apply steady_then_stop, steady_refl.
  - (* Change_input *) apply just_steady. steady_tac.
  - (* Dismiss_error *) apply just_steady. steady_tac.
  - (* HasKey_settled *) apply resume_steady. intros k m s' E.
    destruct k; try discriminate E. injection E as <-. apply just_steady.
    destruct r as [[|]|err]; cbn [after_hasKey];
      [apply start_acquire_steady|steady_tac|].
    eapply (bind_steady (log _)); [steady_tac|intros; apply start_acquire_steady].
  - (* SelectKey_settled *) apply resume_steady. intros k m s' E.
    destruct k; try discriminate E; injection E as <-.
    + apply just_steady.
      destruct r as [[]|err]; cbn [after_selectKey]; [apply start_acquire_steady|].
      eapply (bind_steady (log _)); [steady_tac|intros; apply start_acquire_steady].
    + destruct r as [[]|err]; cbn [after_reselect];
        [apply steady_then_stop|apply just_steady]; apply steady_refl.
  - (* UserMedia_settled *) apply resume_steady. intros k m s' E.
    destruct k; try discriminate E. injection E as <-.
    destruct r as [[]|err]; cbn [after_userMedia];
      [apply just_steady; steady_tac|apply start_failed_steady].
  - (* Session_settled *) apply resume_steady. intros k m s' E.
    destruct k; try discriminate E. injection E as <-.
    destruct r as [[]|err]; cbn [after_session].
    + apply just_steady. cbn.
      eapply steady_trans; [|apply run_waiters_steady]. steady_tac.
    + cbn.
      match goal with
      | |- steady_then_maybe_stop _ (state_of (start_failed _ ?y)) =>
          destruct (start_failed_steady err y) as [s0 [H0 H1]]
      end.
      exists s0. split; [|exact H1].
      eapply steady_trans; [|exact H0]. steady_tac.
  - (* Channel_open *) apply just_steady. unfold onopen. cbn.
    destruct (lookup c (channels s)) as [ch|]; [|apply steady_refl]. cbn.
    destruct (inputAudioCtxRef (refs s)); steady_tac.
  - (* Channel_error *) cbn. destruct (known c s); [|apply just_steady, steady_refl].
    unfold onerror. cbn. destruct (includes _ _ || includes _ _)%bool; cbn.
    + apply just_steady. steady_tac.
    + apply steady_then_stop. steady_tac.
  - (* Channel_close *) cbn. destruct (known c s); [|apply just_steady, steady_refl].
    apply steady_then_stop, steady_refl.
  - (* Audio_process *) cbn. destruct (capturing c s); [|apply just_steady, steady_refl].
    apply just_steady.
    unfold onaudioprocess. cbn. destruct (isMutedRef (refs s)); [apply steady_refl|].
    apply promise_then_steady.
Qed.

Lemma steady_streams (s s' : Sys) : steady s s' -> streams s s'.
Proof.
  intros H. destruct H as [H0 Hc H1 H2 H3 H4 H5 H6 H7 H8] eqn:E.
  constructor; try assumption; try (now apply grows_refl).
  unfold temporal. rewrite H5, (steady_start_times s s' H). tauto.
Qed.

Lemma streams_refl (s : Sys) : streams s s.
Proof. apply steady_streams, steady_refl. Qed.

Lemma streams_trans (a b c : Sys) : streams a b -> streams b c -> streams a c.
Proof.
  intros [A0 Ac A1 A2 [u A3] [v A4] A5] [B0 Bc B1 B2 [u' B3] [v' B4] B5].
  constructor; try congruence; try tauto.
  - destruct Bc as [Bc|Bc]; [rewrite Bc; exact Ac|now right].
  - exists (u ++ u'). now rewrite B3, A3, append_append.
  - exists (v ++ v'). now rewrite B4, A4, append_append.
Qed.

Lemma bind_streams {A} (m : M A) (k : A -> M unit) (s : Sys) :
  streams s (state_of (m s)) ->
  (forall a s', streams s' (state_of (k a s'))) ->
  streams s (state_of (bind m k s)).
Proof.
  intros Hm Hk. cbn. destruct (m s) as [a s'|e s']; cbn [state_of] in *.
  - eapply streams_trans; [exact Hm|apply Hk].
  - exact Hm.
Qed.

Ltac tail_cases m :=
  unfold onmessage_tail, append_fragment;
  destruct (inputTranscription m), (outputTranscription m), (interrupted m);
  cbn; rewrite ?stop_all; cbn.

Lemma tail_streams (m : LiveServerMessage) (s : Sys) :
  streams s (state_of (onmessage_tail m s)).
Proof.
  pose proof (tail_keeps_schedule m s) as [_ [Ht _]].
  assert (Hn : nextStartTimeRef (refs (state_of (onmessage_tail m s))) =
               nextStartTimeRef (refs s) \/
               nextStartTimeRef (refs (state_of (onmessage_tail m s))) = 0%Q)
    by (tail_cases m; tauto).
  constructor.
  - tail_cases m; reflexivity.
  - left. tail_cases m; reflexivity.
  - tail_cases m; reflexivity.
  - tail_cases m; reflexivity.
  - tail_cases m; first [eexists; reflexivity | now apply grows_refl].
  - tail_cases m; first [eexists; reflexivity | now apply grows_refl].
  - unfold temporal. rewrite Ht. intros [T1 T2]. split; [|exact T2].
    destruct Hn as [-> | ->]; [exact T1|apply Qle_refl].
Qed.

Lemma Qmax_nonneg (t now : Q) : (0 <= t)%Q -> (0 <= Qmax t now)%Q.
Proof. intros H. eapply Qle_trans; [exact H|apply Q.le_max_l]. Qed.

Lemma onmessage_streams (c : nat) (m : LiveServerMessage) (now : Q) (s : Sys) :
  streams s (state_of (onmessage c m now s)).
Proof.
  unfold onmessage. apply bind_streams.
  - apply steady_streams.
    destruct (toolCall m) as [fcs|]; cbn; [|apply steady_refl].
    apply for_each_steady. intros; apply function_call_steady.
  - intros _ s'. cbn.
    destruct (audioData m) as [[|ch rest]|], (outputAudioCtxRef (refs s'));
      try apply tail_streams.
    assert (K : forall s'',
               steady (state_of (set_nextStartTimeRef (fun t => Qmax t now) s')) s'' ->
               streams s' s'').
    { intros s'' H. pose proof (steady_streams _ _ H) as [H0 Hc H1 H2 H3 H4 _].
      constructor; try assumption.
      unfold temporal. rewrite (steady_start_times _ _ H), (steady_cursor _ _ H).
      cbn. intros [T1 T2]. split; [now apply Qmax_nonneg|exact T2]. }
    cbn. destruct (AudioService.decode (String ch rest)); cbn; apply K; steady_tac.
Qed.

Lemma buffer_duration_nonneg (bytes : list Z) (rate : Z) (buffer : AudioService.AudioBuffer) :
  (0 < rate)%Z ->
  AudioService.decodeAudioData bytes rate 1 = inr buffer ->
  (0 <= AudioService.duration buffer)%Q.
Proof.
  intros Hr E. unfold AudioService.decodeAudioData in E.
  destruct bytes as [|b0 bytes]; [discriminate|].
  destruct (AudioService.unpack (b0 :: bytes)) as [vs|]; [|discriminate].
  injection E as <-. unfold AudioService.duration.
  cbn [AudioService.samples AudioService.sampleRate].
  unfold Qle, Qdiv, Qmult, Qinv, inject_Z. destruct rate; try lia. cbn. lia.
Qed.

Lemma after_decode_streams (ctx : nat) (bytes : list Z) (m : LiveServerMessage) (s : Sys) :
  streams s (state_of (after_decode ctx bytes m s)).
Proof.
  unfold after_decode.
  destruct (AudioService.decodeAudioData bytes 24000 1) as [?|buffer] eqn:E;
    [apply streams_refl|].
  pose proof (buffer_duration_nonneg bytes 24000 buffer eq_refl E) as Hd.
  cbn. eapply streams_trans; [|apply tail_streams].
  constructor; cbn; try reflexivity; try (now apply grows_refl); [now left|].
  unfold temporal, start_times. cbn. intros [T1 T2]. split.
  - rewrite <- (Qplus_0_r 0). now apply Qplus_le_compat.
  - apply Forall_app. split; [exact T2|]. constructor; [exact T1|constructor].
Qed.

Lemma resume_streams (t : nat) (continue : Task -> option (M unit)) (s : Sys) :
  (forall k m s', continue k = Some m -> streams s' (state_of (m s'))) ->
  streams s (state_of (resume t continue s)).
Proof.
  intros H. unfold resume. cbn.
  destruct (lookup t (tasks s)) as [k|]; [|apply streams_refl].
  destruct (continue k) as [m|] eqn:E; [|apply streams_refl].
  cbn. eapply streams_trans; [|exact (H k m _ E)]. apply steady_streams. steady_tac.
Qed.

Lemma audio_event_streams (e : Event) (s : Sys) :
  audio_event e = true -> streams s (step e s).
Proof.
  intros He. destruct e; try discriminate He; unfold step; cbn [dispatch].
  - apply resume_streams. intros k m s' E.
    destruct k; try discriminate E. injection E as <-. apply after_decode_streams.
  - cbn. destruct (known c s); [apply onmessage_streams|apply streams_refl].
  - unfold onended.
    constructor; cbn; try reflexivity; try (now apply grows_refl); [now left|tauto].
Qed.

(** The playback cursor, [sourcesRef] and the start times handed out so far
    are only touched by the events that handle audio. *)
Lemma step_timeline (e : Event) (s : Sys) :
  audio_event e = false ->
  nextStartTimeRef (refs (step e s)) = nextStartTimeRef (refs s) /\
  sourcesRef (refs (step e s)) = sourcesRef (refs s) /\
  start_times (step e s) = start_times s.
Proof.
  intros He. destruct (control_event e) eqn:Ec.
  { destruct (control_effect e s Ec) as [s0 [H0 [-> | ->]]];
      [|destruct (stop_footprint s0) as [_ [_ [_ [_ [_ [_ [-> [-> ->]]]]]]]]];
      rewrite (steady_cursor _ _ H0), (steady_sources _ _ H0),
        (steady_start_times _ _ H0); repeat split. }
  destruct e; try discriminate He; try discriminate Ec; unfold step; cbn [dispatch].
  - unfold startSession. cbn. destruct (isConnecting (ui s)); repeat split.
  - unfold toggleMute. repeat split.
  - unfold handleSendMessage. cbn -[trim].
    destruct (trim (inputText (ui s))), (sessionRef (refs s)); repeat split.
Qed.

Lemma step_agreement (e : Event) (s : Sys) : agreement s -> agreement (step e s).
Proof.
  unfold agreement. intros Ha.
  destruct (audio_event e) eqn:Ea.
  { destruct (audio_event_streams e s Ea) as [_ _ H1 H2 _ _ _]. congruence. }
  destruct (control_event e) eqn:Ec.
  { destruct (control_effect e s Ec) as [s0 [H0 [-> | ->]]].
    - rewrite (steady_muted _ _ H0), (steady_mutedRef _ _ H0). exact Ha.
    - destruct (stop_footprint s0) as [_ [_ [-> [-> _]]]]. reflexivity. }
  destruct e; try discriminate Ea; try discriminate Ec; unfold step; cbn [dispatch].
  - unfold startSession. cbn. destruct (isConnecting (ui s)); [exact Ha|reflexivity].
  - unfold toggleMute. reflexivity.
  - unfold handleSendMessage. cbn -[trim].
    destruct (trim (inputText (ui s))), (sessionRef (refs s)); exact Ha.
Qed.

Lemma step_temporal (e : Event) (s : Sys) : temporal s -> temporal (step e s).
Proof.
  intros Ht. destruct (audio_event e) eqn:Ea.
  - exact (streams_schedule _ _ (audio_event_streams e s Ea) Ht).
  - destruct (step_timeline e s Ea) as [H1 [_ H2]].
    unfold temporal. now rewrite H1, H2.
Qed.

Lemma step_grows (e : Event) (s : Sys) :
  is_start e = false ->
  (exists added,
     userTranscription (ui (step e s)) = userTranscription (ui s) ++ added) /\
  (exists added,
     modelTranscription (ui (step e s)) = modelTranscription (ui s) ++ added).
Proof.
  intros He.
  destruct (audio_event e) eqn:Ea.
  { destruct (audio_event_streams e s Ea) as [_ _ _ _ H3 H4 _]. now split. }
  destruct (control_event e) eqn:Ec.
  { destruct (control_effect e s Ec) as [s0 [H0 [-> | ->]]];
      [|destruct (stop_footprint s0) as [_ [_ [_ [_ [-> [-> _]]]]]]];
      rewrite (steady_user _ _ H0), (steady_model _ _ H0);
      split; now apply grows_refl. }
  destruct e; try discriminate Ea; try discriminate Ec; try discriminate He.
  - unfold step, dispatch, toggleMute. split; now apply grows_refl.
  - unfold step, dispatch, handleSendMessage. cbn -[trim].
    destruct (trim (inputText (ui s))) as [|a t] eqn:E, (sessionRef (refs s)); cbn;
      split; try (now apply grows_refl).
    eexists. reflexivity.
Qed.

(** [selectedSubject] is only written by a click on a subject, and
    [isConnecting] is only raised by one. *)
Lemma step_heading (e : Event) (s : Sys) :
  is_start e = false ->
  selectedSubject (ui (step e s)) = selectedSubject (ui s) /\
  (isConnecting (ui (step e s)) = isConnecting (ui s) \/
   isConnecting (ui (step e s)) = false).
Proof.
  intros He.
  destruct (audio_event e) eqn:Ea.
  { destruct (audio_event_streams e s Ea) as [H0 Hc _ _ _ _ _]. now split. }
  destruct (control_event e) eqn:Ec.
  { destruct (control_effect e s Ec) as [s0 [H0 [-> | ->]]].
    - split; [exact (steady_subject _ _ H0)|exact (steady_connecting _ _ H0)].
    - destruct (stop_footprint s0) as [-> [-> _]].
      split; [exact (steady_subject _ _ H0)|now right]. }
  destruct e; try discriminate Ea; try discriminate Ec; try discriminate He.
  - unfold step, dispatch, toggleMute. split; [reflexivity|now left].
  - unfold step, dispatch, handleSendMessage. cbn -[trim].
    destruct (trim (inputText (ui s))), (sessionRef (refs s)); cbn;
      split; try reflexivity; now left.
Qed.

Lemma run_agreement (faulty : list nat) (es : list Event) :
  agreement (run es (initial faulty)).
Proof.
  induction es as [|e es IH] using rev_ind; [reflexivity|].
  rewrite run_snoc. now apply step_agreement.
Qed.

(** X1.  Whatever happened since the page was loaded, the mute flag the
    page shows ([isMuted]) and the one the capture callback reads
    ([isMutedRef]) are equal: the three handlers that write one write the
    other.  So a captured frame is dropped exactly when the page shows the
    microphone as off, and handed to the session promise otherwise. *)
Theorem mute_flags_agree (faulty : list nat) (es : list Event) :
  let s := run es (initial faulty) in
  isMutedRef (refs s) = isMuted (ui s) /\
  forall c frame,
    onaudioprocess c frame s =
      if isMuted (ui s) then Ret tt s
      else promise_then c (SendMedia (AudioService.createBlob frame)) s.
Proof.
  cbv zeta. pose proof (run_agreement faulty es) as H. unfold agreement in H.
  split; [exact H|]. intros c frame. unfold onaudioprocess. cbn. rewrite H.
  now destruct (isMuted (ui (run es (initial faulty)))).
Qed.

(** X2.  In every state the component can reach, [toggleMute] returns
    normally and inverts the flag the page shows, and a second [toggleMute]
    gives back exactly the state before the first. *)
Theorem toggle_twice_restores (faulty : list nat) (es : list Event) :
  let s := run es (initial faulty) in
  toggleMute s = Ret tt (state_of (toggleMute s)) /\
  isMuted (ui (state_of (toggleMute s))) = negb (isMuted (ui s)) /\
  toggleMute (state_of (toggleMute s)) = Ret tt s.
Proof.
  cbv zeta. pose proof (run_agreement faulty es) as H. unfold agreement in H.
  destruct (run es (initial faulty)) as [[? ? ? ? ? mu ? ? ?] [? ? ? ? ? ? mref] ? ? ? ? ? ?].
  cbn in *. subst mref. unfold toggleMute. cbn. rewrite negb_involutive. repeat split.
Qed.

(** X3.  Whatever happened since the page was loaded, and whatever the
    output clock read when a message arrived, the playback cursor
    [nextStartTimeRef] is not negative and no buffer source was handed a
    negative start time. *)
Theorem schedule_never_negative (faulty : list nat) (es : list Event) :
  let s := run es (initial faulty) in
  (0 <= nextStartTimeRef (refs s))%Q /\
  Forall (fun t => (0 <= t)%Q) (start_times s).
Proof.
  cbv zeta. change (temporal (run es (initial faulty))).
  induction es as [|e es IH] using rev_ind.
  - split; [apply Qle_refl|constructor].
  - rewrite run_snoc. now apply step_temporal.
Qed.

(** X4.  Between two clicks on a subject the transcripts are append-only:
    over any sequence of events without such a click, from any state, what
    the page shows of the student and of the tutor afterwards begins with
    what it showed before.  Finishing the lesson does not clear them. *)
Theorem transcripts_only_grow (es : list Event) (s : Sys) :
  forallb (fun e => negb (is_start e)) es = true ->
  (exists added,
     userTranscription (ui (run es s)) = userTranscription (ui s) ++ added) /\
  (exists added,
     modelTranscription (ui (run es s)) = modelTranscription (ui s) ++ added).
Proof.
  induction es as [|e es IH] using rev_ind; intros H.
  - split; now apply grows_refl.
  - rewrite forallb_app in H. apply andb_true_iff in H. destruct H as [H1 H2].
    cbn in H2. rewrite andb_true_r in H2. apply negb_true_iff in H2.
    rewrite run_snoc. destruct (IH H1) as [[u Hu] [v Hv]].
    destruct (step_grows e (run es s) H2) as [[u' Hu'] [v' Hv']].
    split.
    + exists (u ++ u'). now rewrite Hu', Hu, append_append.
    + exists (v ++ v'). now rewrite Hv', Hv, append_append.
Qed.

Lemma transcripts_only_grow_witness :
  let heard := mkMessage None None (Some (mkTranscription (Some "namaste")))
                 (Some (mkTranscription (Some "Syabash!"))) false in
  let es := [Channel_message 5 heard 0; Change_input " two plus two ";
             Submit_input; Click_mute; Click_finish] in
  forallb (fun e => negb (is_start e)) es = true /\
  userTranscription (ui (run es lesson)) = " namaste [Typed: two plus two]" /\
  (exists added,
     userTranscription (ui (run es lesson)) = userTranscription (ui lesson) ++ added) /\
  (exists added,
     modelTranscription (ui (run es lesson)) = modelTranscription (ui lesson) ++ added).
Proof.
  cbv zeta. split; [reflexivity|]. split; [reflexivity|].
  apply (transcripts_only_grow
           [Channel_message 5
              (mkMessage None None (Some (mkTranscription (Some "namaste")))
                 (Some (mkTranscription (Some "Syabash!"))) false) 0;
            Change_input " two plus two "; Submit_input; Click_mute; Click_finish]
           lesson).
  reflexivity.
Defined.

(** X5.  The playback timeline outlives the session: over any sequence of
    events that are not an inbound message, the end of a decoding or the end
    of a buffer source (so over Finish, a new start with all its awaits, a
    channel error or close), [nextStartTimeRef], [sourcesRef] and the start
    times handed out stay what they were.  Neither [stopSession] nor
    [startSession] resets the cursor or stops a playing source. *)
Theorem timeline_outlives_session (es : list Event) (s : Sys) :
  forallb (fun e => negb (audio_event e)) es = true ->
  nextStartTimeRef (refs (run es s)) = nextStartTimeRef (refs s) /\
  sourcesRef (refs (run es s)) = sourcesRef (refs s) /\
  start_times (run es s) = start_times s.
Proof.
  induction es as [|e es IH] using rev_ind; intros H.
  - repeat split.
  - rewrite forallb_app in H. apply andb_true_iff in H. destruct H as [H1 H2].
    cbn in H2. rewrite andb_true_r in H2. apply negb_true_iff in H2.
    rewrite run_snoc. destruct (IH H1) as [<- [<- <-]].
    exact (step_timeline e (run es s) H2).
Qed.

Lemma timeline_outlives_session_witness :
  let playing := deliver 5 (audio_message chirp) 3 lesson in
  let es := [Click_finish; Click_start English; HasKey_settled 9 (Fulfilled true);
             UserMedia_settled 12 (Fulfilled tt); Channel_open 14;
             Session_settled 15 (Fulfilled tt)] in
  sessionRef (refs (run es playing)) = Some 14%nat /\
  sourcesRef (refs playing) = [8%nat] /\
  nextStartTimeRef (refs (run es playing)) = nextStartTimeRef (refs playing) /\
  sourcesRef (refs (run es playing)) = sourcesRef (refs playing) /\
  start_times (run es playing) = start_times playing.
Proof.
  cbv zeta. split; [reflexivity|]. split; [reflexivity|].
  apply (timeline_outlives_session
           [Click_finish; Click_start English; HasKey_settled 9 (Fulfilled true);
            UserMedia_settled 12 (Fulfilled tt); Channel_open 14;
            Session_settled 15 (Fulfilled tt)]
           (deliver 5 (audio_message chirp) 3 lesson)).
  reflexivity.
Defined.

(** ** Stopping and sending *)

Lemma stop_release_calls (s : Sys) :
  calls (state_of (stopSession s)) = (release_calls (refs s) ++ calls s)%list.
Proof. stop_cases s; reflexivity. Qed.

(** X7.  [stopSession] makes exactly one releasing call for each thing the
    refs hold, in this order: [close()] on the session, on the input
    context, on the output context, and [stop()] on the microphone tracks;
    a [close()] that throws on the session does not prevent the others.  It
    stops no buffer source, clears the text being typed, and leaves both
    transcripts, the error message, the selected subject, [sourcesRef] and
    the playback cursor as they were. *)
Theorem stop_releases (s : Sys) :
  let s1 := state_of (stopSession s) in
  calls s1 = (release_calls (refs s) ++ calls s)%list /\
  inputText (ui s1) = "" /\
  userTranscription (ui s1) = userTranscription (ui s) /\
  modelTranscription (ui s1) = modelTranscription (ui s) /\
  errorMsg (ui s1) = errorMsg (ui s) /\
  selectedSubject (ui s1) = selectedSubject (ui s) /\
  sourcesRef (refs s1) = sourcesRef (refs s) /\
  nextStartTimeRef (refs s1) = nextStartTimeRef (refs s).
Proof. cbv zeta. stop_cases s; repeat split. Qed.

(** X6.  [handleSendMessage] returns normally and changes nothing when the
    trimmed input is empty or no session is held.  Otherwise it sends the
    trimmed text once on the held session, appends it to the student's
    transcript between the typed markers, clears the input and leaves the
    refs alone.  Either way a second submit right after it does nothing: a
    text is never sent twice. *)
Theorem send_once (s : Sys) :
  let s1 := state_of (handleSendMessage s) in
  let textToSend := trim (inputText (ui s)) in
  handleSendMessage s = Ret tt s1 /\
  handleSendMessage s1 = Ret tt s1 /\
  match sessionRef (refs s), textToSend with
  | Some c, String _ _ =>
      calls s1 = sendRealtimeInput_text c textToSend :: calls s /\
      userTranscription (ui s1) =
        userTranscription (ui s) ++ " [Typed: " ++ textToSend ++ "]" /\
      inputText (ui s1) = "" /\
      refs s1 = refs s
  | _, _ => s1 = s
  end.
Proof.
  cbv zeta. unfold handleSendMessage. cbn -[trim].
  destruct (trim (inputText (ui s))) as [|a t] eqn:E, (sessionRef (refs s)) as [c|] eqn:F;
    cbn -[trim]; rewrite ?E, ?F; repeat split.
Qed.

(** ** Callbacks that fail *)

(** X14.  When [onopen] runs for a channel after the input context has been
    given up, it switches the page to the lesson view and out of
    Connecting, and then throws on the context: no capture pipeline is
    installed, no call is made, and the refs still hold nothing more than
    before. *)
Theorem onopen_without_context (s : Sys) (c : nat) :
  known c s = true -> inputAudioCtxRef (refs s) = None ->
  let s1 := state_of (onopen c s) in
  returns (onopen c s) = false /\
  isActive (ui s1) = true /\ isConnecting (ui s1) = false /\
  calls s1 = calls s /\ channels s1 = channels s /\ refs s1 = refs s.
Proof.
  unfold known, onopen. intros Hk Hc. cbn.
  destruct (lookup c (channels s)); [|discriminate]. cbn. rewrite Hc. repeat split.
Qed.

Lemma onopen_without_context_witness :
  let stopped := step Click_finish lesson in
  let s1 := state_of (onopen 5 stopped) in
  known 5 stopped = true /\ inputAudioCtxRef (refs stopped) = None /\
  returns (onopen 5 stopped) = false /\
  isActive (ui s1) = true /\ isConnecting (ui s1) = false /\
  calls s1 = calls stopped /\ channels s1 = channels stopped /\ refs s1 = refs stopped.
Proof.
  cbv zeta. split; [reflexivity|]. split; [reflexivity|].
  apply (onopen_without_context (step Click_finish lesson) 5); reflexivity.
Defined.

Lemma for_each_app {A} (l1 l2 : list A) (f : A -> M unit) (s : Sys) :
  for_each (l1 ++ l2) f s =
    match for_each l1 f s with
    | Ret _ s' => for_each l2 f s'
    | Throw e s' => Throw e s'
    end.
Proof.
  revert s. induction l1 as [|a l1 IH]; intros s; [reflexivity|].
  cbn [app]. rewrite !for_each_cons. destruct (f a s) as [[] s'|e s']; [apply IH|reflexivity].
Qed.

(** X12.  A call of the [displayTargetWord] tool that carries no arguments
    makes [onmessage] throw at the destructuring of line 167.  The calls
    before it in the same message have been shown and acknowledged; the
    call itself and every call after it are neither shown nor acknowledged,
    and the audio, the transcriptions and the interrupted flag of the
    message are not handled. *)
Theorem call_without_arguments_aborts
    (s : Sys) (c : nat) (m : LiveServerMessage) (now : Q)
    (before after : list FunctionCall) (fc : FunctionCall) :
  ready s c = true ->
  toolCall m = Some (before ++ fc :: after)%list ->
  forallb (fun fc => implb (names_prompt_tool fc) (carries_args fc)) before = true ->
  names_prompt_tool fc = true -> fc_args fc = None ->
  onmessage c m now s =
    Throw "TypeError: cannot destructure fc.args"
      (with_calls
         (app (rev (map (acknowledgment c) (filter names_prompt_tool before))))
         (shows (last_prompt before (targetWord (ui s))) s)).
Proof.
  intros Hr Ht Hb Hn Ha. unfold onmessage. rewrite Ht.
  unfold bind at 1. unfold with_some. rewrite for_each_app, (function_call_loop c before s Hr Hb).
  rewrite for_each_cons. unfold on_function_call. rewrite Hn, Ha. reflexivity.
Qed.

Lemma call_without_arguments_aborts_witness :
  let first := mkCall (Some "call-1") (Some "displayTargetWord")
                 (Some (mkTargetWord "nine" "English")) in
  let broken := mkCall (Some "call-2") (Some "displayTargetWord") None in
  let last := mkCall (Some "call-3") (Some "displayTargetWord")
                (Some (mkTargetWord "ten" "English")) in
  let m := mkMessage (Some [first; broken; last]) (Some chirp)
             (Some (mkTranscription (Some "nine"))) None true in
  onmessage 5 m 0 lesson =
    Throw "TypeError: cannot destructure fc.args"
      (with_calls (cons (acknowledgment 5 first))
         (shows (Some (mkTargetWord "nine" "English")) lesson)).
Proof.
  cbv zeta.
  apply (call_without_arguments_aborts lesson 5 _ 0
           [mkCall (Some "call-1") (Some "displayTargetWord")
              (Some (mkTargetWord "nine" "English"))]
           [mkCall (Some "call-3") (Some "displayTargetWord")
              (Some (mkTargetWord "ten" "English"))]
           (mkCall (Some "call-2") (Some "displayTargetWord") None));
    reflexivity.
Defined.

(** X11.  An audio payload that does not decode to a buffer makes the
    handling of its message throw, at the unwrapping or at the building of
    the buffer.  While an output context is held, all that remains of such a
    message (without tool calls) is the cursor raised to the clock: no
    buffer source is started, the transcriptions it carries are not
    appended, and its interrupted flag does not flush the sources. *)
Theorem undecodable_audio_drops_message
    (s : Sys) (c ctx : nat) (m : LiveServerMessage) (a : ascii) (rest : string) (now : Q) :
  known c s = true -> outputAudioCtxRef (refs s) = Some ctx ->
  toolCall m = None -> audioData m = Some (String a rest) ->
  payload_duration (String a rest) = None ->
  let s1 := deliver c m now s in
  ui s1 = ui s /\ calls s1 = calls s /\ tasks s1 = tasks s /\
  sourcesRef (refs s1) = sourcesRef (refs s) /\
  nextStartTimeRef (refs s1) = Qmax (nextStartTimeRef (refs s)) now.
Proof.
  intros Hk Hctx Ht Ha Hp. unfold payload_duration in Hp.
  unfold deliver, step, dispatch, onmessage. cbn -[Nat.eqb]. rewrite Hk, Ht, Ha.
  cbn -[Nat.eqb]. rewrite Hctx. cbn -[Nat.eqb].
  destruct (AudioService.decode (String a rest)) as [err|bytes]; cbn -[Nat.eqb].
  - rewrite Nat.eqb_refl. repeat split.
  - rewrite (proj2 (Nat.eqb_neq _ _) (Nat.neq_succ_diag_l (fresh s))).
    unfold step, dispatch, resume, newest_task. cbn -[Nat.eqb].
    rewrite Nat.eqb_refl. cbn -[Nat.eqb]. rewrite ?Nat.eqb_refl.
    unfold after_decode.
    destruct (AudioService.decodeAudioData bytes 24000 1); [|discriminate].
    repeat split.
Qed.

Lemma undecodable_audio_drops_message_witness :
  let m := mkMessage None (Some "AAA") (Some (mkTranscription (Some "hello"))) None true in
  let playing := deliver 5 (audio_message chirp) 3 lesson in
  let s1 := deliver 5 m 9 playing in
  payload_duration "AAA" = None /\
  ui s1 = ui playing /\ calls s1 = calls playing /\ tasks s1 = tasks playing /\
  sourcesRef (refs s1) = sourcesRef (refs playing) /\
  nextStartTimeRef (refs s1) = Qmax (nextStartTimeRef (refs playing)) 9.
Proof.
  cbv zeta. split; [reflexivity|].
  apply (undecodable_audio_drops_message
           (deliver 5 (audio_message chirp) 3 lesson) 5 2
           (mkMessage None (Some "AAA") (Some (mkTranscription (Some "hello"))) None true)
           "A"%char "AA" 9); reflexivity.
Defined.

(** ** Callbacks registered on a pending session promise *)

Lemma registered_while_pending (c : nat) (ch : Channel) (cbs : list ThenCallback) :
  forall s,
    lookup c (channels s) = Some ch -> ch_promise ch = Pending ->
    for_each cbs (promise_then c) s =
      Ret tt (with_waiters (fun w => (w ++ map (pair c) cbs)%list) s).
Proof.
  induction cbs as [|cb cbs IH]; intros s Hl Hp.
  - cbn. rewrite app_nil_r. now destruct s.
  - rewrite for_each_cons. unfold promise_then at 1. cbn. rewrite Hl, Hp. cbn.
    rewrite IH by (cbn; assumption). cbn. now rewrite <- app_assoc.
Qed.

Lemma run_callback_call (c : nat) (cb : ThenCallback) (s : Sys) :
  run_callback c cb s = Ret tt (with_calls (cons (callback_call c cb)) s).
Proof. now destruct cb. Qed.

Lemma run_callbacks_calls (c : nat) (cbs : list ThenCallback) :
  forall s,
    for_each (map (pair c) cbs) (fun x => run_callback c (snd x)) s =
      Ret tt (with_calls (app (rev (map (callback_call c) cbs))) s).
Proof.
  induction cbs as [|cb cbs IH]; intros s; [cbn; now destruct s|].
  cbn [map]. rewrite for_each_cons. cbn [snd].
  rewrite run_callback_call, IH. cbn. now rewrite <- app_assoc.
Qed.

Lemma filter_own (c : nat) (cbs : list ThenCallback) :
  filter (waiting_on c) (map (pair c) cbs) = map (pair c) cbs /\
  filter (fun x => negb (waiting_on c x)) (map (pair c) cbs) = [].
Proof.
  induction cbs as [|cb cbs [IH1 IH2]]; [now split|]. cbn -[Nat.eqb].
  assert (E : waiting_on c (c, cb) = true) by apply Nat.eqb_refl.
  rewrite E. cbn -[Nat.eqb]. now rewrite IH1, IH2.
Qed.

Lemma filter_others (c : nat) (w : list (nat * ThenCallback)) :
  forallb (fun x => negb (waiting_on c x)) w = true ->
  filter (waiting_on c) w = [] /\
  filter (fun x => negb (waiting_on c x)) w = w.
Proof.
  induction w as [|x w IH]; [now split|]. cbn. intros H.
  apply andb_true_iff in H. destruct H as [H1 H2].
  destruct (IH H2) as [IH1 IH2]. rewrite H1, IH1, IH2.
  apply negb_true_iff in H1. now rewrite H1.
Qed.

Lemma filter_waiting (c : nat) (w : list (nat * ThenCallback)) (cbs : list ThenCallback) :
  forallb (fun x => negb (waiting_on c x)) w = true ->
  filter (waiting_on c) (w ++ map (pair c) cbs) = map (pair c) cbs /\
  filter (fun x => negb (waiting_on c x)) (w ++ map (pair c) cbs) = w.
Proof.
  intros H. rewrite !filter_app.
  destruct (filter_own c cbs) as [-> ->], (filter_others c w H) as [-> ->].
  now rewrite app_nil_r.
Qed.

(** X13.  Frames and acknowledgments go through [sessionPromise.then], not
    through [sessionRef].  Whatever is registered while the promise of a
    channel is pending makes no call at that time; when the promise is
    fulfilled, line 235 is followed by one call per registration, in the
    order of registration; when it is rejected none of them is ever made,
    and the [catch] block releases what the refs hold. *)
Theorem queued_until_fulfilled
    (s : Sys) (c : nat) (ch : Channel) (cbs : list ThenCallback) (err : JsError) :
  lookup c (channels s) = Some ch -> ch_promise ch = Pending ->
  forallb (fun x => negb (waiting_on c x)) (waiters s) = true ->
  let s1 := state_of (for_each cbs (promise_then c) s) in
  let s2 := state_of (after_session c (Fulfilled tt) s1) in
  let s3 := state_of (after_session c (Rejected err) s1) in
  for_each cbs (promise_then c) s = Ret tt s1 /\
  calls s1 = calls s /\
  calls s2 = (rev (map (callback_call c) cbs) ++ calls s)%list /\
  waiters s2 = waiters s /\
  calls s3 =
    (release_calls (refs s) ++ console_error "Failed to start session:" :: calls s)%list /\
  waiters s3 = waiters s.
Proof.
  intros Hl Hp Hw. cbv zeta.
  rewrite (registered_while_pending c ch cbs s Hl Hp).
  destruct (filter_waiting c (waiters s) cbs Hw) as [F1 F2].
  cbn [state_of]. split; [reflexivity|]. split; [reflexivity|].
  unfold after_session, run_waiters, drop_waiters, start_failed. cbn.
  rewrite F1, F2, run_callbacks_calls, stop_release_calls. cbn.
  repeat split.
  match goal with
  | |- waiters (state_of (stopSession ?x)) = _ =>
      destruct (stop_frame x) as [_ [-> _]]
  end.
  reflexivity.
Qed.

Lemma queued_until_fulfilled_witness :
  let connecting :=
    step (UserMedia_settled 3 (Fulfilled tt))
      (start_to_microphone Maths (Fulfilled true) (Fulfilled tt) (initial [])) in
  let cbs := [SendMedia (AudioService.createBlob [1 # 2]%Q);
              SendToolResponse (Some "call-1") (Some "displayTargetWord");
              SendMedia (AudioService.createBlob [1 # 4]%Q)] in
  let s1 := state_of (for_each cbs (promise_then 5) connecting) in
  lookup 5 (channels connecting) = Some (mkChannel 4 Pending false) /\
  calls s1 = calls connecting /\
  calls (state_of (after_session 5 (Fulfilled tt) s1)) =
    sendRealtimeInput_media 5 (AudioService.createBlob [1 # 4]%Q)
      :: sendToolResponse 5 (Some "call-1") (Some "displayTargetWord")
           "Word displayed successfully."
      :: sendRealtimeInput_media 5 (AudioService.createBlob [1 # 2]%Q)
      :: calls connecting.
Proof.
  cbv zeta. split; [reflexivity|].
  destruct (queued_until_fulfilled
              (step (UserMedia_settled 3 (Fulfilled tt))
                 (start_to_microphone Maths (Fulfilled true) (Fulfilled tt) (initial [])))
              5 (mkChannel 4 Pending false)
              [SendMedia (AudioService.createBlob [1 # 2]%Q);
               SendToolResponse (Some "call-1") (Some "displayTargetWord");
               SendMedia (AudioService.createBlob [1 # 4]%Q)]
              (mkError None) eq_refl eq_refl eq_refl) as [_ [H1 [H2 _]]].
  split; [exact H1|exact H2].
Defined.

(** ** How a start ends *)

(** The page state a start leaves while it waits for the microphone. *)
Lemma start_page
    (s : Sys) (subject : Subject) (check : Settled bool) (dialog : Settled unit) :
  isConnecting (ui s) = false ->
  let s3 := start_to_microphone subject check dialog s in
  ui s3 = mkState (Some subject) (isActive (ui s)) "" "" true false None None
            (inputText (ui s)) /\
  isMutedRef (refs s3) = false /\
  nextStartTimeRef (refs s3) = nextStartTimeRef (refs s) /\
  sourcesRef (refs s3) = sourcesRef (refs s).
Proof.
  intros Hc. unfold start_to_microphone, step, dispatch, startSession, resume, newest_task.
  cbn -[Nat.eqb]. rewrite Hc. cbn -[Nat.eqb]. rewrite Nat.eqb_refl. cbn -[Nat.eqb].
  destruct check as [[|]|err]; cbn -[Nat.eqb]; rewrite ?Nat.eqb_refl; cbn -[Nat.eqb].
  - repeat split.
  - rewrite ?Nat.eqb_refl. destruct dialog as [[]|err]; cbn -[Nat.eqb];
      rewrite ?Nat.eqb_refl; cbn -[Nat.eqb]; repeat split.
  - repeat split.
Qed.

Lemma microphone_answer
    (s : Sys) (subject : Subject) (check : Settled bool) (dialog : Settled unit)
    (r : Settled unit) :
  isConnecting (ui s) = false ->
  let s3 := start_to_microphone subject check dialog s in
  step (UserMedia_settled (newest_task s3) r) s3 =
    state_of (after_userMedia subject r (with_tasks (fun _ => tasks s) s3)).
Proof.
  intros Hc. cbv zeta.
  destruct (start_reaches_microphone s subject check dialog Hc) as [x [_ [T _]]].
  destruct (resume_newest _ _ _ _
              (fun k => match k with
                        | AwaitUserMedia subject0 => Some (after_userMedia subject0 r)
                        | _ => None
                        end) T) as [-> E].
  unfold step, dispatch. now rewrite E.
Qed.

Lemma idle_page (s : Sys) :
  is_idle s = true ->
  isActive (ui s) = false /\ isConnecting (ui s) = false /\ sessionRef (refs s) = None.
Proof.
  unfold is_idle. intros H. apply andb_true_iff in H. destruct H as [H H3].
  apply andb_true_iff in H. destruct H as [H1 H2]. apply negb_true_iff in H1, H2.
  repeat split; try assumption. now destruct (sessionRef (refs s)).
Qed.

(** A start whose microphone request is refused. *)
Lemma microphone_refused_state
    (s : Sys) (subject : Subject) (check : Settled bool) (dialog connection : Settled unit)
    (err : JsError) :
  isConnecting (ui s) = false ->
  let s4 := start_to_completion subject (mkOutcome check dialog (Rejected err) connection) s in
  exists x,
    calls s4 =
      (held (micStreamRef (refs s)) track_stop ++
       context_close (S x) :: context_close x ::
       held (sessionRef (refs s)) session_close ++
       console_error "Failed to start session:" ::
       getUserMedia :: new_AudioContext (S x) 24000 :: new_AudioContext x 16000 ::
       key_selection_calls check dialog ++ calls s)%list /\
    is_idle s4 = true /\
    errorMsg (ui s4) = Some (or_else (message err) "Could not connect to Sathi AI") /\
    selectedSubject (ui s4) = Some subject /\
    channels s4 = channels s /\ tasks s4 = tasks s.
Proof.
  intros Hc. cbv zeta. unfold start_to_completion.
  cbn [key_check key_dialog microphone].
  rewrite (microphone_answer s subject check dialog (Rejected err) Hc).
  destruct (start_reaches_microphone s subject check dialog Hc)
    as [x [C [T [F [I [O [K [_ [_ [Ss [Sm [Sa _]]]]]]]]]]]].
  destruct (start_page s subject check dialog Hc) as [U _].
  set (s3 := start_to_microphone subject check dialog s) in *.
  cbn [after_userMedia]. unfold start_failed. cbn.
  exists x.
  match goal with
  | |- context [stopSession ?y] =>
      pose proof (stop_release_calls y) as R;
      pose proof (stop_is_idle y) as Hi;
      destruct (stop_frame y) as [Ht [_ [Hch [_ [_ [He [Hsub _]]]]]]];
      set (s4 := state_of (stopSession y)) in *
  end.
  cbn in R, Ht, Hch, He, Hsub.
  unfold release_calls in R. rewrite I, O, Ss, Sm, C in R. cbn in R.
  rewrite U in Hsub. cbn in Hsub.
  repeat split; try assumption.
  - rewrite R. now rewrite <- app_assoc.
  - congruence.
Qed.

(** A start whose channel is refused after the microphone was granted. *)
Lemma channel_refused_state
    (s : Sys) (subject : Subject) (check : Settled bool) (dialog : Settled unit)
    (err : JsError) :
  isConnecting (ui s) = false ->
  let s3 := start_to_microphone subject check dialog s in
  let s5 := start_to_completion subject
              (mkOutcome check dialog (Fulfilled tt) (Rejected err)) s in
  exists x,
    calls s5 =
      (track_stop (3 + x) :: context_close (S x) :: context_close x ::
       held (sessionRef (refs s)) session_close ++
       console_error "Failed to start session:" ::
       live_connect (4 + x) subject :: calls s3)%list /\
    is_idle s5 = true /\
    errorMsg (ui s5) = Some (or_else (message err) "Could not connect to Sathi AI") /\
    channels s5 = ((4 + x)%nat, mkChannel (3 + x) Failed false) :: channels s /\
    tasks s5 = tasks s /\
    waiters s5 = filter (fun w => negb (waiting_on (4 + x) w)) (waiters s).
Proof.
  intros Hc. cbv zeta. unfold start_to_completion.
  cbn [key_check key_dialog microphone connection].
  rewrite (microphone_answer s subject check dialog (Fulfilled tt) Hc).
  destruct (start_reaches_microphone s subject check dialog Hc)
    as [x [C [T [F [I [O [K [W [_ [Ss [Sm [Sa _]]]]]]]]]]]].
  set (s3 := start_to_microphone subject check dialog s) in *.
  exists x.
  unfold step, dispatch. cbn -[Nat.eqb]. rewrite F, K.
  unfold newest_task, resume. cbn -[Nat.eqb].
  rewrite ?Nat.eqb_refl; cbn -[Nat.eqb];
    rewrite ?Nat.eqb_refl; cbn -[Nat.eqb]; rewrite ?Nat.eqb_refl; cbn -[Nat.eqb].
  unfold start_failed. cbn -[Nat.eqb].
  match goal with
  | |- context [stopSession ?y] =>
      pose proof (stop_release_calls y) as R;
      pose proof (stop_is_idle y) as Hi;
      destruct (stop_frame y) as [Ht [Hw [Hch [_ [_ [He _]]]]]];
      set (s5 := state_of (stopSession y)) in *
  end.
  cbn -[Nat.eqb] in R, Ht, Hch, He, Hw.
  unfold release_calls in R. cbn in R. rewrite I, O, Ss in R. cbn in R.
  rewrite W in Hw.
  repeat split; assumption.
Qed.

Lemma run_callbacks_frame (c : nat) (ws : list (nat * ThenCallback)) :
  forall s,
    let s1 := state_of (for_each ws (fun x => run_callback c (snd x)) s) in
    ui s1 = ui s /\ refs s1 = refs s /\ channels s1 = channels s /\ tasks s1 = tasks s /\
    suffix (calls s) (calls s1).
Proof.
  cbv zeta. induction ws as [|[c' cb] ws IH]; intros s.
  - cbn. repeat split. apply suffix_refl.
  - rewrite for_each_cons. cbn [snd]. rewrite run_callback_call.
    destruct (IH (with_calls (cons (callback_call c cb)) s)) as [-> [-> [-> [-> H]]]].
    repeat split. eapply suffix_trans; [|exact H]. apply suffix_cons, suffix_refl.
Qed.

Lemma run_waiters_frame (c : nat) (s : Sys) :
  let s1 := state_of (run_waiters c s) in
  ui s1 = ui s /\ refs s1 = refs s /\ channels s1 = channels s /\ tasks s1 = tasks s /\
  suffix (calls s) (calls s1).
Proof.
  cbv zeta. unfold run_waiters. cbn.
  match goal with
  | |- context [for_each ?ws _ ?y] =>
      destruct (run_callbacks_frame c ws y) as [-> [-> [-> [-> H]]]]
  end.
  repeat split. exact H.
Qed.

(** A start whose microphone is granted and whose channel opens. *)
Lemma start_opens
    (s : Sys) (subject : Subject) (check : Settled bool) (dialog : Settled unit) :
  isConnecting (ui s) = false ->
  let s3 := start_to_microphone subject check dialog s in
  let s6 := start_to_completion subject
              (mkOutcome check dialog (Fulfilled tt) (Fulfilled tt)) s in
  exists x,
    ui s6 = mkState (Some subject) true "" "" false false None None (inputText (ui s)) /\
    refs s6 = mkRefs (Some x) (Some (S x)) (Some (4 + x)%nat) (sourcesRef (refs s))
                (nextStartTimeRef (refs s)) (Some (3 + x)%nat) false /\
    channels s6 = ((4 + x)%nat, mkChannel (3 + x) Resolved true) :: channels s /\
    tasks s6 = tasks s /\
    suffix (capture_connect x (3 + x) (4 + x) :: live_connect (4 + x) subject :: calls s3)
           (calls s6).
Proof.
  intros Hc. cbv zeta. unfold start_to_completion.
  cbn [key_check key_dialog microphone connection].
  rewrite (microphone_answer s subject check dialog (Fulfilled tt) Hc).
  destruct (start_reaches_microphone s subject check dialog Hc)
    as [x [C [T [F [I [O [K [_ [_ [Ss [Sm [Sa _]]]]]]]]]]]].
  destruct (start_page s subject check dialog Hc) as [U [M [N Src]]].
  set (s3 := start_to_microphone subject check dialog s) in *.
  exists x.
  unfold step, dispatch. cbn -[Nat.eqb]. rewrite F, K.
  unfold newest_task, newest_channel, resume, onopen. cbn -[Nat.eqb].
  rewrite ?Nat.eqb_refl; cbn -[Nat.eqb];
    rewrite ?Nat.eqb_refl; cbn -[Nat.eqb]; rewrite ?I; cbn -[Nat.eqb];
    rewrite ?Nat.eqb_refl; cbn -[Nat.eqb]; rewrite ?Nat.eqb_refl; cbn -[Nat.eqb].
  match goal with
  | |- context [run_waiters ?c ?y] =>
      destruct (run_waiters_frame c y) as [-> [-> [-> [-> H]]]]
  end.
  cbn in *. repeat split; [now rewrite U|now rewrite O, M, N, Src|exact H].
Qed.

Lemma or_else_nonempty (a : option string) (b : string) :
  b <> "" -> truthy (Some (or_else a b)) = Some (or_else a b).
Proof.
  intros Hb. destruct a as [[|c a]|]; cbn; try reflexivity;
    destruct b; congruence.
Qed.

Lemma idle_render (s : Sys) :
  is_idle s = true -> render (ui s) = Picker (truthy (errorMsg (ui s))) true None.
Proof.
  intros H. destruct (idle_page s H) as [H1 [H2 _]]. unfold render. now rewrite H1, H2.
Qed.

(** X8.  When the microphone is refused, the [catch] block of
    [startSession] closes both audio contexts the start had just created
    (and whatever session and microphone the refs still held), opens no
    channel, and leaves the component idle: the page is back on the picker
    with its buttons enabled, showing the message of the error, or the
    fixed text when the error has none. *)
Theorem microphone_refusal_releases
    (s : Sys) (subject : Subject) (check : Settled bool) (dialog connection : Settled unit)
    (err : JsError) :
  isConnecting (ui s) = false ->
  let s4 := start_to_completion subject (mkOutcome check dialog (Rejected err) connection) s in
  let msg := or_else (message err) "Could not connect to Sathi AI" in
  (exists x,
     calls s4 =
       (held (micStreamRef (refs s)) track_stop ++
        context_close (S x) :: context_close x ::
        held (sessionRef (refs s)) session_close ++
        console_error "Failed to start session:" ::
        getUserMedia :: new_AudioContext (S x) 24000 :: new_AudioContext x 16000 ::
        key_selection_calls check dialog ++ calls s)%list) /\
  is_idle s4 = true /\
  render (ui s4) = Picker (Some msg) true None /\
  channels s4 = channels s /\ tasks s4 = tasks s.
Proof.
  intros Hc. cbv zeta.
  destruct (microphone_refused_state s subject check dialog connection err Hc)
    as [x [C [Hi [He [_ [Hch Ht]]]]]].
  split; [now exists x|]. split; [exact Hi|]. split; [|now split].
  rewrite (idle_render _ Hi), He. now rewrite or_else_nonempty.
Qed.

Lemma microphone_refusal_releases_witness :
  let s4 := start_to_completion Maths
              (mkOutcome (Fulfilled true) (Fulfilled tt)
                 (Rejected (mkError (Some "Permission denied"))) (Fulfilled tt))
              (initial []) in
  calls s4 =
    [context_close 2; context_close 1; console_error "Failed to start session:";
     getUserMedia; new_AudioContext 2 24000; new_AudioContext 1 16000;
     hasSelectedApiKey] /\
  is_idle s4 = true /\
  render (ui s4) = Picker (Some "Permission denied") true None.
Proof.
  cbv zeta.
  destruct (microphone_refusal_releases (initial []) Maths (Fulfilled true) (Fulfilled tt)
              (Fulfilled tt) (mkError (Some "Permission denied")) eq_refl)
    as [_ [H1 [H2 _]]].
  split; [reflexivity|]. split; [exact H1|exact H2].
Defined.

(** X9.  When the channel is refused after the microphone was granted, the
    [catch] block stops the tracks of the stream just obtained and closes
    both audio contexts; [close()] is not called on the refused channel,
    whose pending callbacks are dropped.  The component is idle and the
    picker shows the message of the error, or the fixed text. *)
Theorem channel_refusal_releases
    (s : Sys) (subject : Subject) (check : Settled bool) (dialog : Settled unit)
    (err : JsError) :
  isConnecting (ui s) = false ->
  let s3 := start_to_microphone subject check dialog s in
  let s5 := start_to_completion subject
              (mkOutcome check dialog (Fulfilled tt) (Rejected err)) s in
  let msg := or_else (message err) "Could not connect to Sathi AI" in
  (exists x,
     calls s5 =
       (track_stop (3 + x) :: context_close (S x) :: context_close x ::
        held (sessionRef (refs s)) session_close ++
        console_error "Failed to start session:" ::
        live_connect (4 + x) subject :: calls s3)%list /\
     channels s5 = ((4 + x)%nat, mkChannel (3 + x) Failed false) :: channels s /\
     waiters s5 = filter (fun w => negb (waiting_on (4 + x) w)) (waiters s)) /\
  is_idle s5 = true /\
  render (ui s5) = Picker (Some msg) true None /\
  tasks s5 = tasks s.
Proof.
  intros Hc. cbv zeta.
  destruct (channel_refused_state s subject check dialog err Hc)
    as [x [C [Hi [He [Hch [Ht Hw]]]]]].
  split; [exists x; now repeat split|]. split; [exact Hi|]. split; [|exact Ht].
  rewrite (idle_render _ Hi), He. now rewrite or_else_nonempty.
Qed.

Lemma channel_refusal_releases_witness :
  let s5 := start_to_completion Maths
              (mkOutcome (Fulfilled true) (Fulfilled tt) (Fulfilled tt)
                 (Rejected (mkError None)))
              (initial []) in
  calls s5 =
    [track_stop 4; context_close 2; context_close 1;
     console_error "Failed to start session:"; live_connect 5 Maths;
     getUserMedia; new_AudioContext 2 24000; new_AudioContext 1 16000;
     hasSelectedApiKey] /\
  is_idle s5 = true /\
  render (ui s5) = Picker (Some "Could not connect to Sathi AI") true None.
Proof.
  cbv zeta.
  destruct (channel_refusal_releases (initial []) Maths (Fulfilled true) (Fulfilled tt)
              (mkError None) eq_refl)
    as [_ [H1 [H2 _]]].
  split; [reflexivity|]. split; [exact H1|exact H2].
Defined.

(** X10.  A start whose microphone is granted and whose channel opens ends
    on the lesson view of the chosen subject: no practice word, no error,
    both transcripts empty, the microphone on, and whatever was typed in the
    input still there.  The refs hold the two new contexts, the new stream
    and the new session; the capture pipeline is connected on that stream
    for that channel; the playback cursor and [sourcesRef] are those of
    before the start. *)
Theorem start_opens_lesson
    (s : Sys) (subject : Subject) (check : Settled bool) (dialog : Settled unit) :
  isConnecting (ui s) = false ->
  let s6 := start_to_completion subject
              (mkOutcome check dialog (Fulfilled tt) (Fulfilled tt)) s in
  render (ui s6) = fresh_lesson subject (inputText (ui s)) /\
  errorMsg (ui s6) = None /\ isConnecting (ui s6) = false /\
  exists x,
    refs s6 = mkRefs (Some x) (Some (S x)) (Some (4 + x)%nat) (sourcesRef (refs s))
                (nextStartTimeRef (refs s)) (Some (3 + x)%nat) false /\
    channels s6 = ((4 + x)%nat, mkChannel (3 + x) Resolved true) :: channels s /\
    tasks s6 = tasks s /\
    In (capture_connect x (3 + x) (4 + x)) (calls s6) /\
    In (live_connect (4 + x) subject) (calls s6).
Proof.
  intros Hc. cbv zeta.
  destruct (start_opens s subject check dialog Hc) as [x [U [R [Hch [Ht [added Hs]]]]]].
  rewrite U. repeat split. exists x. rewrite Hs.
  repeat split; try assumption; apply in_or_app; right; cbn; tauto.
Qed.

Lemma start_opens_lesson_witness :
  let typed := step (Change_input "hello") (initial []) in
  let s6 := start_to_completion Science
              (mkOutcome (Fulfilled false) (Rejected (mkError None))
                 (Fulfilled tt) (Fulfilled tt)) typed in
  render (ui s6) = fresh_lesson Science "hello" /\
  refs s6 = mkRefs (Some 2%nat) (Some 3%nat) (Some 6%nat) [] 0 (Some 5%nat) false.
Proof.
  cbv zeta.
  destruct (start_opens_lesson (step (Change_input "hello") (initial [])) Science
              (Fulfilled false) (Rejected (mkError None)) eq_refl)
    as [H1 _].
  split; [exact H1|reflexivity].
Defined.

(** ** What the page shows *)





(** ** The page over the lifecycle *)

Lemma stop_engaged (s : Sys) : engaged (state_of (stopSession s)).
Proof.
  intros H. destruct (idle_page _ (stop_is_idle s)) as [Hi _].
  rewrite H in Hi. discriminate.
Qed.

Lemma quiet_engaged (s s' : Sys) : engaged s -> quiet s s' -> engaged s'.
Proof.
  intros He [_ Q2 Q3 Q4 _ _]. unfold engaged. rewrite Q2, Q3, Q4. exact He.
Qed.

Lemma lifecycle_engaged (faulty : list nat) (s : Sys) : lifecycle faulty s -> engaged s.
Proof.
  induction 1 as [|e s Hl IH He|subject o s Hl IH Hg].
  - discriminate.
  - destruct (event_effect e s He (lifecycle_settled faulty s Hl)) as [s0 [Hq [->| ->]]].
    + exact (quiet_engaged s s0 IH Hq).
    + apply stop_engaged.
  - unfold start_offered in Hg. apply andb_true_iff in Hg.
    destruct Hg as [_ Hc]. apply negb_true_iff in Hc.
    destruct (start_effect s subject o Hc)
      as [s0 Hq ->|s0 c m Hch Hs0 Ht Hse Hm Hact Hq|s0 c m Hch Hs0 Ht Hse Hm ->];
      try apply stop_engaged.
    apply (quiet_engaged s0); [|exact Hq]. intros _. split; eauto.
Qed.

Lemma session_event_not_start (e : Event) : session_event e = true -> is_start e = false.
Proof. now destruct e. Qed.

Lemma lifecycle_not_connecting (faulty : list nat) (s : Sys) :
  lifecycle faulty s -> isConnecting (ui s) = false.
Proof.
  induction 1 as [|e s Hl IH He|subject o s Hl IH Hg].
  - reflexivity.
  - destruct (step_heading e s (session_event_not_start e He)) as [_ [H|H]]; congruence.
  - unfold start_offered in Hg. apply andb_true_iff in Hg.
    destruct Hg as [_ Hc]. apply negb_true_iff in Hc.
    destruct o as [check dialog [[]|err] connection].
    + destruct connection as [[]|err].
      * destruct (start_opens s subject check dialog Hc) as [x [U _]]. now rewrite U.
      * destruct (channel_refused_state s subject check dialog err Hc) as [x [_ [Hi _]]].
        exact (proj1 (proj2 (idle_page _ Hi))).
    + destruct (microphone_refused_state s subject check dialog connection err Hc)
        as [x [_ [Hi _]]].
      exact (proj1 (proj2 (idle_page _ Hi))).
Qed.

Lemma lifecycle_titled (faulty : list nat) (s : Sys) : lifecycle faulty s -> titled s.
Proof.
  induction 1 as [|e s Hl IH He|subject o s Hl IH Hg]; intros c Hs.
  - discriminate.
  - destruct (step_heading e s (session_event_not_start e He)) as [Hsub _].
    destruct (event_effect e s He (lifecycle_settled faulty s Hl)) as [s0 [Hq [E|E]]].
    + rewrite Hsub. rewrite E in Hs |- *.
      rewrite (quiet_session _ _ Hq) in Hs.
      destruct (IH c Hs) as [subject [H1 H2]]. exists subject. split; [exact H1|].
      destruct (quiet_calls _ _ Hq) as [added ->]. apply in_or_app. now right.
    + rewrite E in Hs.
      destruct (idle_page _ (stop_is_idle s0)) as [_ [_ Hn]]. congruence.
  - unfold start_offered in Hg. apply andb_true_iff in Hg.
    destruct Hg as [_ Hc]. apply negb_true_iff in Hc.
    destruct o as [check dialog [[]|err] connection].
    + destruct connection as [[]|err].
      * destruct (start_opens s subject check dialog Hc) as [x [U [R [_ [_ [added Hcalls]]]]]].
        rewrite R in Hs. cbn in Hs. injection Hs as <-.
        exists subject. rewrite U, Hcalls. split; [reflexivity|].
        apply in_or_app. right. cbn. tauto.
      * destruct (channel_refused_state s subject check dialog err Hc) as [x [_ [Hi _]]].
        destruct (idle_page _ Hi) as [_ [_ Hn]]. congruence.
    + destruct (microphone_refused_state s subject check dialog connection err Hc)
        as [x [_ [Hi _]]].
      destruct (idle_page _ Hi) as [_ [_ Hn]]. congruence.
Qed.

Lemma lesson_lifecycle : lifecycle [] lesson.
Proof. unfold lesson. apply life_start; [apply life_initial|reflexivity]. Qed.

Lemma second_lesson_lifecycle : lifecycle [] second_lesson.
Proof.
  unfold second_lesson. apply life_start; [|reflexivity].
  apply life_event; [exact lesson_lifecycle|reflexivity].
Qed.

(** X19.  When every start is issued from the picker and runs through its
    awaits, the Finish Lesson button and the lesson view are on the page
    exactly when the component holds a session, and exactly when it holds
    a microphone stream. *)
Theorem lesson_view_iff_session (faulty : list nat) (s : Sys) :
  lifecycle faulty s ->
  (finish_offered (ui s) = true <-> exists c, sessionRef (refs s) = Some c) /\
  (finish_offered (ui s) = true <-> exists m, micStreamRef (refs s) = Some m).
Proof.
  intros Hl. pose proof (lifecycle_engaged faulty s Hl) as He.
  pose proof (settled_idle s (lifecycle_settled faulty s Hl)) as Hi.
  unfold finish_offered, engaged in *.
  destruct (isActive (ui s)).
  - destruct (He eq_refl) as [H1 H2]. split; split; auto.
  - destruct (Hi eq_refl) as [-> ->].
    split; split; try discriminate; intros [? H]; discriminate H.
Qed.

Lemma lesson_view_iff_session_witness :
  lifecycle [] second_lesson /\
  sessionRef (refs second_lesson) = Some 12%nat /\
  (finish_offered (ui second_lesson) = true <->
   exists c, sessionRef (refs second_lesson) = Some c).
Proof.
  split; [exact second_lesson_lifecycle|]. split; [reflexivity|].
  exact (proj1 (lesson_view_iff_session [] second_lesson second_lesson_lifecycle)).
Defined.

(** X21.  When every start is issued from the picker and runs through its
    awaits, the component is never left in Connecting: whenever the picker
    is on the page its subject buttons are enabled and no spinner shows, so
    a new lesson can be started exactly when none is running. *)
Theorem never_stuck_connecting (faulty : list nat) (s : Sys) :
  lifecycle faulty s ->
  isConnecting (ui s) = false /\
  start_offered s = negb (finish_offered (ui s)) /\
  (finish_offered (ui s) = false ->
   render (ui s) = Picker (truthy (errorMsg (ui s))) true None).
Proof.
  intros Hl. pose proof (lifecycle_not_connecting faulty s Hl) as Hc.
  unfold start_offered, finish_offered, render. rewrite Hc.
  split; [reflexivity|]. split; [now rewrite andb_true_r|].
  now intros ->.
Qed.

Lemma never_stuck_connecting_witness :
  let refused := start_to_completion Social
                   (mkOutcome (Fulfilled true) (Fulfilled tt) (Fulfilled tt)
                      (Rejected (mkError (Some "503"))))
                   (step Click_finish lesson) in
  lifecycle [] refused /\
  isConnecting (ui refused) = false /\
  render (ui refused) = Picker (Some "503") true None.
Proof.
  cbv zeta.
  assert (L : lifecycle []
                (start_to_completion Social
                   (mkOutcome (Fulfilled true) (Fulfilled tt) (Fulfilled tt)
                      (Rejected (mkError (Some "503"))))
                   (step Click_finish lesson))).
  { apply life_start; [|reflexivity].
    apply life_event; [exact lesson_lifecycle|reflexivity]. }
  split; [exact L|].
  destruct (never_stuck_connecting [] _ L) as [H1 [_ H3]].
  split; [exact H1|exact (H3 eq_refl)].
Defined.

(** X22.  When every start is issued from the picker and runs through its
    awaits, the subject in the heading of the lesson view is the one the
    held session was opened for: [selectedSubject] is only written by
    [startSession], with the subject it passes to [connect]. *)
Theorem heading_names_session_subject (faulty : list nat) (s : Sys) (c : nat) :
  lifecycle faulty s -> sessionRef (refs s) = Some c ->
  exists subject,
    selectedSubject (ui s) = Some subject /\
    In (live_connect c subject) (calls s) /\
    render (ui s) =
      LessonView (Some subject) (targetWord (ui s))
        (or_else (Some (modelTranscription (ui s))) "Wait a second, I'm thinking... 😊")
        (if isMuted (ui s) then "Mic is OFF. Type your question below!"
         else or_else (Some (userTranscription (ui s)))
                "I'm listening to you! Speak clearly or type below... 👂")
        (inputText (ui s))
        (if isMuted (ui s) then "MIC OFF - Tap to Speak" else "MIC ON - Speaking...").
Proof.
  intros Hl Hs. destruct (lifecycle_titled faulty s Hl c Hs) as [subject [H1 H2]].
  exists subject. split; [exact H1|]. split; [exact H2|].
  pose proof (settled_idle s (lifecycle_settled faulty s Hl)) as Hi.
  unfold render. destruct (isActive (ui s)).
  - now rewrite H1.
  - destruct (Hi eq_refl) as [Hn _]. congruence.
Qed.

Lemma heading_names_session_subject_witness :
  lifecycle [] second_lesson /\ sessionRef (refs second_lesson) = Some 12%nat /\
  exists subject,
    selectedSubject (ui second_lesson) = Some subject /\
    In (live_connect 12 subject) (calls second_lesson).
Proof.
  split; [exact second_lesson_lifecycle|]. split; [reflexivity|].
  destruct (heading_names_session_subject [] second_lesson 12
              second_lesson_lifecycle eq_refl) as [subject [H1 [H2 _]]].
  exists subject. split; [exact H1|exact H2].
Defined.

(** X20.  When every start is issued from the picker and runs through its
    awaits, a capture callback only ever fires for a channel whose session
    promise is fulfilled: a frame captured while the microphone is on is
    sent at once, a frame captured while it is muted is dropped, and none
    is ever queued. *)
Theorem captured_frames_sent_at_once
    (faulty : list nat) (s : Sys) (c : nat) (frame : list Q) :
  lifecycle faulty s -> capturing c s = true ->
  step (Audio_process c frame) s = if isMutedRef (refs s) then s else sent c frame s.
Proof.
  intros Hl Hc.
  pose proof (wired_ready s c (lifecycle_wired faulty s Hl) Hc) as Hr.
  unfold step, dispatch. cbn. rewrite Hc. cbn. unfold onaudioprocess. cbn.
  destruct (isMutedRef (refs s)); [reflexivity|].
  rewrite (promise_then_ready s c _ Hr). reflexivity.
Qed.

Lemma captured_frames_sent_at_once_witness :
  lifecycle [] second_lesson /\ capturing 12 second_lesson = true /\
  step (Audio_process 12 [1 # 2]%Q) second_lesson = sent 12 [1 # 2]%Q second_lesson.
Proof.
  split; [exact second_lesson_lifecycle|]. split; [reflexivity|].
  exact (captured_frames_sent_at_once [] second_lesson 12 [1 # 2]%Q
           second_lesson_lifecycle eq_refl).
Defined.

(** X23.  The callbacks of a channel stop whatever session the component
    holds, not their own.  When [onclose], or [onerror] with a message
    outside the entitlement class, fires for any channel the component ever
    opened, the session currently held is closed and the component goes
    idle, also when that session belongs to a later lesson. *)
Theorem stale_channel_stops_current (s : Sys) (c held_now : nat) (e : JsError) :
  known c s = true -> sessionRef (refs s) = Some held_now ->
  entitlement_class e = false ->
  let s1 := step (Channel_close c) s in
  let s2 := step (Channel_error c e) s in
  is_idle s1 = true /\ existsb (closes held_now) (calls s1) = true /\
  is_idle s2 = true /\ existsb (closes held_now) (calls s2) = true.
Proof.
  intros Hk Hs He. cbv zeta. unfold step, dispatch. cbn. rewrite Hk. cbn.
  unfold onclose, onerror. unfold entitlement_class in He. cbn. rewrite He. cbn.
  repeat split; try apply stop_is_idle; apply stop_closes; exact Hs.
Qed.

Lemma stale_channel_stops_current_witness :
  let s1 := step (Channel_close 5) second_lesson in
  known 5 second_lesson = true /\ sessionRef (refs second_lesson) = Some 12%nat /\
  is_open second_lesson 5 = false /\ is_open second_lesson 12 = true /\
  is_idle s1 = true /\ existsb (closes 12) (calls s1) = true.
Proof.
  cbv zeta.
  destruct (stale_channel_stops_current second_lesson 5 12 (mkError None)
              eq_refl eq_refl eq_refl) as [H1 [H2 _]].
  repeat split; try reflexivity; assumption.
Defined.

(** ** Calls on buffer sources over every trace *)

Lemma mild_sources (r l : list Call) (src : nat) :
  mild r l ->
  existsb (starts src) l = existsb (starts src) r /\
  existsb (stops src) l = existsb (stops src) r /\
  well_stopped l = well_stopped r.
Proof.
  induction 1 as [|x l Hx _ [IH1 [IH2 IH3]]]; [repeat split|].
  cbn [existsb]. rewrite IH1, IH2.
  destruct x; try discriminate Hx; cbn; rewrite ?IH3; repeat split.
Qed.

Lemma tidy_kept (s s' : Sys) :
  sourcesRef (refs s') = sourcesRef (refs s) -> mild (calls s) (calls s') ->
  (fresh s <= fresh s')%nat -> tidy s -> tidy s'.
Proof.
  intros Hs Hm Hf [T1 T2 T3 T4].
  constructor.
  - now rewrite Hs.
  - intros src Hin. rewrite Hs in Hin. specialize (T2 src Hin).
    unfold scheduled in *. destruct (mild_sources _ _ src Hm) as [-> [-> _]]. exact T2.
  - intros src H. destruct (mild_sources _ _ src Hm) as [E1 [E2 _]].
    rewrite E1, E2 in H. specialize (T3 src H). lia.
  - destruct (mild_sources _ _ 0%nat Hm) as [_ [_ ->]]. exact T4.
Qed.

Lemma steady_tidy (s s' : Sys) : steady s s' -> tidy s -> tidy s'.
Proof.
  intros H. exact (tidy_kept s s' (steady_sources _ _ H) (steady_calls _ _ H)
                     (steady_fresh _ _ H)).
Qed.

Lemma stop_tidy (s : Sys) : tidy s -> tidy (state_of (stopSession s)).
Proof.
  apply tidy_kept.
  - now destruct (stop_frame s) as [_ [_ [_ [_ [_ [_ [_ [H _]]]]]]]].
  - rewrite stop_release_calls. unfold release_calls, held.
    destruct (micStreamRef (refs s)), (outputAudioCtxRef (refs s)),
      (inputAudioCtxRef (refs s)), (sessionRef (refs s)); cbn;
      repeat first [apply mild_refl | apply mild_cons; [reflexivity|]].
  - destruct (stop_frame s) as [_ [_ [_ [-> _]]]]. apply Nat.le_refl.
Qed.

Lemma flush_sources (srcs : list nat) (base : list Call) (src : nat) :
  existsb (starts src) (rev (map source_stop srcs) ++ base) = existsb (starts src) base /\
  (existsb (stops src) (rev (map source_stop srcs) ++ base) = true ->
   In src srcs \/ existsb (stops src) base = true).
Proof.
  revert base. induction srcs as [|a srcs IH]; intros base; [now split; auto|].
  cbn [map rev]. rewrite <- app_assoc. cbn [app].
  destruct (IH (source_stop a :: base)) as [H1 H2]. split.
  - rewrite H1. reflexivity.
  - intros H. destruct (H2 H) as [Hin|Hs]; [left; now right|].
    cbn in Hs. apply orb_true_iff in Hs. destruct Hs as [Hs|Hs]; [|now right].
    apply Nat.eqb_eq in Hs. left. now left.
Qed.

Lemma flush_well (srcs : list nat) :
  forall base,
    NoDup srcs ->
    (forall src, In src srcs ->
       existsb (starts src) base = true /\ existsb (stops src) base = false) ->
    well_stopped base = true ->
    well_stopped (rev (map source_stop srcs) ++ base) = true.
Proof.
  induction srcs as [|a srcs IH]; intros base Hn Hm Hw; [exact Hw|].
  cbn [map rev]. rewrite <- app_assoc. cbn [app].
  inversion Hn as [|? ? Ha Hn']; subst. apply IH; [exact Hn'| |].
  - intros src Hin. destruct (Hm src (or_intror Hin)) as [H1 H2]. cbn.
    rewrite H1, H2. split; [reflexivity|].
    rewrite orb_false_r. apply Nat.eqb_neq. intros ->. exact (Ha Hin).
  - destruct (Hm a (or_introl eq_refl)) as [H1 H2]. cbn. now rewrite H1, H2, Hw.
Qed.

Lemma scheduled_parts (s : Sys) (src : nat) :
  scheduled s src = true ->
  existsb (starts src) (calls s) = true /\ existsb (stops src) (calls s) = false.
Proof.
  unfold scheduled. intros H. apply andb_true_iff in H. destruct H as [H1 H2].
  apply negb_true_iff in H2. now split.
Qed.

Lemma tail_tidy (m : LiveServerMessage) (s : Sys) :
  tidy s -> tidy (state_of (onmessage_tail m s)).
Proof.
  intros T. destruct (interrupted m) eqn:Hi.
  - destruct (tail_flushes m s Hi) as [_ [C [S0 _]]]. cbv zeta in C, S0.
    pose proof (tail_fresh m s) as F.
    destruct T as [T1 T2 T3 T4]. constructor.
    + rewrite S0. constructor.
    + rewrite S0. intros src [].
    + intros src H. rewrite C, F in *.
      destruct (flush_sources (sourcesRef (refs s)) (calls s) src) as [E1 E2].
      rewrite E1 in H. destruct H as [H|H]; [apply T3; now left|].
      destruct (E2 H) as [Hin|Hs]; [|apply T3; now right].
      apply T3. left. exact (proj1 (scheduled_parts s src (T2 src Hin))).
    + rewrite C. apply flush_well; [exact T1| |exact T4].
      intros src Hin. exact (scheduled_parts s src (T2 src Hin)).
  - revert T. apply tidy_kept; unfold onmessage_tail; rewrite Hi;
      destruct (inputTranscription m), (outputTranscription m); cbn;
      first [reflexivity | apply mild_refl | apply Nat.le_refl].
Qed.

Lemma set_add_nodup (x : nat) (l : list nat) : NoDup l -> NoDup (set_add x l).
Proof.
  intros H. unfold set_add, mem. destruct (existsb (Nat.eqb x) l) eqn:E; [exact H|].
  apply NoDup_app; [exact H|repeat constructor; intros []|].
  intros y Hy [->|[]].
  assert (existsb (Nat.eqb y) l = true) as K
    by (apply existsb_exists; exists y; split; [exact Hy|apply Nat.eqb_refl]).
  congruence.
Qed.

Lemma set_add_in (x y : nat) (l : list nat) : In y (set_add x l) -> In y l \/ y = x.
Proof.
  unfold set_add. destruct (mem x l); [now left|].
  intros H. apply in_app_or in H. destruct H as [H|[<-|[]]]; [now left|now right].
Qed.

Lemma after_decode_tidy (ctx : nat) (bytes : list Z) (m : LiveServerMessage) (s : Sys) :
  tidy s -> tidy (state_of (after_decode ctx bytes m s)).
Proof.
  intros T. unfold after_decode.
  destruct (AudioService.decodeAudioData bytes 24000 1) as [?|buffer]; [exact T|].
  cbn. apply tail_tidy. destruct T as [T1 T2 T3 T4].
  assert (N : existsb (stops (fresh s)) (calls s) = false).
  { destruct (existsb (stops (fresh s)) (calls s)) eqn:E; [|reflexivity].
    specialize (T3 (fresh s) (or_intror E)). lia. }
  constructor; cbn -[Nat.eqb].
  - now apply set_add_nodup.
  - intros src Hin. unfold scheduled. cbn -[Nat.eqb].
    destruct (set_add_in _ _ _ Hin) as [H| ->].
    + destruct (scheduled_parts s src (T2 src H)) as [-> ->]. now rewrite orb_true_r.
    + now rewrite Nat.eqb_refl, N.
  - unfold sources_known in *. cbn -[Nat.eqb]. intros src H. destruct H as [H|H].
    + apply orb_true_iff in H. destruct H as [H|H].
      * apply Nat.eqb_eq in H. lia.
      * specialize (T3 src (or_introl H)). lia.
    + specialize (T3 src (or_intror H)). lia.
  - exact T4.
Qed.

Lemma bind_tidy {A} (m : M A) (k : A -> M unit) (s : Sys) :
  tidy (state_of (m s)) ->
  (forall a s', tidy s' -> tidy (state_of (k a s'))) ->
  tidy (state_of (bind m k s)).
Proof.
  intros Hm Hk. cbn. destruct (m s) as [a s'|e s']; cbn [state_of] in *.
  - now apply Hk.
  - exact Hm.
Qed.

Lemma onmessage_tidy (c : nat) (m : LiveServerMessage) (now : Q) (s : Sys) :
  tidy s -> tidy (state_of (onmessage c m now s)).
Proof.
  intros T. unfold onmessage. apply bind_tidy.
  - revert T. apply steady_tidy.
    destruct (toolCall m) as [fcs|]; cbn; [|apply steady_refl].
    apply for_each_steady. intros; apply function_call_steady.
  - intros _ s' T'. cbn.
    destruct (audioData m) as [[|ch rest]|], (outputAudioCtxRef (refs s'));
      try (now apply tail_tidy).
    cbn. revert T'. apply tidy_kept;
      destruct (AudioService.decode (String ch rest)); cbn;
      first [reflexivity | apply mild_refl | lia].
Qed.

Lemma step_tidy (e : Event) (s : Sys) : tidy s -> tidy (step e s).
Proof.
  intros T. destruct (control_event e) eqn:Ec.
  { destruct (control_effect e s Ec) as [s0 [H0 [-> | ->]]].
    - exact (steady_tidy s s0 H0 T).
    - apply stop_tidy. exact (steady_tidy s s0 H0 T). }
  destruct e; try discriminate Ec; unfold step; cbn [dispatch].
  - (* Click_start *) revert T. apply tidy_kept; unfold startSession; cbn;
      destruct (isConnecting (ui s)); cbn;
      first [reflexivity | apply mild_refl | apply mild_cons; [reflexivity|apply mild_refl]
            | lia].
  - (* Click_mute *) revert T. apply tidy_kept; unfold toggleMute; cbn;
      first [reflexivity | apply mild_refl].
  - (* Submit_input *) revert T. apply tidy_kept; unfold handleSendMessage; cbn -[trim];
      destruct (trim (inputText (ui s))), (sessionRef (refs s)); cbn;
      first [reflexivity | apply mild_refl | apply mild_cons; [reflexivity|apply mild_refl]].
  - (* Decode_settled *) unfold resume. cbn.
    destruct (lookup t (tasks s)) as [k|]; [|exact T].
    destruct k; try exact T. cbn. apply after_decode_tidy.
    revert T. apply tidy_kept; cbn; first [reflexivity | apply mild_refl].
  - (* Channel_message *) cbn. destruct (known c s); [|exact T]. now apply onmessage_tidy.
  - (* Source_ended *) unfold onended. cbn. destruct T as [T1 T2 T3 T4].
    constructor; cbn; try assumption.
    + unfold set_delete. now apply NoDup_filter.
    + intros src Hin. unfold set_delete in Hin. apply filter_In in Hin.
      exact (T2 src (proj1 Hin)).
Qed.

Lemma run_tidy (faulty : list nat) (es : list Event) : tidy (run es (initial faulty)).
Proof.
  induction es as [|e es IH] using rev_ind.
  - constructor; cbn; [constructor|intros ? []|intros src [H|H]; discriminate H|reflexivity].
  - rewrite run_snoc. now apply step_tidy.
Qed.

(** X24.  Whatever happened since the page was loaded, [sourcesRef] holds
    no buffer source twice and only sources that were started and have not
    been stopped; and every [stop()] the component ever called was on a
    source it had started before and had not stopped before.  A flush
    therefore never stops a source that was not started, nor one twice. *)
Theorem flush_stops_only_playing (faulty : list nat) (es : list Event) :
  let s := run es (initial faulty) in
  NoDup (sourcesRef (refs s)) /\
  (forall src, In src (sourcesRef (refs s)) -> scheduled s src = true) /\
  well_stopped (calls s) = true.
Proof.
  cbv zeta. destruct (run_tidy faulty es) as [T1 T2 _ T4]. now repeat split.
Qed.

(** * Properties of the constants *)

Module ConstantsProofs.
Import Constants.

(** X17.  The members of [Subject] stand for pairwise different strings,
    so comparing subjects as strings, as the page does, is comparing the
    members; and [SUBJECT_METADATA] has exactly one entry for each of them:
    the picker offers every subject once, its React keys are distinct, and
    the spinner can only sit on one button. *)
Theorem picker_lists_every_subject :
  (forall a b, value a = value b -> a = b) /\
  (forall a b, same_subject a b = true <-> a = b) /\
  (forall subject,
     List.length (filter (fun card => same_subject (id card) subject) SUBJECT_METADATA)
       = 1%nat) /\
  NoDup (map (fun card => value (id card)) SUBJECT_METADATA).
Proof.
  assert (I : forall a b, same_subject a b = true <-> a = b).
  { intros a b. split.
    - destruct a, b; intros H; try reflexivity; vm_compute in H; discriminate H.
    - intros ->. apply String.eqb_refl. }
  repeat split; try apply I.
  - intros a b H. apply I. unfold same_subject. rewrite H. apply String.eqb_refl.
  - intros []; reflexivity.
  - cbn. repeat constructor; cbn; intuition discriminate.
Qed.

(** X18.  For every subject the channel is opened with instructions that
    state that subject, and no other, as the current one, and that name in
    quotes the one tool the configuration declares; that name is the one
    line 166 answers to, and the two parameters the declaration requires
    are the two the handler reads. *)
Theorem instructions_name_subject_and_tool (subject : Subject) :
  let config := connect_config subject in
  includes (systemInstruction config) ("Current Subject: " ++ value subject ++ ".") = true /\
  (forall other,
     includes (systemInstruction config) ("Current Subject: " ++ value other ++ ".") = true ->
     other = subject) /\
  (forall tool,
     In tool (tools config) ->
     includes (systemInstruction config) ("'" ++ name tool ++ "'") = true /\
     (forall call_id args,
        names_prompt_tool (mkCall call_id (Some (name tool)) args) = true) /\
     required tool = ["word"; "language"]).
Proof.
  cbv zeta. split; [|split].
  - destruct subject; vm_compute; reflexivity.
  - intros other H. destruct subject, other; try reflexivity; vm_compute in H; discriminate H.
  - intros tool [<-|[]]. split; [|split].
    + destruct subject; vm_compute; reflexivity.
    + reflexivity.
    + reflexivity.
Qed.

End ConstantsProofs.
